(** * Rover navigation core: obstacles, steering, collision, suspension

    A shallow embedding of the simulation core of [src/components/Rover.tsx],
    [src/components/ScatteredRocks.tsx] and [src/utils/noise.ts], with the
    chunk list of [src/components/Scene.tsx], the colour bands of
    [src/components/MarsTerrain.tsx] and the impact test of
    [src/components/Meteors.tsx].

    JavaScript numbers are read as real numbers: every arithmetic operation
    is the exact one, [Math.sin], [Math.cos] and [Math.sqrt] are the real
    functions, and [Math.floor] is the integer part.  Comparisons are the
    decidable order of the reals, so a branch of the source is a branch on
    [Rlt_dec] or [Rle_dec] here.  Values that the source draws from
    [Math.random] are arguments of the functions that use them.

    Of [useFrame] the model keeps what the agent state, the position, the
    obstacle cache and the wheels depend on.  What only feeds the renderer
    is left out: headlights, material colours, mast, panel and head
    animation, the body quaternion and the camera.  The world matrix of the
    body, which three.js computes from them, reaches the wheel loop as an
    input of the frame. *)

From Stdlib Require Import Reals Lra Lia List ZArith String Bool.
From Stdlib Require Import DecimalString.
Import ListNotations.
Open Scope R_scope.

(** ** Numbers as the source uses them *)

Module JS.

Definition ltb (a b : R) : bool := if Rlt_dec a b then true else false.
Definition leb (a b : R) : bool := if Rle_dec a b then true else false.
Definition gtb (a b : R) : bool := ltb b a.
Definition geb (a b : R) : bool := leb b a.

Definition Math_floor (v : R) : R := IZR (Int_part v).
Definition Math_round (v : R) : Z := Int_part (v + 0.5).
Definition Math_abs (v : R) : R := Rabs v.
Definition Math_max (a b : R) : R := if ltb a b then b else a.
Definition Math_min (a b : R) : R := if ltb b a then b else a.
Definition Math_sqrt (v : R) : R := sqrt v.
Definition Math_SQRT2 : R := sqrt 2.

(** [v || 1] on a number: 0 is the falsy one. *)
Definition orOne (v : R) : R := if Req_dec_T v 0 then 1 else v.

(** [THREE.MathUtils.lerp] and [THREE.MathUtils.clamp], as three.js
    defines them. *)
Definition lerp (a b t : R) : R := (1 - t) * a + t * b.
Definition clamp (v lo hi : R) : R := Math_max lo (Math_min hi v).

(** Number-to-string conversion of an integer-valued number, as a template
    literal performs it. *)
Definition string_of_Z (n : Z) : string := NilZero.string_of_int (Z.to_int n).
Definition string_of_nat (n : nat) : string := string_of_Z (Z.of_nat n).

End JS.
Import JS.

(** ** The height field of [src/utils/noise.ts] *)

Module Noise.

Definition hash (x z : R) : R :=
  let h := sin (x * 12.9898 + z * 78.233) * 43758.5453123 in
  h - Math_floor h.

Definition noise (x z : R) : R :=
  let iX := Math_floor x in
  let iZ := Math_floor z in
  let fX := x - iX in
  let fZ := z - iZ in
  let u := fX * fX * (3.0 - 2.0 * fX) in
  let v := fZ * fZ * (3.0 - 2.0 * fZ) in
  let bl := hash iX iZ in
  let br := hash (iX + 1) iZ in
  let tl := hash iX (iZ + 1) in
  let tr := hash (iX + 1) (iZ + 1) in
  (bl * (1.0 - u) + br * u) * (1.0 - v) + (tl * (1.0 - u) + tr * u) * v.

Definition simpleNoise (x z seed : R) : R :=
  let scale := 0.025 in
  let nx := x * scale in
  let nz := z * scale in
  let qx := noise (nx + seed) (nz + seed) in
  let qz := noise (nx + 5.2 + seed) (nz + 1.3 + seed) in
  let rx := noise (nx + 4.0 * qx + 1.7) (nz + 4.0 * qz + 9.2) in
  let rz := noise (nx + 4.0 * qx + 8.3) (nz + 4.0 * qz + 2.8) in
  let elevation := noise (nx + 4.0 * rx) (nz + 4.0 * rz) in
  let elevation := elevation + 0.5 * noise (nx * 2.0) (nz * 2.0) in
  let elevation := elevation + 0.25 * noise (nx * 4.0) (nz * 4.0) in
  let h := (elevation - 0.7) * 6.0 in
  let h := h + (sin (nx * 0.4) * 1.2 + cos (nz * 0.3) * 1.2) in
  let h := h + noise (x * 0.8) (z * 0.8) * 0.6 in
  h.

(** Lightweight noise for the colour maps. *)
Definition fastNoise (x z : R) : R := noise (x * 0.1) (z * 0.1).

End Noise.

(** ** Chunk obstacles ([Rover.tsx], lines 15-33 and 500-542) *)

Record RockLayer := mkLayer {
  count : nat;
  minScale : R;
  maxScale : R
}.

Definition ROCK_LAYERS : list RockLayer :=
  [ mkLayer 1 22 32;      (* Gigantic *)
    mkLayer 3 9 15;       (* Massive *)
    mkLayer 25 1.5 3.5 ]. (* Large *)

Definition CHUNK_SIZE : R := 80.

Definition RUNNABLE_ROCK_SCALE : R := 2.5.

Record Obstacle := mkObstacle {
  id : string;
  x : R;
  z : R;
  radius : R;
  scale : R
}.

Definition SAFE_ZONE : R := 25.0.

Section Chunk.

(** The chunk coordinates the generator is called with. *)
Variables cx cz : Z.

Definition offsetX : R := IZR cx * CHUNK_SIZE.
Definition offsetZ : R := IZR cz * CHUNK_SIZE.
Definition seedBase : R := offsetX * 123.45 + offsetZ * 678.91.

Definition pseudoRandom (idx : nat) : R :=
  let s := sin (seedBase + INR idx) * 43758.5453 in
  s - Math_floor s.

(** The position a rock is given before the path clearance. *)
Definition baseX (i : nat) : R :=
  (pseudoRandom (i * 3 + 0) - 0.5) * CHUNK_SIZE + offsetX.
Definition baseZ (i : nat) : R :=
  (pseudoRandom (i * 3 + 1) - 0.5) * CHUNK_SIZE + offsetZ.

Definition obstacleId (i : nat) : string :=
  (string_of_Z cx ++ ":" ++ string_of_Z cz ++ ":" ++ string_of_nat i)%string.

(** One turn of the body of the [while] loop: the obstacle pushed for
    index [i] of [layer]. *)
Definition makeObstacle (layer : RockLayer) (i : nat) : Obstacle :=
  let r3 := pseudoRandom (i * 3 + 2) in
  let s := minScale layer + r3 * (maxScale layer - minScale layer) in
  let r1 := pseudoRandom (i * 3 + 0) in
  let r2 := pseudoRandom (i * 3 + 1) in
  let wx := (r1 - 0.5) * CHUNK_SIZE + offsetX in
  let wz := (r2 - 0.5) * CHUNK_SIZE + offsetZ in
  let wx :=
    if gtb s 8.0 then
      if ltb (Math_abs wx) SAFE_ZONE then
        let pushDir := if geb wx 0 then 1 else -1 in
        let offset := SAFE_ZONE + r1 * 10 in
        pushDir * offset
      else wx
    else wx in
  mkObstacle (obstacleId i) wx wz (s + 1.5) s.

(** [let i = 0; while (i < layer.count) { ...; i++ }], with the array the
    obstacles are pushed on. *)
Fixpoint layerLoop (fuel : nat) (layer : RockLayer) (i : nat)
    (obstacles : list Obstacle) : list Obstacle :=
  match fuel with
  | O => obstacles
  | S fuel' =>
      if (i <? count layer)%nat
      then layerLoop fuel' layer (S i) (obstacles ++ [makeObstacle layer i])
      else obstacles
  end.

Definition getObstaclesInChunk : list Obstacle :=
  fold_left (fun obstacles layer => layerLoop (count layer) layer 0 obstacles)
            ROCK_LAYERS [].

End Chunk.

(** ** Rock placement of the terrain visuals ([ScatteredRocks.tsx]) *)

Module ScatteredRocks.

Record Props := mkProps {
  p_count : nat;
  p_minScale : R;
  p_maxScale : R;
  p_chunkSize : R;
  p_offsetX : R;
  p_offsetZ : R
}.

(** What one turn of the placement loop computes: the local variables
    [worldX], [worldZ] and [scale], and the instance transform handed to
    [setMatrixAt]. *)
Record Placement := mkPlacement {
  worldX : R;
  worldZ : R;
  rockScale : R;
  localPos : R * R * R;
  rotation : R * R * R;
  meshScale : R * R * R
}.

Section Place.

Variable props : Props.

Definition seedBase : R :=
  p_offsetX props * 123.45 + p_offsetZ props * 678.91.

Definition pseudoRandom (idx : nat) : R :=
  let s := sin (seedBase + INR idx) * 43758.5453 in
  s - Math_floor s.

Definition place (i : nat) : Placement :=
  let r3 := pseudoRandom (i * 3 + 2) in
  let scale := p_minScale props + r3 * (p_maxScale props - p_minScale props) in
  let r1 := pseudoRandom (i * 3 + 0) in
  let r2 := pseudoRandom (i * 3 + 1) in
  let localX := (r1 - 0.5) * p_chunkSize props in
  let localZ := (r2 - 0.5) * p_chunkSize props in
  let worldX := localX + p_offsetX props in
  let worldZ := localZ + p_offsetZ props in
  let '(worldX, localX) :=
    if gtb scale 8.0 then
      if ltb (Math_abs worldX) SAFE_ZONE then
        let pushDir := if geb worldX 0 then 1 else -1 in
        let offset := SAFE_ZONE + r1 * 10 in
        let worldX := pushDir * offset in
        (worldX, worldX - p_offsetX props)
      else (worldX, localX)
    else (worldX, localX) in
  let groundHeight := Noise.simpleNoise worldX worldZ 42 in
  let y := -2 + groundHeight - scale * 0.4 - 0.2 in
  mkPlacement worldX worldZ scale
    (localX, y, localZ)
    (pseudoRandom (i * 4) * PI,
     pseudoRandom (i * 4 + 1) * PI,
     pseudoRandom (i * 4 + 2) * PI)
    (scale, scale * 0.7, scale).

(** [let i = 0; while (i < count) { ...; setMatrixAt(i, ...); i++ }]:
    the instances in the order of their indices. *)
Fixpoint placeLoop (fuel : nat) (i : nat) (instances : list Placement)
    : list Placement :=
  match fuel with
  | O => instances
  | S fuel' =>
      if (i <? p_count props)%nat
      then placeLoop fuel' (S i) (instances ++ [place i])
      else instances
  end.

Definition placements : list Placement :=
  placeLoop (p_count props) 0 [].

End Place.

(** The radius of the bounding sphere given to the instanced mesh for
    frustum culling; its centre is the local origin. *)
Definition boundingRadius (props : Props) : R :=
  (p_chunkSize props * Math_SQRT2) / 2 + p_maxScale props + 5.0.

(** The instanced mesh sits at [(offsetX, 0, offsetZ)], so an instance is
    drawn at its local position moved by the chunk offset. *)
Definition renderedXZ (props : Props) (pl : Placement) : R * R :=
  let '(lx, _, lz) := localPos pl in
  (p_offsetX props + lx, p_offsetZ props + lz).

(** The props [Scene.tsx] gives the tier [layer] of the chunk [(cx, cz)]. *)
Definition tierProps (cx cz : Z) (layer : RockLayer) : Props :=
  mkProps (count layer) (minScale layer) (maxScale layer) CHUNK_SIZE
          (IZR cx * CHUNK_SIZE) (IZR cz * CHUNK_SIZE).

End ScatteredRocks.

(** ** The chunks the scene draws ([Scene.tsx], lines 44-130) *)

Module Scene.

Record Chunk := mkChunk { key : string; chunk_x : R; chunk_z : R }.

(** [Math.round(target / CHUNK_SIZE)] on both axes: the centre chunk the
    frame callback of [InfiniteTerrain] settles on. *)
Definition centerOf (targetX targetZ : R) (centerChunk : Z * Z) : Z * Z :=
  let cx := Math_round (targetX / CHUNK_SIZE) in
  let cz := Math_round (targetZ / CHUNK_SIZE) in
  if negb (Z.eqb cx (fst centerChunk)) || negb (Z.eqb cz (snd centerChunk))
  then (cx, cz) else centerChunk.

(** The two nested loops from [-VISIBLE_RADIUS] to [VISIBLE_RADIUS], which
    is 1. *)
Definition chunks (centerChunk : Z * Z) : list Chunk :=
  flat_map
    (fun x =>
       map (fun z =>
              let chunkX := (fst centerChunk + x)%Z in
              let chunkZ := (snd centerChunk + z)%Z in
              mkChunk (string_of_Z chunkX ++ ":" ++ string_of_Z chunkZ)%string
                      (IZR chunkX * CHUNK_SIZE) (IZR chunkZ * CHUNK_SIZE))
           [-1; 0; 1]%Z)
    [-1; 0; 1]%Z.

(** The four [ScatteredRocks] a chunk is given: count and scale range. *)
Definition tiers : list RockLayer :=
  [ mkLayer 1 22 32; mkLayer 3 9 15; mkLayer 25 1.5 3.5;
    mkLayer 100 0.1 0.4 ].

Definition rockProps (chunk : Chunk) (tier : RockLayer)
    : ScatteredRocks.Props :=
  ScatteredRocks.mkProps (count tier) (minScale tier) (maxScale tier)
                         CHUNK_SIZE (chunk_x chunk) (chunk_z chunk).

End Scene.

(** ** The colour map of the terrain ([MarsTerrain.tsx], lines 69-90) *)

Module MarsTerrain.

Definition size : nat := 128.

(** The band of the pixel [(x, y)] of the texture of a chunk. *)
Definition band (chunkSize offsetX offsetZ : R) (x y : nat) : R :=
  let u := INR x / INR size in
  let v := 1 - INR y / INR size in
  let localX := (u - 0.5) * chunkSize in
  let localZ := (v - 0.5) * chunkSize in
  let worldX := localX + offsetX in
  let worldZ := - localZ + offsetZ in
  let noiseVal := Noise.fastNoise worldX worldZ in
  let norm := noiseVal + 0.5 in
  let norm := Math_max 0 (Math_min 1 norm) in
  let bands := 8 in
  Math_floor (norm * bands) / bands.

End MarsTerrain.

(** ** Surface height ([Rover.tsx], lines 471-498) *)

Definition getBaseTerrainHeight (wx wz : R) : R :=
  Noise.simpleNoise wx wz 42 - 2.0.

(** One turn of [for (const obs of obstaclesCache.current)], on the running
    height [h]. *)
Definition surfaceStep (wx wz : R) (h : R) (obs : Obstacle) : R :=
  if geb (scale obs) RUNNABLE_ROCK_SCALE then h
  else
    let dx := wx - x obs in
    let dz := wz - z obs in
    let distSq := dx * dx + dz * dz in
    let physRadius := scale obs * 0.9 in
    if ltb distSq (physRadius * physRadius) then
      let rockGroundH := getBaseTerrainHeight (x obs) (z obs) in
      let rockCenterY := rockGroundH - scale obs * 0.4 in
      let sphereH :=
        Math_sqrt (Math_max 0 (physRadius * physRadius - distSq)) in
      let surfaceY := rockCenterY + sphereH in
      if gtb surfaceY h then surfaceY else h
    else h.

Definition getSurfaceHeight (obstaclesCache : list Obstacle) (wx wz : R) : R :=
  fold_left (surfaceStep wx wz) obstaclesCache (getBaseTerrainHeight wx wz).

(** *** The surface height as the specification words it *)

Definition horizontalDistance (wx wz : R) (obs : Obstacle) : R :=
  sqrt ((wx - x obs) * (wx - x obs) + (wz - z obs) * (wz - z obs)).

(** A rock that can be driven over and whose footprint of radius
    [0.9 * scale] holds the point. *)
Definition drivableOver (wx wz : R) (obs : Obstacle) : bool :=
  ltb (scale obs) RUNNABLE_ROCK_SCALE &&
  ltb (horizontalDistance wx wz obs) (0.9 * scale obs).

(** Height at the point of the hemisphere of radius [0.9 * scale] whose
    centre lies [0.4 * scale] under the terrain at the rock. *)
Definition hemisphereHeight (wx wz : R) (obs : Obstacle) : R :=
  let r := 0.9 * scale obs in
  let d := horizontalDistance wx wz obs in
  (getBaseTerrainHeight (x obs) (z obs) - 0.4 * scale obs)
  + sqrt (r * r - d * d).

Definition surfaceHeightSpec (cache : list Obstacle) (wx wz : R) : R :=
  fold_right Rmax (getBaseTerrainHeight wx wz)
             (map (hemisphereHeight wx wz) (filter (drivableOver wx wz) cache)).

(** ** The state of the rover component ([Rover.tsx], lines 304-436) *)

Module Vector3.

Record t := mk { x : R; y : R; z : R }.

Definition zero : t := mk 0 0 0.
Definition add (a b : t) : t := mk (x a + x b) (y a + y b) (z a + z b).
Definition addScalar (a : t) (s : R) : t := mk (x a + s) (y a + s) (z a + s).
Definition multiplyScalar (a : t) (s : R) : t := mk (x a * s) (y a * s) (z a * s).
Definition length (a : t) : R := Math_sqrt (x a * x a + y a * y a + z a * z a).
(** [multiplyScalar(1 / scalar)], as three.js defines it. *)
Definition divideScalar (a : t) (s : R) : t := multiplyScalar a (1 / s).
(** [divideScalar(length() || 1)], as three.js defines it. *)
Definition normalize (a : t) : t := divideScalar a (orOne (length a)).

End Vector3.

Module CoverTarget.

(** [{ x, z, id?, stopDist }]; a terrain pocket carries no id. *)
Record t := mk { x : R; z : R; id : option string; stopDist : R }.

End CoverTarget.

Inductive MeteorPhase := IDLE | INCOMING | IMPACT.

Record Keys := mkKeys { key_w : bool; key_a : bool; key_s : bool; key_d : bool }.

(** [agentState.current]. *)
Record AgentState := mkAgent {
  yaw : R;
  steerAngle : R;
  speed : R;
  wheelRot : R;
  currentCoverTarget : option CoverTarget.t;
  stuckTimer : R;
  recoveryTimer : R;
  scanTimer : R;
  isScanning : bool;
  shakePos : Vector3.t;
  shakeRot : Vector3.t;
  knockbackVel : Vector3.t;
  isAirborne : bool;
  retractionT : R;
  dustLevel : R;
  wheelVelocities : list R;
  isUnderCover : bool
}.

Definition set_yaw (v : R) (a : AgentState) : AgentState :=
  mkAgent v (steerAngle a) (speed a) (wheelRot a) (currentCoverTarget a) (stuckTimer a) (recoveryTimer a) (scanTimer a) (isScanning a) (shakePos a) (shakeRot a) (knockbackVel a) (isAirborne a) (retractionT a) (dustLevel a) (wheelVelocities a) (isUnderCover a).

Definition set_steerAngle (v : R) (a : AgentState) : AgentState :=
  mkAgent (yaw a) v (speed a) (wheelRot a) (currentCoverTarget a) (stuckTimer a) (recoveryTimer a) (scanTimer a) (isScanning a) (shakePos a) (shakeRot a) (knockbackVel a) (isAirborne a) (retractionT a) (dustLevel a) (wheelVelocities a) (isUnderCover a).

Definition set_speed (v : R) (a : AgentState) : AgentState :=
  mkAgent (yaw a) (steerAngle a) v (wheelRot a) (currentCoverTarget a) (stuckTimer a) (recoveryTimer a) (scanTimer a) (isScanning a) (shakePos a) (shakeRot a) (knockbackVel a) (isAirborne a) (retractionT a) (dustLevel a) (wheelVelocities a) (isUnderCover a).

Definition set_wheelRot (v : R) (a : AgentState) : AgentState :=
  mkAgent (yaw a) (steerAngle a) (speed a) v (currentCoverTarget a) (stuckTimer a) (recoveryTimer a) (scanTimer a) (isScanning a) (shakePos a) (shakeRot a) (knockbackVel a) (isAirborne a) (retractionT a) (dustLevel a) (wheelVelocities a) (isUnderCover a).

Definition set_currentCoverTarget (v : option CoverTarget.t) (a : AgentState) : AgentState :=
  mkAgent (yaw a) (steerAngle a) (speed a) (wheelRot a) v (stuckTimer a) (recoveryTimer a) (scanTimer a) (isScanning a) (shakePos a) (shakeRot a) (knockbackVel a) (isAirborne a) (retractionT a) (dustLevel a) (wheelVelocities a) (isUnderCover a).

Definition set_stuckTimer (v : R) (a : AgentState) : AgentState :=
  mkAgent (yaw a) (steerAngle a) (speed a) (wheelRot a) (currentCoverTarget a) v (recoveryTimer a) (scanTimer a) (isScanning a) (shakePos a) (shakeRot a) (knockbackVel a) (isAirborne a) (retractionT a) (dustLevel a) (wheelVelocities a) (isUnderCover a).

Definition set_recoveryTimer (v : R) (a : AgentState) : AgentState :=
  mkAgent (yaw a) (steerAngle a) (speed a) (wheelRot a) (currentCoverTarget a) (stuckTimer a) v (scanTimer a) (isScanning a) (shakePos a) (shakeRot a) (knockbackVel a) (isAirborne a) (retractionT a) (dustLevel a) (wheelVelocities a) (isUnderCover a).

Definition set_scanTimer (v : R) (a : AgentState) : AgentState :=
  mkAgent (yaw a) (steerAngle a) (speed a) (wheelRot a) (currentCoverTarget a) (stuckTimer a) (recoveryTimer a) v (isScanning a) (shakePos a) (shakeRot a) (knockbackVel a) (isAirborne a) (retractionT a) (dustLevel a) (wheelVelocities a) (isUnderCover a).

Definition set_isScanning (v : bool) (a : AgentState) : AgentState :=
  mkAgent (yaw a) (steerAngle a) (speed a) (wheelRot a) (currentCoverTarget a) (stuckTimer a) (recoveryTimer a) (scanTimer a) v (shakePos a) (shakeRot a) (knockbackVel a) (isAirborne a) (retractionT a) (dustLevel a) (wheelVelocities a) (isUnderCover a).

Definition set_shakePos (v : Vector3.t) (a : AgentState) : AgentState :=
  mkAgent (yaw a) (steerAngle a) (speed a) (wheelRot a) (currentCoverTarget a) (stuckTimer a) (recoveryTimer a) (scanTimer a) (isScanning a) v (shakeRot a) (knockbackVel a) (isAirborne a) (retractionT a) (dustLevel a) (wheelVelocities a) (isUnderCover a).

Definition set_shakeRot (v : Vector3.t) (a : AgentState) : AgentState :=
  mkAgent (yaw a) (steerAngle a) (speed a) (wheelRot a) (currentCoverTarget a) (stuckTimer a) (recoveryTimer a) (scanTimer a) (isScanning a) (shakePos a) v (knockbackVel a) (isAirborne a) (retractionT a) (dustLevel a) (wheelVelocities a) (isUnderCover a).

Definition set_knockbackVel (v : Vector3.t) (a : AgentState) : AgentState :=
  mkAgent (yaw a) (steerAngle a) (speed a) (wheelRot a) (currentCoverTarget a) (stuckTimer a) (recoveryTimer a) (scanTimer a) (isScanning a) (shakePos a) (shakeRot a) v (isAirborne a) (retractionT a) (dustLevel a) (wheelVelocities a) (isUnderCover a).

Definition set_isAirborne (v : bool) (a : AgentState) : AgentState :=
  mkAgent (yaw a) (steerAngle a) (speed a) (wheelRot a) (currentCoverTarget a) (stuckTimer a) (recoveryTimer a) (scanTimer a) (isScanning a) (shakePos a) (shakeRot a) (knockbackVel a) v (retractionT a) (dustLevel a) (wheelVelocities a) (isUnderCover a).

Definition set_retractionT (v : R) (a : AgentState) : AgentState :=
  mkAgent (yaw a) (steerAngle a) (speed a) (wheelRot a) (currentCoverTarget a) (stuckTimer a) (recoveryTimer a) (scanTimer a) (isScanning a) (shakePos a) (shakeRot a) (knockbackVel a) (isAirborne a) v (dustLevel a) (wheelVelocities a) (isUnderCover a).

Definition set_dustLevel (v : R) (a : AgentState) : AgentState :=
  mkAgent (yaw a) (steerAngle a) (speed a) (wheelRot a) (currentCoverTarget a) (stuckTimer a) (recoveryTimer a) (scanTimer a) (isScanning a) (shakePos a) (shakeRot a) (knockbackVel a) (isAirborne a) (retractionT a) v (wheelVelocities a) (isUnderCover a).

Definition set_wheelVelocities (v : list R) (a : AgentState) : AgentState :=
  mkAgent (yaw a) (steerAngle a) (speed a) (wheelRot a) (currentCoverTarget a) (stuckTimer a) (recoveryTimer a) (scanTimer a) (isScanning a) (shakePos a) (shakeRot a) (knockbackVel a) (isAirborne a) (retractionT a) (dustLevel a) v (isUnderCover a).

Definition set_isUnderCover (v : bool) (a : AgentState) : AgentState :=
  mkAgent (yaw a) (steerAngle a) (speed a) (wheelRot a) (currentCoverTarget a) (stuckTimer a) (recoveryTimer a) (scanTimer a) (isScanning a) (shakePos a) (shakeRot a) (knockbackVel a) (isAirborne a) (retractionT a) (dustLevel a) (wheelVelocities a) v.

(** The refs and the React state of the component.  [wheelY] holds
    [suspensionGroup.position.y] of the six wheel groups, which the scene
    mounts at their neutral height. *)
Record Rover := mkRover {
  roverPos : Vector3.t;
  agentState : AgentState;
  damageCount : nat;
  keysPressed : Keys;
  autoPilotRef : bool;
  userPanelOverride : option bool;
  frameCount : nat;
  lastChunkPos : Z * Z;
  obstaclesCache : list Obstacle;
  wheelY : list R
}.

Definition WHEEL_POSITIONS : list (R * R * R) :=
  [ (-0.7, 0.2, -0.5); (0.7, 0.2, -0.5);   (* Front *)
    (-0.8, 0.2, 0.1);  (0.8, 0.2, 0.1);    (* Middle *)
    (-0.7, 0.2, 0.6);  (0.7, 0.2, 0.6) ].  (* Rear *)

Definition initialAgent : AgentState :=
  mkAgent 0 0 2.0 0 None 0 0 0 false
          Vector3.zero Vector3.zero Vector3.zero false 0 0
          [0; 0; 0; 0; 0; 0] false.

Definition initialRover : Rover :=
  mkRover (Vector3.mk 0 0 13.5) initialAgent 0
          (mkKeys false false false false) false None 0
          (-999, -999)%Z []
          (map (fun pos => snd (fst pos) - 0.3) WHEEL_POSITIONS).

Definition set_agent (a : AgentState) (st : Rover) : Rover :=
  mkRover (roverPos st) a (damageCount st) (keysPressed st) (autoPilotRef st)
          (userPanelOverride st) (frameCount st) (lastChunkPos st)
          (obstaclesCache st) (wheelY st).

(** ** The hit notification ([Rover.tsx], lines 443-461) *)

(** [rnd] holds the three values [shakeRot.set] draws from [Math.random]. *)
Definition hit (impactVelocity : Vector3.t) (rnd : R * R * R) (st : Rover)
    : Rover :=
  let a := agentState st in
  let isSafe := isUnderCover a && gtb (retractionT a) 0.8 in
  if isSafe then
    set_agent (set_shakePos (Vector3.addScalar (shakePos a) 0.2) a) st
  else
    let a := set_knockbackVel impactVelocity a in
    let a := set_knockbackVel
               (Vector3.mk (Vector3.x (knockbackVel a)) 0
                           (Vector3.z (knockbackVel a))) a in
    let a := set_shakePos (Vector3.addScalar (shakePos a) 0.5) a in
    let '(r1, r2, r3) := rnd in
    let a := set_shakeRot
               (Vector3.multiplyScalar (Vector3.mk r1 r2 r3) 0.5) a in
    mkRover (roverPos st) a (Nat.min (damageCount st + 1) 20)
            (keysPressed st) (autoPilotRef st) (userPanelOverride st)
            (frameCount st) (lastChunkPos st) (obstaclesCache st) (wheelY st).

(** The fields of the agent a hit leaves alone in both branches. *)
Definition sameDrive (a b : AgentState) : Prop :=
  yaw a = yaw b /\ steerAngle a = steerAngle b /\ speed a = speed b /\
  stuckTimer a = stuckTimer b /\ recoveryTimer a = recoveryTimer b /\
  retractionT a = retractionT b /\ isUnderCover a = isUnderCover b /\
  wheelVelocities a = wheelVelocities b /\
  currentCoverTarget a = currentCoverTarget b.

(** ** The meteor that reaches the rover ([Meteors.tsx], lines 127-140) *)

Module Meteors.

(** The test of one falling meteor at [mpos] against the rover at
    [roverPos], while the shower is active: the impact force the rover is
    hit with, if any. *)
Definition impact (roverPos mpos : Vector3.t) : option Vector3.t :=
  let dx := Vector3.x roverPos - Vector3.x mpos in
  let dz := Vector3.z roverPos - Vector3.z mpos in
  let distSq := dx * dx + dz * dz in
  let heightDiff := Math_abs (Vector3.y roverPos - Vector3.y mpos) in
  if ltb distSq 5.0 && ltb heightDiff 2.5 then
    let impactDir := Vector3.normalize (Vector3.mk dx 0 dz) in
    let impactForce := Vector3.multiplyScalar impactDir 25.0 in
    Some impactForce
  else None.

End Meteors.

(** ** Suspension ([Rover.tsx], lines 1241-1285) *)

Definition maxTravel : R := 0.4.
Definition stiffness : R := 120.0.
Definition damping : R := 20.0.

Definition neutralY (pos : R * R * R) : R := snd (fst pos) - 0.3.

(** The spring-damper of one wheel: from the local height the ground asks
    for ([desiredLocalPoint.y]), the wheel height and its velocity, the new
    height and velocity. *)
Definition suspensionStep (pos : R * R * R) (dt : R) (desiredLocalY : R)
    (currentY velocity : R) : R * R :=
  let targetLocalY := desiredLocalY + 0.18 in
  let neutralY := neutralY pos in
  let finalTargetY := targetLocalY in
  let clampedTargetY :=
    clamp finalTargetY (neutralY - maxTravel) (neutralY + maxTravel) in
  let displacement := currentY - clampedTargetY in
  let acceleration := - stiffness * displacement - damping * velocity in
  let newVelocity := velocity + acceleration * dt in
  let newY := currentY + newVelocity * dt in
  if ltb newY (neutralY - maxTravel) then (neutralY - maxTravel, 0)
  else if gtb newY (neutralY + maxTravel) then (neutralY + maxTravel, 0)
  else (newY, newVelocity).

(** What the world matrix of the body gives the wheel loop: the world
    position of the six hardpoints and the row of the inverse matrix that
    yields a local height.  The matrix itself is three.js's business. *)
Record BodyTransform := mkBody {
  hardpoints : list (R * R);
  invRowY : R * R * R * R
}.

Definition toLocalY (body : BodyTransform) (wx wy wz : R) : R :=
  let '(m0, m1, m2, m3) := invRowY body in
  m0 * wx + m1 * wy + m2 * wz + m3.

(** [WHEEL_POSITIONS.forEach((pos, i) => ...)] on the wheel heights and
    velocities; [wheelVelocities[i] || 0] reads a missing entry as 0. *)
Definition suspensionWheel (cache : list Obstacle) (body : BodyTransform)
    (dt : R) (ys vs : list R) (ipos : nat * (R * R * R)) : R * R :=
  let '(i, pos) := ipos in
  let '(hx, hz) := nth i (hardpoints body) (0, 0) in
  let terrainH := getSurfaceHeight cache hx hz in
  let desiredLocalY := toLocalY body hx terrainH hz in
  suspensionStep pos dt desiredLocalY (nth i ys (neutralY pos)) (nth i vs 0).

Definition suspensionUpdate (cache : list Obstacle) (body : BodyTransform)
    (dt : R) (ys vs : list R) : list R * list R :=
  let wheels :=
    map (suspensionWheel cache body dt ys vs)
        (combine (seq 0 (List.length WHEEL_POSITIONS)) WHEEL_POSITIONS) in
  (map fst wheels, map snd wheels).

(** *** Wheel track and wheel steering (lines 796 and 1287-1306) *)

Definition retractionEase (rt : R) : R := 1 - (1 - rt) ^ 4.

(** [suspensionGroup.position.x] of the wheel mounted at [pos]. *)
Definition wheelTrackX (pos : R * R * R) (rt : R) : R :=
  let baseX := fst (fst pos) in
  let retractedX := baseX * 0.35 in
  lerp baseX retractedX (retractionEase rt).

(** [steeringGroup.rotation.y] of wheel [i]. *)
Definition finalWheelSteer (i : nat) (baseSteer : R) : R :=
  let isLeftTurn := gtb baseSteer 0 in
  let isLeftWheel := Nat.eqb (i mod 2) 0 in
  let isInner := (isLeftTurn && isLeftWheel)
                 || (negb isLeftTurn && negb isLeftWheel) in
  let multiplier := if isInner then 1.3 else 0.8 in
  if Nat.eqb i 0 || Nat.eqb i 1 then baseSteer * multiplier
  else if Nat.eqb i 4 || Nat.eqb i 5 then - baseSteer * multiplier
  else 0.

(** ** One frame ([Rover.tsx], [useFrame], lines 679-1308) *)

(** What a frame receives from outside: the elapsed time, the props, the
    values drawn from [Math.random] (five for the storm vibration, one for
    the side of a recovery) and the transform of the body. *)
Record Frame := mkFrame {
  delta : R;
  stormActive : bool;
  meteorPhase : MeteorPhase;
  vibration : R * R * R * R * R;
  recoverySide : R;
  body : BodyTransform
}.

Definition phase_eqb (p q : MeteorPhase) : bool :=
  match p, q with
  | IDLE, IDLE | INCOMING, INCOMING | IMPACT, IMPACT => true
  | _, _ => false
  end.

(** A number that may still be [Infinity]: [None] is [Infinity]. *)
Definition lt_inf (v : R) (best : option R) : bool :=
  match best with None => true | Some b => ltb v b end.

Definition inf_gt (best : option R) (c : R) : bool :=
  match best with None => true | Some b => gtb b c end.

(** *** Dust, shake and knockback decay (lines 702-766) *)

Definition updateDust (f : Frame) (a : AgentState) : AgentState :=
  if stormActive f then
    set_dustLevel (Math_min 1.0 (dustLevel a + delta f * 0.3)) a
  else if ltb (retractionT a) 0.5 && gtb (dustLevel a) 0 then
    set_dustLevel (Math_max 0 (dustLevel a - delta f * 0.4)) a
  else a.

Definition updateShake (f : Frame) (a : AgentState) : AgentState :=
  let a :=
    if stormActive f then
      let '(r1, r2, r3, r4, r5) := vibration f in
      let vibrationScale := 0.02 in
      let a := set_shakePos
                 (Vector3.add (shakePos a)
                    (Vector3.mk ((r1 - 0.5) * vibrationScale)
                                ((r2 - 0.5) * vibrationScale)
                                ((r3 - 0.5) * vibrationScale))) a in
      set_shakeRot
        (Vector3.mk (Vector3.x (shakeRot a) + (r4 - 0.5) * 0.005)
                    (Vector3.y (shakeRot a))
                    (Vector3.z (shakeRot a) + (r5 - 0.5) * 0.005)) a
    else a in
  let a := set_shakePos (Vector3.multiplyScalar (shakePos a) 0.85) a in
  let a := set_shakeRot (Vector3.multiplyScalar (shakeRot a) 0.85) a in
  set_knockbackVel
    (Vector3.mk (Vector3.x (knockbackVel a) * 0.85) 0
                (Vector3.z (knockbackVel a) * 0.85)) a.

(** *** Panel retraction (lines 769-795) *)

Definition updateRetraction (f : Frame) (autoPilot : bool)
    (override : option bool) (a : AgentState) : option bool * AgentState :=
  let autoRetract := stormActive f || phase_eqb (meteorPhase f) IMPACT in
  let '(shouldRetract, override) :=
    if autoPilot then (autoRetract, None)
    else match override with
         | Some b => (b, override)
         | None => (false, override)
         end in
  let animSpeed := delta f * 0.6 in
  let a :=
    if shouldRetract
    then set_retractionT (Math_min 1 (retractionT a + animSpeed)) a
    else set_retractionT (Math_max 0 (retractionT a - animSpeed)) a in
  (override, a).

(** *** Obstacle cache (lines 830-842) *)

Definition neighbourhood : list (Z * Z) :=
  flat_map (fun xx => map (fun zz => (xx, zz)) [-1; 0; 1]%Z) [-1; 0; 1]%Z.

Definition loadChunks (cx cz : Z) : list Obstacle :=
  flat_map (fun '(xx, zz) => getObstaclesInChunk (cx + xx) (cz + zz))
           neighbourhood.

Definition refreshCache (pos : Vector3.t) (last : Z * Z)
    (cache : list Obstacle) : (Z * Z) * list Obstacle :=
  let cx := Math_round (Vector3.x pos / CHUNK_SIZE) in
  let cz := Math_round (Vector3.z pos / CHUNK_SIZE) in
  if negb (Z.eqb cx (fst last)) || negb (Z.eqb cz (snd last))
  then ((cx, cz), loadChunks cx cz)
  else (last, cache).

(** *** Mode decision (lines 844-967) *)

Record Decision := mkDecision {
  targetSteer : R;
  desiredHeading : R;
  headingWeight : R;
  targetSpeed : R;
  stopping : bool;
  performRaycastAvoidance : bool
}.

(** [for (const obs of nearbyObstacles)] of the cover search: the running
    [bestDist] and [target]. *)
Definition nearestGiant (pos : Vector3.t) (nearby : list Obstacle)
    : option R * option CoverTarget.t :=
  fold_left
    (fun (acc : option R * option CoverTarget.t) obs =>
       let '(bestDist, target) := acc in
       if ltb (scale obs) 8.0 then acc
       else
         let dx := x obs - Vector3.x pos in
         let dz := z obs - Vector3.z pos in
         let dSq := dx * dx + dz * dz in
         if lt_inf dSq bestDist then
           let rockRadius := scale obs * 1.5 in
           (Some dSq,
            Some (CoverTarget.mk (x obs) (z obs) (Some (id obs))
                                 (rockRadius + 1.5)))
         else acc)
    nearby (None, None).

(** The grid of [sx], [sz] from [-scanR] to [scanR] by [scanStep]. *)
Definition scanOffsets : list R :=
  map (fun k => IZR (Z.of_nat k * 10 - 50)) (seq 0 11).

Definition scanPockets (pos : Vector3.t)
    (acc : option R * option CoverTarget.t)
    : option R * option CoverTarget.t :=
  let scanStep := 10 in
  let snapX := Math_floor (Vector3.x pos / scanStep) * scanStep in
  let snapZ := Math_floor (Vector3.z pos / scanStep) * scanStep in
  fold_left
    (fun (acc : option R * option CoverTarget.t) (s : R * R) =>
       let '(bestDist, target) := acc in
       let '(sx, sz) := s in
       let wx := snapX + sx in
       let wz := snapZ + sz in
       let h := getBaseTerrainHeight wx wz in
       if ltb h (-3.0) then
         let dx := wx - Vector3.x pos in
         let dz := wz - Vector3.z pos in
         let dSq := dx * dx + dz * dz in
         if lt_inf dSq bestDist
         then (Some dSq, Some (CoverTarget.mk wx wz None 5.0))
         else acc
       else acc)
    (flat_map (fun sx => map (fun sz => (sx, sz)) scanOffsets) scanOffsets)
    acc.

(** [Math.atan2].  The reals have one zero.  The source calls it on negated
    differences only, [Math.atan2(-dx, -dz)], and the negation of a
    difference that is zero is [-0]: a zero argument is read as [-0], for
    which [Math.atan2] answers [-PI] against a negative or zero [x]. *)
Definition Math_atan2 (y x : R) : R :=
  if ltb 0 x then atan (y / x)
  else if ltb x 0 then
    if ltb 0 y then atan (y / x) + PI else atan (y / x) - PI
  else if ltb 0 y then PI / 2
  else if ltb y 0 then - PI / 2
  else - PI.

(** [while (diff > Math.PI) diff -= Math.PI * 2] and its mirror image. *)
Fixpoint wrapAbove (fuel : nat) (diff : R) : R :=
  match fuel with
  | O => diff
  | S fuel' => if gtb diff PI then wrapAbove fuel' (diff - PI * 2) else diff
  end.

Fixpoint wrapBelow (fuel : nat) (diff : R) : R :=
  match fuel with
  | O => diff
  | S fuel' => if ltb diff (- PI) then wrapBelow fuel' (diff + PI * 2) else diff
  end.

(** Each turn moves [diff] by more than 6, so this many turns are enough. *)
Definition wrapFuel (diff : R) : nat := Z.to_nat (up (Rabs diff)).

Definition wrapAngle (diff : R) : R :=
  let diff := wrapAbove (wrapFuel diff) diff in
  wrapBelow (wrapFuel diff) diff.

Definition seekCover (pos : Vector3.t) (nearby : list Obstacle)
    (a : AgentState) (d : Decision) : Decision * AgentState :=
  let d := mkDecision (targetSteer d) (desiredHeading d) 40.0 10.0
                      (stopping d) true in
  let '(target, a) :=
    match currentCoverTarget a with
    | Some t => (Some t, a)
    | None =>
        let '(bestDist, target) := nearestGiant pos nearby in
        let '(bestDist, target) :=
          if inf_gt bestDist 900 then scanPockets pos (bestDist, target)
          else (bestDist, target) in
        match target with
        | Some t => (target, set_currentCoverTarget target a)
        | None => (None, a)
        end
    end in
  match target with
  | Some t =>
      let dx := CoverTarget.x t - Vector3.x pos in
      let dz := CoverTarget.z t - Vector3.z pos in
      let dist := Math_sqrt (dx * dx + dz * dz) in
      if ltb dist (CoverTarget.stopDist t) then
        (mkDecision (targetSteer d) (desiredHeading d) (headingWeight d) 0
                    true (performRaycastAvoidance d),
         set_speed 0 a)
      else
        let worldAngle := Math_atan2 (- dx) (- dz) in
        let diff := wrapAngle (worldAngle - yaw a) in
        (mkDecision (targetSteer d) diff (headingWeight d) (targetSpeed d)
                    (stopping d) (performRaycastAvoidance d), a)
  | None =>
      (mkDecision (targetSteer d) 0 (headingWeight d) 10.0 (stopping d)
                  (performRaycastAvoidance d), a)
  end.

Definition isManualInput (input : Keys) : bool :=
  key_w input || key_a input || key_s input || key_d input.

Definition isSystemsOffline (a : AgentState) : bool :=
  gtb (retractionT a) 0.05.

Definition decideMode (f : Frame) (input : Keys) (autoPilot : bool)
    (pos : Vector3.t) (nearby : list Obstacle) (a : AgentState)
    : Decision * AgentState :=
  let d := mkDecision 0 0 3.0 2.0 false false in
  let a :=
    if phase_eqb (meteorPhase f) IDLE then set_currentCoverTarget None a
    else a in
  if isManualInput input then
    if isSystemsOffline a then
      (mkDecision 0.0 (desiredHeading d) (headingWeight d) 0.0 (stopping d)
                  false, a)
    else
      let throttle := (if key_w input then 1 else 0)
                      - (if key_s input then 1 else 0) in
      let steer := (if key_a input then 1 else 0)
                   - (if key_d input then 1 else 0) in
      (mkDecision (steer * 0.8) (desiredHeading d) (headingWeight d)
                  (throttle * 5.0) (stopping d) false, a)
  else if phase_eqb (meteorPhase f) IMPACT then
    (mkDecision (targetSteer d) (desiredHeading d) (headingWeight d) 0.0
                true (performRaycastAvoidance d), a)
  else if stormActive f || isSystemsOffline a then
    (mkDecision (targetSteer d) (desiredHeading d) (headingWeight d) 0.0
                true (performRaycastAvoidance d), a)
  else if phase_eqb (meteorPhase f) INCOMING then
    seekCover pos nearby a d
  else if autoPilot then
    (mkDecision (targetSteer d) (desiredHeading d) 3.0 2.0 (stopping d)
                true, a)
  else
    (mkDecision (targetSteer d) (desiredHeading d) (headingWeight d) 0.0
                true false, a).

(** *** Steering cost search (lines 970-1043) *)

Definition RAY_COUNT : nat := 35.
Definition FOV : R := PI * 1.3.
Definition SAMPLES : nat := 10.
Definition baseLookAhead : R := 12.0.

Definition angleOffset (i : nat) : R :=
  let t := INR i / INR (RAY_COUNT - 1) in
  lerp (- FOV / 2) (FOV / 2) t.

Definition isCoverTarget (currentTarget : option CoverTarget.t)
    (obs : Obstacle) : bool :=
  match currentTarget with
  | Some t =>
      match CoverTarget.id t with
      | Some s => String.eqb (id obs) s
      | None => false
      end
  | None => false
  end.

Section Search.

(** The state the search reads; it writes none of it. *)
Variable a : AgentState.
Variable pos : Vector3.t.
Variable nearbyObstacles : list Obstacle.
Variable d : Decision.

Definition dynamicLookAhead : R := baseLookAhead + Math_abs (speed a) * 3.0.

(** [for (const obs of nearbyObstacles)] at the sample point [(px, pz)]. *)
Definition obstaclePenalty (angleOffset px pz penalty : R) : R :=
  fold_left
    (fun penalty obs =>
       if isCoverTarget (currentCoverTarget a) obs then penalty
       else if ltb (scale obs) RUNNABLE_ROCK_SCALE then penalty
       else
         let dx := px - x obs in
         let dz := pz - z obs in
         let distSq := dx * dx + dz * dz in
         let safeR := radius obs * 1.2 in
         if ltb distSq (safeR * safeR) then
           let d := Math_sqrt distSq in
           let proximity := safeR - d in
           let angleWeight := 1.0 + Math_max 0 (cos angleOffset * 1.5) in
           penalty + proximity * proximity * 8000.0 * angleWeight
         else penalty)
    nearbyObstacles penalty.

(** [for (let s = 1; s <= SAMPLES; s++)] on [(prevH, penalty)]. *)
Definition sampleStep (angleOffset dirX dirZ : R) (acc : R * R) (s : nat)
    : R * R :=
  let '(prevH, penalty) := acc in
  let dist := INR s / INR SAMPLES * dynamicLookAhead in
  let px := Vector3.x pos + dirX * dist in
  let pz := Vector3.z pos + dirZ * dist in
  let penalty := obstaclePenalty angleOffset px pz penalty in
  let h := getBaseTerrainHeight px pz in
  let slope := (h - prevH) / (dynamicLookAhead / INR SAMPLES) in
  let prevH := h in
  if gtb (Math_abs slope) 0.65
  then (prevH, penalty + Math_abs slope * 1000.0)
  else (prevH, penalty).

Definition rayPenalty (i : nat) : R :=
  let angleOffset := angleOffset i in
  let rayYaw := yaw a + angleOffset in
  let dirX := - sin rayYaw in
  let dirZ := - cos rayYaw in
  snd (fold_left (sampleStep angleOffset dirX dirZ) (seq 1 SAMPLES)
                 (Vector3.y pos, 0)).

(** The total cost of candidate [i], as it stands when it is compared with
    [bestCost]. *)
Definition rayCost (i : nat) : R :=
  let angleOffset := angleOffset i in
  let cost := 0 in
  let cost := cost + Math_abs (angleOffset - desiredHeading d)
                     * headingWeight d in
  let cost := cost + Math_abs (angleOffset - steerAngle a) * 0.5 in
  let cost := cost + Math_abs angleOffset * 0.2 in
  cost + rayPenalty i.

Record SearchState := mkSearch {
  bestCost : option R;
  bestSteerOffset : R;
  allBlocked : bool
}.

(** One turn of [for (let i = 0; i < RAY_COUNT; i++)]. *)
Definition rayStep (s : SearchState) (i : nat) : SearchState :=
  let cost := rayCost i in
  let penalty := rayPenalty i in
  let blocked := if ltb penalty 100 then false else allBlocked s in
  if lt_inf cost (bestCost s)
  then mkSearch (Some cost) (angleOffset i) blocked
  else mkSearch (bestCost s) (bestSteerOffset s) blocked.

Definition steeringSearch : SearchState :=
  fold_left rayStep (seq 0 RAY_COUNT) (mkSearch None 0 true).

End Search.

(** *** Stuck detection and recovery (lines 1045-1075) *)

(** What follows the search in the throttled block: from the outcome of the
    search, the new target speed and steer and the timers. *)
Definition steeringUpdate (f : Frame) (s : SearchState) (d : Decision)
    (a : AgentState) : Decision * AgentState :=
  let velocity := speed a in
  let isMoving := gtb (Math_abs velocity) 0.1 in
  let wantsToMove := gtb (Math_abs (targetSpeed d)) 0.1 in
  let a :=
    if wantsToMove && (allBlocked s
                       || (negb isMoving && leb (recoveryTimer a) 0))
    then set_stuckTimer (stuckTimer a + delta f * 3) a
    else set_stuckTimer (Math_max 0 (stuckTimer a - delta f * 3)) a in
  let a :=
    if gtb (stuckTimer a) 1.0 && leb (recoveryTimer a) 0 then
      let a := set_recoveryTimer 2.0 a in
      set_steerAngle (if gtb (recoverySide f) 0.5 then -1.0 else 1.0) a
    else a in
  let '(d, a) :=
    if gtb (recoveryTimer a) 0 then
      let a := set_recoveryTimer (recoveryTimer a - delta f * 3) a in
      let d := mkDecision (steerAngle a) (desiredHeading d) (headingWeight d)
                          (-2.0) (stopping d) (performRaycastAvoidance d) in
      (d, set_stuckTimer 0 a)
    else
      (mkDecision (clamp (bestSteerOffset s) (-0.8) 0.8) (desiredHeading d)
                  (headingWeight d) (targetSpeed d) (stopping d)
                  (performRaycastAvoidance d), a) in
  let d :=
    if negb (stopping d) && leb (recoveryTimer a) 0 then
      let turnBrake := Math_max 0.3 (1.0 - Math_abs (targetSteer d) * 1.0) in
      let targetSpeed := targetSpeed d * turnBrake in
      let targetSpeed :=
        if inf_gt (bestCost s) 2000 then targetSpeed * 0.3
        else if inf_gt (bestCost s) 500 then targetSpeed * 0.6
        else targetSpeed in
      mkDecision (targetSteer d) (desiredHeading d) (headingWeight d)
                 targetSpeed (stopping d) (performRaycastAvoidance d)
    else d in
  (d, a).

(** The throttled block as a whole (line 970): it runs on every third
    frame of a mode that asks for it. *)
Definition raycastSteering (f : Frame) (frameCount : nat) (pos : Vector3.t)
    (nearby : list Obstacle) (d : Decision) (a : AgentState)
    : Decision * AgentState :=
  if performRaycastAvoidance d && Nat.eqb (frameCount mod 3) 0 then
    steeringUpdate f (steeringSearch a pos nearby d) d a
  else (d, a).

(** *** Steer, speed and yaw (lines 1078-1088) *)

Definition integrateDrive (f : Frame) (input : Keys) (d : Decision)
    (a : AgentState) : AgentState :=
  let a := set_steerAngle
             (lerp (steerAngle a) (targetSteer d) (delta f * 10.0)) a in
  let a :=
    if stopping d then
      set_speed (lerp (speed a) 0 (delta f * 2.0)) a
    else
      set_speed (lerp (speed a) (targetSpeed d)
                      (delta f * (if key_w input || key_s input
                                  then 3.0 else 2.0))) a in
  if gtb (Math_abs (steerAngle a)) 0.01
  then set_yaw (yaw a + steerAngle a * speed a * delta f * 0.6) a
  else a.

(** *** Scan timer and wheel spin (lines 1090-1101 and 1148) *)

Definition updateScan (f : Frame) (a : AgentState) : AgentState :=
  if negb (stormActive f) && phase_eqb (meteorPhase f) IDLE then
    let a := set_scanTimer (scanTimer a + delta f) a in
    if gtb (scanTimer a) 5.0 then
      let a := set_isScanning true a in
      if gtb (scanTimer a) 7.0
      then set_isScanning false (set_scanTimer 0 a)
      else a
    else a
  else set_isScanning false a.

Definition updateWheelRot (f : Frame) (a : AgentState) : AgentState :=
  set_wheelRot (wheelRot a - speed a * delta f / 0.18) a.

(** *** Position and collision (lines 1150-1201) *)

Definition roverRadius : R := 0.8.

Record Collision := mkCollision {
  nextX : R;
  nextZ : R;
  hitSomething : bool;
  underCover : bool
}.

(** One turn of [for (const obs of nearbyObstacles)]. *)
Definition collideStep (c : Collision) (obs : Obstacle) : Collision :=
  let dx := nextX c - x obs in
  let dz := nextZ c - z obs in
  let distSq := dx * dx + dz * dz in
  let underCover :=
    if gtb (scale obs) 8.0 then
      let coverRadiusSq := (scale obs * 1.1) * (scale obs * 1.1) in
      if ltb distSq coverRadiusSq then true else underCover c
    else underCover c in
  if ltb (scale obs) RUNNABLE_ROCK_SCALE
  then mkCollision (nextX c) (nextZ c) (hitSomething c) underCover
  else
    let minDist := scale obs * 0.85 + roverRadius in
    if ltb distSq (minDist * minDist) then
      let dist := Math_sqrt distSq in
      if gtb dist 0.001 then
        let nx := dx / dist in
        let nz := dz / dist in
        mkCollision (x obs + nx * minDist) (z obs + nz * minDist) true
                    underCover
      else mkCollision (nextX c) (nextZ c) (hitSomething c) underCover
    else mkCollision (nextX c) (nextZ c) (hitSomething c) underCover.

(** The collision-resolution pass on the proposed position. *)
Definition resolveCollisions (nearby : list Obstacle) (nextX nextZ : R)
    : Collision :=
  fold_left collideStep nearby (mkCollision nextX nextZ false false).

Definition moveRover (f : Frame) (nearby : list Obstacle) (pos : Vector3.t)
    (a : AgentState) : Vector3.t * AgentState :=
  let stepX := Vector3.x pos - sin (yaw a) * speed a * delta f in
  let stepZ := Vector3.z pos - cos (yaw a) * speed a * delta f in
  let stepX := stepX + Vector3.x (knockbackVel a) * delta f in
  let stepZ := stepZ + Vector3.z (knockbackVel a) * delta f in
  let c := resolveCollisions nearby stepX stepZ in
  let a := set_isUnderCover (underCover c) a in
  let a := if hitSomething c then set_speed (speed a * 0.95) a else a in
  (Vector3.mk (nextX c) (Vector3.y pos) (nextZ c), a).

(** *** The frame *)

(** The frame of a mounted rover: the source leaves at once while the
    group, or a wheel group in the wheel loop, is not mounted yet. *)

(** What the first half of a frame settles: the panel override, the cache
    and the chunk it was built for, the decision (target speed and steer
    among it) and the agent as the decision left it. *)
Record Navigation := mkNavigation {
  nav_override : option bool;
  nav_last : Z * Z;
  nav_cache : list Obstacle;
  nav_decision : Decision;
  nav_agent : AgentState
}.

(** The agent once dust, shake and panels are updated (lines 702-795). *)
Definition prepare (f : Frame) (st : Rover) : option bool * AgentState :=
  updateRetraction f (autoPilotRef st) (userPanelOverride st)
    (updateShake f (updateDust f (agentState st))).

(** Lines 702-1076: up to the target speed and steer of the frame. *)
Definition navigate (f : Frame) (st : Rover) : Navigation :=
  let frameCount := (frameCount st + 1)%nat in
  let '(override, a) := prepare f st in
  let '(last, cache) :=
    refreshCache (roverPos st) (lastChunkPos st) (obstaclesCache st) in
  let nearbyObstacles := cache in
  let '(d, a) :=
    decideMode f (keysPressed st) (autoPilotRef st) (roverPos st)
               nearbyObstacles a in
  let '(d, a) :=
    raycastSteering f frameCount (roverPos st) nearbyObstacles d a in
  mkNavigation override last cache d a.

(** Lines 1078-1148: the drive follows the decision. *)
Definition drive (f : Frame) (st : Rover) (n : Navigation) : AgentState :=
  let a := integrateDrive f (keysPressed st) (nav_decision n) (nav_agent n) in
  let a := updateScan f a in
  updateWheelRot f a.

Definition useFrame (f : Frame) (st : Rover) : Rover :=
  let dt := Math_min (delta f) 0.05 in
  let frameCount := (frameCount st + 1)%nat in
  let n := navigate f st in
  let cache := nav_cache n in
  let a := drive f st n in
  let '(pos, a) := moveRover f cache (roverPos st) a in
  let h := getSurfaceHeight cache (Vector3.x pos) (Vector3.z pos) in
  let targetY := h + 0.55 in
  let pos := Vector3.mk (Vector3.x pos) (lerp (Vector3.y pos) targetY 0.2)
                        (Vector3.z pos) in
  let '(ys, vs) :=
    suspensionUpdate cache (body f) dt (wheelY st) (wheelVelocities a) in
  let a := set_wheelVelocities vs a in
  mkRover pos a (damageCount st) (keysPressed st) (autoPilotRef st)
          (nav_override n) frameCount (nav_last n) cache ys.

(** The frames of a run, oldest first. *)
Definition runFrames (fs : list Frame) (st : Rover) : Rover :=
  fold_left (fun st f => useFrame f st) fs st.

(** ** Keyboard ([Rover.tsx], lines 339-374) *)

Definition set_keys (k : Keys) (st : Rover) : Rover :=
  mkRover (roverPos st) (agentState st) (damageCount st) k (autoPilotRef st)
          (userPanelOverride st) (frameCount st) (lastChunkPos st)
          (obstaclesCache st) (wheelY st).

(** [key] is [e.key.toLowerCase()].  The view toggle ('o') touches the
    camera only. *)
Definition handleKeyDown (key : string) (st : Rover) : Rover :=
  let k := keysPressed st in
  let k := if String.eqb key "w"
           then mkKeys true (key_a k) (key_s k) (key_d k) else k in
  let k := if String.eqb key "a"
           then mkKeys (key_w k) true (key_s k) (key_d k) else k in
  let k := if String.eqb key "s"
           then mkKeys (key_w k) (key_a k) true (key_d k) else k in
  let k := if String.eqb key "d"
           then mkKeys (key_w k) (key_a k) (key_s k) true else k in
  let st := set_keys k st in
  let st :=
    if String.eqb key "q" then
      mkRover (roverPos st) (agentState st) (damageCount st) (keysPressed st)
              (negb (autoPilotRef st)) None (frameCount st) (lastChunkPos st)
              (obstaclesCache st) (wheelY st)
    else st in
  if String.eqb key "p" && negb (autoPilotRef st) then
    let currentState :=
      match userPanelOverride st with Some true => true | _ => false end in
    mkRover (roverPos st) (agentState st) (damageCount st) (keysPressed st)
            (autoPilotRef st) (Some (negb currentState)) (frameCount st)
            (lastChunkPos st) (obstaclesCache st) (wheelY st)
  else st.

Definition handleKeyUp (key : string) (st : Rover) : Rover :=
  let k := keysPressed st in
  let k := if String.eqb key "w"
           then mkKeys false (key_a k) (key_s k) (key_d k) else k in
  let k := if String.eqb key "a"
           then mkKeys (key_w k) false (key_s k) (key_d k) else k in
  let k := if String.eqb key "s"
           then mkKeys (key_w k) (key_a k) false (key_d k) else k in
  let k := if String.eqb key "d"
           then mkKeys (key_w k) (key_a k) (key_s k) false else k in
  set_keys k st.

(** *** Sand exposure (lines 783-787) and the overlay it feeds
    ([App], [handleSandExposure]) *)

(** The amount the frame reports through [onSandExposure], if any; the
    test reads the retraction the frame started with. *)
Definition sandExposure (f : Frame) (a : AgentState) : option R :=
  if stormActive f && ltb (retractionT a) 0.5
  then Some (delta f * 0.3) else None.

Module App.

(** The two pieces of React state the callback updates. *)
Record Sand := mkSand { sandSeverity : R; permanentDust : R }.

Definition handleSandExposure (amount : R) (s : Sand) : Sand :=
  mkSand (Math_min 1.0 (sandSeverity s + amount))
         (Math_min 0.98 (permanentDust s + amount * 0.03)).

End App.

(** A frame of the rover together with the overlay state of the app. *)
Definition exposeFrame (ss : Rover * App.Sand) (f : Frame)
    : Rover * App.Sand :=
  let '(st, sand) := ss in
  let a := updateShake f (updateDust f (agentState st)) in
  (useFrame f st,
   match sandExposure f a with
   | Some amount => App.handleSandExposure amount sand
   | None => sand
   end).

Definition exposeFrames (fs : list Frame) (ss : Rover * App.Sand)
    : Rover * App.Sand :=
  fold_left exposeFrame fs ss.

(** ** What reaches the component *)

(** A frame of the render loop, a hit through the imperative handle, and
    the two keyboard listeners. *)
Inductive Event :=
| Tick (f : Frame)
| Hit (impactVelocity : Vector3.t) (rnd : R * R * R)
| KeyDown (key : string)
| KeyUp (key : string).

Definition handle (st : Rover) (e : Event) : Rover :=
  match e with
  | Tick f => useFrame f st
  | Hit v rnd => hit v rnd st
  | KeyDown key => handleKeyDown key st
  | KeyUp key => handleKeyUp key st
  end.

(** The events of a session, oldest first. *)
Definition run (es : list Event) (st : Rover) : Rover :=
  fold_left handle es st.

(** * Vocabulary of the properties *)

(** ** Generator *)

Definition layerObstacles (cx cz : Z) (layer : RockLayer) : list Obstacle :=
  map (makeObstacle cx cz layer) (seq 0 (count layer)).

Definition triple (o : Obstacle) : R * R * R := (x o, z o, scale o).

Definition placedTriple (p : ScatteredRocks.Placement) : R * R * R :=
  (ScatteredRocks.worldX p, ScatteredRocks.worldZ p, ScatteredRocks.rockScale p).

(** ** Suspension travel *)

Definition withinTravel (pos : R * R * R) (y : R) : Prop :=
  neutralY pos - maxTravel <= y <= neutralY pos + maxTravel.

(** Lines 1257-1274: the height and the velocity the integrator reaches,
    before the travel is enforced. *)
Definition springIntegrate (pos : R * R * R) (dt : R) (desiredLocalY : R)
    (currentY velocity : R) : R * R :=
  let targetLocalY := desiredLocalY + 0.18 in
  let neutralY := neutralY pos in
  let finalTargetY := targetLocalY in
  let clampedTargetY :=
    clamp finalTargetY (neutralY - maxTravel) (neutralY + maxTravel) in
  let displacement := currentY - clampedTargetY in
  let acceleration := - stiffness * displacement - damping * velocity in
  let newVelocity := velocity + acceleration * dt in
  let newY := currentY + newVelocity * dt in
  (newY, newVelocity).

(** Lines 1248-1255: the local height the ground asks of wheel [i]
    ([desiredLocalPoint.y]). *)
Definition groundLocalY (cache : list Obstacle) (body : BodyTransform)
    (i : nat) : R :=
  let '(hx, hz) := nth i (hardpoints body) (0, 0) in
  let terrainH := getSurfaceHeight cache hx hz in
  toLocalY body hx terrainH hz.

(** ** Collision resolution *)

Definition minDist (obs : Obstacle) : R := scale obs * 0.85 + roverRadius.

(** An obstacle the rover cannot drive over. *)
Definition solid (obs : Obstacle) : bool :=
  negb (ltb (scale obs) RUNNABLE_ROCK_SCALE).

Definition solids (l : list Obstacle) : list Obstacle := filter solid l.

(** The position held by [c] is not strictly inside the radius of [obs]. *)
Definition clearOf (c : Collision) (obs : Obstacle) : Prop :=
  minDist obs <= horizontalDistance (nextX c) (nextZ c) obs.

(** The test of the collision pass for cover: a rock of scale over 8
    whose cover radius [1.1 * scale] holds the point. *)
Definition givesCover (px pz : R) (obs : Obstacle) : bool :=
  gtb (scale obs) 8.0 &&
  ltb ((px - x obs) * (px - x obs) + (pz - z obs) * (pz - z obs))
      ((scale obs * 1.1) * (scale obs * 1.1)).

(** The exclusion discs of two obstacles do not overlap. *)
Definition apart (o1 o2 : Obstacle) : Prop :=
  minDist o1 + minDist o2 <= dist_euc (x o1) (z o1) (x o2) (z o2).

(** The exclusion disc of [o1] lies in that of [o2], and its circle keeps
    farther than 0.001 from the centre of [o2]. *)
Definition discWithin (o1 o2 : Obstacle) : Prop :=
  let d := dist_euc (x o1) (z o1) (x o2) (z o2) in
  d + minDist o1 <= minDist o2 /\ 0.001 < Rabs (minDist o1 - d).

(** The exclusion circles of two obstacles do not cross: the discs do not
    overlap, or one lies in the other. *)
Definition uncrossed (o1 o2 : Obstacle) : Prop :=
  apart o1 o2 \/ discWithin o1 o2 \/ discWithin o2 o1.

(** The point is strictly inside the exclusion disc of [obs]. *)
Definition discHolds (px pz : R) (obs : Obstacle) : Prop :=
  horizontalDistance px pz obs < minDist obs.

(** The position held by [c] is not inside the radius of [obs] by more than
    [eps]. *)
Definition clearUpTo (eps : R) (c : Collision) (obs : Obstacle) : Prop :=
  scale obs * 0.85 + roverRadius - eps
    <= horizontalDistance (nextX c) (nextZ c) obs.

(** What the pass leaves of an obstacle it did not push the rover out of:
    the rover within 0.001 of its centre, or clear of it. *)
Definition spared (eps : R) (c : Collision) (obs : Obstacle) : Prop :=
  horizontalDistance (nextX c) (nextZ c) obs <= 0.001 \/ clearUpTo eps c obs.

(** Through the pass on [nearby] from the proposed [(px, pz)]: the rover is
    clear of the solid obstacles already tested, and it is where it was
    proposed or on the circle of a solid obstacle whose disc held the
    proposed position. *)
Definition passInv (nearby : list Obstacle) (px pz : R)
    (tested : list Obstacle) (c : Collision) : Prop :=
  Forall (clearOf c) (solids tested) /\
  ((nextX c = px /\ nextZ c = pz) \/
   exists ob, In ob (solids nearby) /\ discHolds px pz ob /\
              horizontalDistance (nextX c) (nextZ c) ob = minDist ob).

(** ** Cover *)

(** The squared distance the cover search compares, and the cover target
    it makes of an obstacle. *)
Definition coverDistSq (pos : Vector3.t) (obs : Obstacle) : R :=
  (x obs - Vector3.x pos) * (x obs - Vector3.x pos)
  + (z obs - Vector3.z pos) * (z obs - Vector3.z pos).

Definition coverOf (obs : Obstacle) : CoverTarget.t :=
  CoverTarget.mk (x obs) (z obs) (Some (id obs)) (scale obs * 1.5 + 1.5).

(** What the cover search holds after the obstacles [l]: nothing while no
    obstacle of scale 8 or more was met, else the first nearest of them. *)
Definition holdsNearest (pos : Vector3.t) (l : list Obstacle)
    (acc : option R * option CoverTarget.t) : Prop :=
  match acc with
  | (None, None) => Forall (fun o => scale o < 8) l
  | (Some d, Some t) =>
      exists before obs after,
        l = before ++ obs :: after /\ 8 <= scale obs /\
        d = coverDistSq pos obs /\ t = coverOf obs /\
        Forall (fun o => scale o < 8 \/ d < coverDistSq pos o) before /\
        Forall (fun o => scale o < 8 \/ d <= coverDistSq pos o) after
  | _ => False
  end.

(** The distance from the rover to a cover target. *)
Definition coverDistance (pos : Vector3.t) (t : CoverTarget.t) : R :=
  sqrt ((CoverTarget.x t - Vector3.x pos) * (CoverTarget.x t - Vector3.x pos)
        + (CoverTarget.z t - Vector3.z pos) * (CoverTarget.z t - Vector3.z pos)).

(** ** The driving state through a frame *)

(** The timers and the panel state: what only the first half of a frame
    writes. *)
Definition timers (a : AgentState) : R * R * R :=
  (stuckTimer a, recoveryTimer a, retractionT a).

(** Speed, steer and timers together. *)
Definition motion (a : AgentState) : R * R * (R * R * R) :=
  (speed a, steerAngle a, timers a).

(** Steer, timers and panels, which the mode decision only reads. *)
Definition held (a : AgentState) : R * R * R * R :=
  (stuckTimer a, recoveryTimer a, steerAngle a, retractionT a).

Definition shouldRetract (f : Frame) (st : Rover) : bool :=
  if autoPilotRef st
  then stormActive f || phase_eqb (meteorPhase f) IMPACT
  else match userPanelOverride st with Some b => b | None => false end.

(** The obstacles a frame works with. *)
Definition frameCache (st : Rover) : list Obstacle :=
  snd (refreshCache (roverPos st) (lastChunkPos st) (obstaclesCache st)).

(** The decision of a frame before the throttled block. *)
Definition frameMode (f : Frame) (st : Rover) : Decision * AgentState :=
  decideMode f (keysPressed st) (autoPilotRef st) (roverPos st)
             (frameCache st) (snd (prepare f st)).

(** A held movement key drives the rover: the panels are out. *)
Definition manualDrive (f : Frame) (st : Rover) : bool :=
  isManualInput (keysPressed st)
  && negb (isSystemsOffline (snd (prepare f st))).



(** ** Sessions *)

(** Time does not run backwards in any frame of the session. *)
Definition forwardTicks (es : list Event) : Prop :=
  Forall (fun e => match e with Tick f => 0 <= delta f | _ => True end) es.

(** Every frame of the session lasts at most [dmax]. *)
Definition shortTicks (dmax : R) (es : list Event) : Prop :=
  Forall (fun e => match e with Tick f => 0 <= delta f <= dmax | _ => True end)
         es.

(** Panels, dust and damage within their scales. *)
Definition levelsOK (st : Rover) : Prop :=
  0 <= retractionT (agentState st) <= 1 /\
  0 <= dustLevel (agentState st) <= 1 /\
  (damageCount st <= 20)%nat.

(** The head scans only during the last two seconds of its seven-second
    cycle. *)
Definition scanOK (st : Rover) : Prop :=
  0 <= scanTimer (agentState st) <= 7 /\
  (isScanning (agentState st) = true -> 5 < scanTimer (agentState st)).

(** The rover between the lowest and the highest the ground can carry it,
    over a cache of rocks of non-negative scale. *)
Definition groundOK (st : Rover) : Prop :=
  -8.05 <= Vector3.y (roverPos st) <= 9.1 /\
  Forall (fun o => 0 <= scale o) (obstaclesCache st).

(** The cache holds the chunks around the chunk it was built for. *)
Definition cacheOK (st : Rover) : Prop :=
  obstaclesCache st
  = loadChunks (fst (lastChunkPos st)) (snd (lastChunkPos st)).

(** The stuck timer within its threshold and the recovery timer within
    the length of an episode. *)
Definition timersOK (st : Rover) : Prop :=
  0 <= stuckTimer (agentState st) <= 1 /\
  recoveryTimer (agentState st) <= 2.

(** Speed and steer within the limits of the drive. *)
Definition driveOK (st : Rover) : Prop :=
  -5 <= speed (agentState st) <= 10 /\
  -1 <= steerAngle (agentState st) <= 1.

(** ** Runs of frames *)

(** The time a run of frames takes. *)
Definition elapsed (fs : list Frame) : R :=
  fold_right (fun f t => delta f + t) 0 fs.

(** A run of storm frames, none of which lets a held key drive; every
    frame lasts at least [dmin] and at most a third of a second. *)
Fixpoint stormRun (dmin : R) (fs : list Frame) (st : Rover) : Prop :=
  match fs with
  | [] => True
  | f :: fs' =>
      stormActive f = true /\ manualDrive f st = false /\
      dmin <= delta f <= 1 / 3 /\
      stormRun dmin fs' (useFrame f st)
  end.

(** The target speeds of the frames of a run, oldest first. *)
Fixpoint commandedSpeeds (fs : list Frame) (st : Rover) : list R :=
  match fs with
  | [] => []
  | f :: fs' =>
      targetSpeed (nav_decision (navigate f st))
      :: commandedSpeeds fs' (useFrame f st)
  end.



(** ** Scenarios *)

(** Two massive rocks of chunk (0, 0) whose discs overlap, and the rover
    proposed between them. *)
Definition rockA : Obstacle := mkObstacle "0:0:1" 30 0 11.5 10.
Definition rockB : Obstacle := mkObstacle "0:0:2" 40 0 11.5 10.
Definition rockFar : Obstacle := mkObstacle "1:0:1" 60 0 11.5 10.

(** The first two obstacles of chunk (0, 0), the gigantic rock and the
    first massive one, and a point at distance 1 of the former. *)
Definition chunkHeads : list Obstacle := firstn 2 (getObstaclesInChunk 0 0).

Definition besideHead : R * R :=
  match chunkHeads with
  | g :: _ => (x g + 1, z g)
  | [] => (0, 0)
  end.

(** A rover whose front left spring moves down at 100 a second, and a
    frame of a hundredth of a second. *)
Definition plungingRover : Rover :=
  set_agent (set_wheelVelocities [-100; 0; 0; 0; 0; 0] initialAgent)
            initialRover.

Definition shortFrame : Frame :=
  mkFrame 0.01 false IDLE (0.5, 0.5, 0.5, 0.5, 0.5) 0
          (mkBody [] (0, 1, 0, 0)).

(** A storm frame of a tenth of a second. *)
Definition stormFrame : Frame :=
  mkFrame 0.1 true IDLE (0.5, 0.5, 0.5, 0.5, 0.5) 0
          (mkBody [] (0, 1, 0, 0)).

(** The rover at rest with the 'w' key held: autopilot off, panels out. *)
Definition heldW : Rover := handleKeyDown "w" initialRover.

Definition drivingInStorm (st : Rover) : Prop :=
  keysPressed st = mkKeys true false false false /\
  autoPilotRef st = false /\ userPanelOverride st = None /\
  retractionT (agentState st) = 0 /\ 1.4 <= speed (agentState st).

(** A gigantic rock, and the rover on its centre with the autopilot on,
    the stuck timer just under its threshold and a steering frame next. *)
Definition bigRock : Obstacle := mkObstacle "0:0:0" 30 0 33.5 32.


(** A calm frame of a fiftieth of a second. *)
Definition calmFrame : Frame :=
  mkFrame 0.02 false IDLE (0.5, 0.5, 0.5, 0.5, 0.5) 0.3
          (mkBody [] (0, 1, 0, 0)).

(** A session: a calm frame, a hit, the autopilot switched on, a storm
    frame. *)
Definition sampleSession : list Event :=
  [ Tick calmFrame; Hit (Vector3.mk 3 4 0) (0.5, 0.5, 0.5); KeyDown "q";
    Tick stormFrame; KeyUp "q" ].

(** A frame of the warning phase, and the rover next to the gigantic rock
    it chose for cover. *)
Definition incomingFrame : Frame :=
  mkFrame 0.02 false INCOMING (0.5, 0.5, 0.5, 0.5, 0.5) 0.3
          (mkBody [] (0, 1, 0, 0)).

Definition coveredRover : Rover :=
  set_agent (set_currentCoverTarget (Some (coverOf bigRock)) initialAgent)
            initialRover.

(** The 'w' key held while the panels are folded. *)
Definition foldedRover : Rover :=
  handleKeyDown "w" (set_agent (set_retractionT 1 initialAgent) initialRover).


(** * Properties of the model *)

(** ** Comparisons, maxima and clamps *)

Lemma ltb_true (a b : R) : ltb a b = true <-> a < b.
Proof. unfold ltb; destruct (Rlt_dec a b); split; intros; try easy. Qed.

Lemma ltb_false (a b : R) : ltb a b = false <-> b <= a.
Proof.
  unfold ltb; destruct (Rlt_dec a b); split; intros; try easy; lra.
Qed.

Lemma leb_true (a b : R) : leb a b = true <-> a <= b.
Proof. unfold leb; destruct (Rle_dec a b); split; intros; try easy. Qed.

Lemma leb_false (a b : R) : leb a b = false <-> b < a.
Proof.
  unfold leb; destruct (Rle_dec a b); split; intros; try easy; lra.
Qed.

Lemma gtb_true (a b : R) : gtb a b = true <-> b < a.
Proof. apply ltb_true. Qed.

Lemma gtb_false (a b : R) : gtb a b = false <-> a <= b.
Proof. apply ltb_false. Qed.

Lemma geb_true (a b : R) : geb a b = true <-> b <= a.
Proof. apply leb_true. Qed.

Lemma geb_false (a b : R) : geb a b = false <-> a < b.
Proof. apply leb_false. Qed.

(** Settles every comparison of the goal whose outcome follows from the
    hypotheses by linear arithmetic. *)
Ltac settle_cmp :=
  repeat match goal with
  | |- context [ltb ?a ?b] =>
      first [ replace (ltb a b) with true by (symmetry; apply ltb_true; lra)
            | replace (ltb a b) with false by (symmetry; apply ltb_false; lra) ]
  | |- context [leb ?a ?b] =>
      first [ replace (leb a b) with true by (symmetry; apply leb_true; lra)
            | replace (leb a b) with false by (symmetry; apply leb_false; lra) ]
  end.

(** Succeeds when [t] holds no comparison. *)
Ltac no_cmp t :=
  lazymatch t with
  | context [ltb _ _] => fail
  | context [leb _ _] => fail
  | _ => idtac
  end.

(** Case split on an innermost comparison of the goal; the outcome is
    recorded as an inequality and replaces the comparison everywhere. *)
Ltac split_cmp :=
  match goal with
  | |- context [ltb ?a ?b] =>
      no_cmp a; no_cmp b;
      let H := fresh "Hc" in
      destruct (Rlt_dec a b) as [H | H];
      [ rewrite (proj2 (ltb_true a b) H) in *
      | apply Rnot_lt_le in H; rewrite (proj2 (ltb_false a b) H) in * ]
  | |- context [leb ?a ?b] =>
      no_cmp a; no_cmp b;
      let H := fresh "Hc" in
      destruct (Rle_dec a b) as [H | H];
      [ rewrite (proj2 (leb_true a b) H) in *
      | apply Rnot_le_lt in H; rewrite (proj2 (leb_false a b) H) in * ]
  end.


Lemma Math_max_r (a b : R) : b <= Math_max a b.
Proof. unfold Math_max; split_cmp; lra. Qed.


Lemma Math_max_Rmax (a b : R) : Math_max a b = Rmax a b.
Proof.
  unfold Math_max, Rmax; split_cmp; destruct (Rle_dec a b); lra.
Qed.

Lemma Math_min_l (a b : R) : Math_min a b <= a.
Proof. unfold Math_min; split_cmp; lra. Qed.

Lemma Math_min_r (a b : R) : Math_min a b <= b.
Proof. unfold Math_min; split_cmp; lra. Qed.

Lemma clamp_bounds (v lo hi : R) : lo <= hi -> lo <= clamp v lo hi <= hi.
Proof.
  intros Hlh; unfold clamp, Math_max, Math_min.
  repeat split_cmp; lra.
Qed.

Lemma clamp_id (v lo hi : R) : lo <= v <= hi -> clamp v lo hi = v.
Proof.
  intros Hv; unfold clamp, Math_max, Math_min.
  repeat split_cmp; lra.
Qed.

Lemma floor_frac_bounds (v : R) : 0 <= v - Math_floor v < 1.
Proof.
  unfold Math_floor; destruct (base_Int_part v); lra.
Qed.

Lemma Math_floor_IZR (n : Z) : Math_floor (IZR n) = IZR n.
Proof.
  unfold Math_floor; f_equal; symmetry; apply Int_part_spec; lra.
Qed.

(** ** The generator as a list comprehension *)

Ltac abs_cases :=
  unfold Math_abs, Rabs in *;
  repeat match goal with
  | |- context [Rcase_abs ?v] => destruct (Rcase_abs v)
  | H : context [Rcase_abs ?v] |- _ => destruct (Rcase_abs v)
  end.

Lemma pseudoRandom_range (cx cz : Z) (idx : nat) :
  0 <= pseudoRandom cx cz idx < 1.
Proof. unfold pseudoRandom; apply floor_frac_bounds. Qed.

Lemma layerLoop_seq (cx cz : Z) (layer : RockLayer) :
  forall fuel i obstacles,
    (count layer - i <= fuel)%nat ->
    layerLoop cx cz fuel layer i obstacles =
    obstacles ++ map (makeObstacle cx cz layer) (seq i (count layer - i)).
Proof.
  induction fuel as [| fuel IH]; intros i obstacles Hfuel; simpl.
  - replace (count layer - i)%nat with 0%nat by lia.
    simpl; now rewrite app_nil_r.
  - destruct (Nat.ltb_spec i (count layer)) as [Hlt | Hge].
    + rewrite IH by lia.
      replace (count layer - i)%nat with (S (count layer - S i)) by lia.
      simpl; now rewrite <- app_assoc.
    + replace (count layer - i)%nat with 0%nat by lia.
      simpl; now rewrite app_nil_r.
Qed.

(** The loop leaves by its own test: fuel beyond [count] changes nothing. *)
Lemma layerLoop_fuel (cx cz : Z) (layer : RockLayer) (fuel : nat)
    (obstacles : list Obstacle) :
  (count layer <= fuel)%nat ->
  layerLoop cx cz fuel layer 0 obstacles =
  layerLoop cx cz (count layer) layer 0 obstacles.
Proof.
  intros Hfuel; rewrite !layerLoop_seq by lia; reflexivity.
Qed.

Lemma getObstaclesInChunk_layers (cx cz : Z) :
  getObstaclesInChunk cx cz = flat_map (layerObstacles cx cz) ROCK_LAYERS.
Proof.
  unfold getObstaclesInChunk, layerObstacles, ROCK_LAYERS.
  cbn [fold_left flat_map].
  rewrite !layerLoop_seq by lia.
  rewrite !Nat.sub_0_r, app_nil_r; cbn [app]; now rewrite <- app_assoc.
Qed.

Lemma In_getObstaclesInChunk (cx cz : Z) (o : Obstacle) :
  In o (getObstaclesInChunk cx cz) <->
  exists layer i,
    In layer ROCK_LAYERS /\ (i < count layer)%nat /\
    o = makeObstacle cx cz layer i.
Proof.
  rewrite getObstaclesInChunk_layers, in_flat_map; unfold layerObstacles.
  split.
  - intros (layer & Hl & Ho); apply in_map_iff in Ho.
    destruct Ho as (i & Hi & Hs); apply in_seq in Hs.
    exists layer, i; repeat split; auto; lia.
  - intros (layer & i & Hl & Hi & ->); exists layer; split; auto.
    apply in_map; apply in_seq; lia.
Qed.

Lemma makeObstacle_scale (cx cz : Z) (layer : RockLayer) (i : nat) :
  minScale layer <= maxScale layer ->
  minScale layer <= scale (makeObstacle cx cz layer i) <= maxScale layer.
Proof.
  intros Hmm; cbn [makeObstacle scale].
  pose proof (pseudoRandom_range cx cz (i * 3 + 2)) as Hr; nra.
Qed.

Lemma generated_scale (cx cz : Z) (o : Obstacle) :
  In o (getObstaclesInChunk cx cz) -> 1.5 <= scale o <= 32.
Proof.
  intros Ho; apply In_getObstaclesInChunk in Ho.
  destruct Ho as (layer & i & Hl & _ & ->).
  unfold ROCK_LAYERS in Hl; cbn [In] in Hl.
  destruct Hl as [<- | [<- | [<- | []]]];
    (match goal with
     | |- context [makeObstacle _ _ ?l _] =>
         pose proof (makeObstacle_scale cx cz l i) as Hs
     end; cbn [minScale maxScale] in Hs; lra).
Qed.

(** The path clearance, for one turn of the loop of the generator. *)
Lemma makeObstacle_clearance (cx cz : Z) (layer : RockLayer) (i : nat) :
  let o := makeObstacle cx cz layer i in
  let r1 := pseudoRandom cx cz (i * 3 + 0) in
  8.0 < scale o ->
  25.0 <= Rabs (x o) /\
  z o = baseZ cx cz i /\
  ((25.0 <= Rabs (baseX cx cz i) /\ x o = baseX cx cz i) \/
   (Rabs (baseX cx cz i) < 25.0 /\
    Rabs (x o) = 25.0 + r1 * 10 /\ Rabs (x o) < 35.0 /\
    ((0 <= baseX cx cz i /\ 0 < x o) \/ (baseX cx cz i < 0 /\ x o < 0)))).
Proof.
  intros o r1 Hs; subst o; cbn [makeObstacle scale x z] in *.
  fold (baseX cx cz i) (baseZ cx cz i) r1.
  pose proof (pseudoRandom_range cx cz (i * 3 + 0)) as Hr; fold r1 in Hr.
  unfold gtb, geb, SAFE_ZONE.
  rewrite (proj2 (ltb_true _ _) Hs).
  repeat split_cmp; abs_cases; repeat split; try lra;
    solve [ left; split; lra
          | right; repeat split; try lra; solve [left; lra | right; lra] ].
Qed.

(** The same clearance in the placement loop of the visuals. *)
Lemma place_clearance (props : ScatteredRocks.Props) (i : nat) :
  let p := ScatteredRocks.place props i in
  8.0 < ScatteredRocks.rockScale p ->
  25.0 <= Rabs (ScatteredRocks.worldX p).
Proof.
  intros p Hs; subst p; unfold ScatteredRocks.place in *.
  pose proof (floor_frac_bounds
    (sin (ScatteredRocks.seedBase props + INR (i * 3 + 0)) * 43758.5453)) as Hr.
  unfold gtb, geb, SAFE_ZONE in *; fold (ScatteredRocks.pseudoRandom props (i*3+0)) in *.
  unfold ScatteredRocks.pseudoRandom in *.
  repeat split_cmp; cbn [ScatteredRocks.rockScale ScatteredRocks.worldX] in *;
    abs_cases; lra.
Qed.

Lemma placeLoop_seq (props : ScatteredRocks.Props) :
  forall fuel i instances,
    (ScatteredRocks.p_count props - i <= fuel)%nat ->
    ScatteredRocks.placeLoop props fuel i instances =
    instances ++ map (ScatteredRocks.place props)
                     (seq i (ScatteredRocks.p_count props - i)).
Proof.
  induction fuel as [| fuel IH]; intros i instances Hfuel; simpl.
  - replace (ScatteredRocks.p_count props - i)%nat with 0%nat by lia.
    simpl; now rewrite app_nil_r.
  - destruct (Nat.ltb_spec i (ScatteredRocks.p_count props)) as [Hlt | Hge].
    + rewrite IH by lia.
      replace (ScatteredRocks.p_count props - i)%nat
        with (S (ScatteredRocks.p_count props - S i)) by lia.
      simpl; now rewrite <- app_assoc.
    + replace (ScatteredRocks.p_count props - i)%nat with 0%nat by lia.
      simpl; now rewrite app_nil_r.
Qed.

Lemma placements_seq (props : ScatteredRocks.Props) :
  ScatteredRocks.placements props =
  map (ScatteredRocks.place props) (seq 0 (ScatteredRocks.p_count props)).
Proof.
  unfold ScatteredRocks.placements; rewrite placeLoop_seq by lia.
  now rewrite Nat.sub_0_r.
Qed.

(** One rock: the generator of the rover and the placement loop of the
    visuals compute the same position and scale. *)
Lemma place_makeObstacle (cx cz : Z) (layer : RockLayer) (i : nat) :
  placedTriple (ScatteredRocks.place (ScatteredRocks.tierProps cx cz layer) i) =
  triple (makeObstacle cx cz layer i).
Proof.
  unfold placedTriple, triple, ScatteredRocks.place, makeObstacle,
    ScatteredRocks.pseudoRandom, pseudoRandom, ScatteredRocks.seedBase,
    seedBase, offsetX, offsetZ, ScatteredRocks.tierProps.
  cbn [ScatteredRocks.p_count ScatteredRocks.p_minScale
       ScatteredRocks.p_maxScale ScatteredRocks.p_chunkSize
       ScatteredRocks.p_offsetX ScatteredRocks.p_offsetZ].
  unfold gtb, geb.
  repeat split_cmp; reflexivity.
Qed.

(** One rock is drawn where its world position says. *)
Lemma place_rendered (props : ScatteredRocks.Props) (i : nat) :
  let p := ScatteredRocks.place props i in
  ScatteredRocks.renderedXZ props p =
  (ScatteredRocks.worldX p, ScatteredRocks.worldZ p).
Proof.
  unfold ScatteredRocks.renderedXZ, ScatteredRocks.place, gtb, geb.
  repeat split_cmp;
    cbn [ScatteredRocks.localPos ScatteredRocks.worldX ScatteredRocks.worldZ];
    f_equal; lra.
Qed.

(** *** Corridor, agreement of the consumers, tier heads *)



(** C7. The obstacle list of a chunk is a function of its coordinates alone
    (ids, positions, radii and scales are given by the indices of the three
    tiers, each scale within the range of its tier), and the rover and the
    visuals agree: tier by tier, the triples
    [(worldX, worldZ, scale)] of the placement loop are the triples
    [(x, z, scale)] of the generator, path clearance included, and each
    rock is drawn at that world position. *)
Theorem generator_agrees_with_visuals (cx cz : Z) :
  getObstaclesInChunk cx cz =
    flat_map (fun layer => map (makeObstacle cx cz layer) (seq 0 (count layer)))
             ROCK_LAYERS /\
  List.length (getObstaclesInChunk cx cz) = 29%nat /\
  map (fun o : Obstacle => id o) (getObstaclesInChunk cx cz) =
    flat_map (fun layer => map (obstacleId cx cz) (seq 0 (count layer)))
             ROCK_LAYERS /\
  map radius (getObstaclesInChunk cx cz) =
    map (fun o => scale o + 1.5) (getObstaclesInChunk cx cz) /\
  Forall (fun layer =>
            Forall (fun o => minScale layer <= scale o <= maxScale layer)
                   (layerObstacles cx cz layer))
         ROCK_LAYERS /\
  map triple (getObstaclesInChunk cx cz) =
    flat_map (fun layer =>
                map placedTriple
                    (ScatteredRocks.placements
                       (ScatteredRocks.tierProps cx cz layer)))
             ROCK_LAYERS /\
  Forall (fun layer =>
            let props := ScatteredRocks.tierProps cx cz layer in
            Forall (fun p => ScatteredRocks.renderedXZ props p =
                             (ScatteredRocks.worldX p, ScatteredRocks.worldZ p))
                   (ScatteredRocks.placements props))
         ROCK_LAYERS.
Proof.
  assert (Hlist := getObstaclesInChunk_layers cx cz).
  unfold layerObstacles in Hlist.
  split; [exact Hlist |].
  split; [rewrite Hlist; reflexivity |].
  split.
  { rewrite Hlist, flat_map_concat_map, concat_map, map_map,
      <- flat_map_concat_map.
    apply flat_map_ext; intros layer; rewrite map_map; reflexivity. }
  split.
  { apply map_ext_in; intros o Ho; apply In_getObstaclesInChunk in Ho.
    destruct Ho as (layer & i & _ & _ & ->); reflexivity. }
  split.
  { apply Forall_forall; intros layer Hl.
    apply Forall_forall; intros o Ho; unfold layerObstacles in Ho.
    apply in_map_iff in Ho; destruct Ho as (i & <- & _).
    apply makeObstacle_scale.
    unfold ROCK_LAYERS in Hl; cbn [In] in Hl.
    destruct Hl as [<- | [<- | [<- | []]]]; cbn [minScale maxScale]; lra. }
  split.
  { rewrite Hlist, flat_map_concat_map, concat_map, map_map,
      <- flat_map_concat_map.
    apply flat_map_ext; intros layer.
    rewrite placements_seq, !map_map; cbn [ScatteredRocks.tierProps
      ScatteredRocks.p_count].
    apply map_ext; intros i; symmetry; apply place_makeObstacle. }
  apply Forall_forall; intros layer _; cbv zeta.
  rewrite placements_seq; apply Forall_forall; intros p Hp.
  apply in_map_iff in Hp; destruct Hp as (i & <- & _).
  apply place_rendered.
Qed.

(** C10. The pseudo-random index restarts at 0 in each tier: in every chunk
    the gigantic obstacle and the first massive one have the same centre
    (both displaced alike by the path clearance) and the same id, and the
    first large one sits at the position drawn for index 0, not displaced. *)
Theorem tier_heads_coincide (cx cz : Z) :
  exists g m l : Obstacle,
    nth_error (getObstaclesInChunk cx cz) 0 = Some g /\
    nth_error (getObstaclesInChunk cx cz) 1 = Some m /\
    nth_error (getObstaclesInChunk cx cz) 4 = Some l /\
    22 <= scale g <= 32 /\ 9 <= scale m <= 15 /\ 1.5 <= scale l <= 3.5 /\
    x g = x m /\ z g = z m /\
    25.0 <= Rabs (x g) /\
    x l = baseX cx cz 0 /\ z l = baseZ cx cz 0 /\ z g = z l /\
    id g = id m /\ id m = id l.
Proof.
  exists (makeObstacle cx cz (mkLayer 1 22 32) 0),
         (makeObstacle cx cz (mkLayer 3 9 15) 0),
         (makeObstacle cx cz (mkLayer 25 1.5 3.5) 0).
  rewrite getObstaclesInChunk_layers.
  pose proof (makeObstacle_scale cx cz (mkLayer 1 22 32) 0) as Hg.
  pose proof (makeObstacle_scale cx cz (mkLayer 3 9 15) 0) as Hm.
  pose proof (makeObstacle_scale cx cz (mkLayer 25 1.5 3.5) 0) as Hl.
  cbn [minScale maxScale] in Hg, Hm, Hl.
  specialize (Hg ltac:(lra)); specialize (Hm ltac:(lra));
    specialize (Hl ltac:(lra)).
  assert (Hcg := makeObstacle_clearance cx cz (mkLayer 1 22 32) 0).
  cbv zeta in Hcg; specialize (Hcg ltac:(lra)).
  repeat (split; [first [reflexivity | lra | tauto] |]).
  assert (Hxy : forall la lb,
            8.0 < scale (makeObstacle cx cz la 0) ->
            8.0 < scale (makeObstacle cx cz lb 0) ->
            x (makeObstacle cx cz la 0) = x (makeObstacle cx cz lb 0)).
  { intros la lb Ha Hb; cbn [makeObstacle scale x] in *.
    unfold gtb; rewrite (proj2 (ltb_true _ _) Ha), (proj2 (ltb_true _ _) Hb).
    reflexivity. }
  split; [apply Hxy; lra |].
  split; [reflexivity |].
  split; [tauto |].
  split.
  { cbn [makeObstacle scale x] in *; unfold gtb.
    rewrite (proj2 (ltb_false _ _) (ltac:(lra) :
      minScale (mkLayer 25 1.5 3.5) +
        pseudoRandom cx cz (0 * 3 + 2) *
        (maxScale (mkLayer 25 1.5 3.5) - minScale (mkLayer 25 1.5 3.5)) <= 8.0)).
    reflexivity. }
  repeat split; reflexivity.
Qed.

(** ** Surface height *)

Lemma sum_sq_nonneg (a b : R) : 0 <= a * a + b * b.
Proof.
  pose proof (Rle_0_sqr a) as Ha; pose proof (Rle_0_sqr b) as Hb.
  unfold Rsqr in *; lra.
Qed.

Lemma sqrt_lt_sq (d r : R) : 0 <= d -> 0 <= r -> (sqrt d < r <-> d < r * r).
Proof.
  intros Hd Hr; split; intros H.
  - pose proof (sqrt_sqrt d Hd) as Hs; pose proof (sqrt_pos d) as Hp; nra.
  - rewrite <- (sqrt_square r Hr); apply sqrt_lt_1_alt; lra.
Qed.

Lemma horizontalDistance_sq (wx wz : R) (obs : Obstacle) :
  horizontalDistance wx wz obs * horizontalDistance wx wz obs =
  (wx - x obs) * (wx - x obs) + (wz - z obs) * (wz - z obs).
Proof. unfold horizontalDistance; apply sqrt_sqrt, sum_sq_nonneg. Qed.

Lemma fold_right_Rmax_acc (l : list R) (h a : R) :
  fold_right Rmax (Rmax h a) l = Rmax a (fold_right Rmax h l).
Proof.
  induction l as [| b l IH]; simpl.
  - apply Rmax_comm.
  - rewrite IH, !Rmax_assoc, (Rmax_comm a b); reflexivity.
Qed.

Lemma fold_right_Rmax_ge (l : list R) (h : R) : h <= fold_right Rmax h l.
Proof.
  induction l as [| b l IH]; simpl; [lra |].
  eapply Rle_trans; [exact IH | apply Rmax_r].
Qed.

(** One turn of the loop, read through the specification's words. *)
Lemma surfaceStep_spec (wx wz h : R) (obs : Obstacle) :
  0 <= scale obs ->
  surfaceStep wx wz h obs =
  if drivableOver wx wz obs then Rmax h (hemisphereHeight wx wz obs) else h.
Proof.
  intros Hs; unfold surfaceStep, drivableOver, geb, gtb, RUNNABLE_ROCK_SCALE.
  destruct (Rle_dec 2.5 (scale obs)) as [Hbig | Hsmall].
  - rewrite (proj2 (leb_true _ _) Hbig).
    rewrite (proj2 (ltb_false _ _) Hbig); reflexivity.
  - apply Rnot_le_lt in Hsmall.
    rewrite (proj2 (leb_false _ _) Hsmall), (proj2 (ltb_true _ _) Hsmall).
    cbn [andb].
    set (distSq := (wx - x obs) * (wx - x obs) + (wz - z obs) * (wz - z obs)).
    assert (Hd : 0 <= distSq) by apply sum_sq_nonneg.
    assert (Hiff := sqrt_lt_sq distSq (0.9 * scale obs) Hd ltac:(lra)).
    fold (horizontalDistance wx wz obs) in Hiff.
    destruct (Rlt_dec distSq (scale obs * 0.9 * (scale obs * 0.9)))
      as [Hin | Hout].
    + rewrite (proj2 (ltb_true _ _) Hin).
      assert (Hin' : horizontalDistance wx wz obs < 0.9 * scale obs)
        by (apply Hiff; lra).
      rewrite (proj2 (ltb_true _ _) Hin').
      unfold hemisphereHeight; rewrite horizontalDistance_sq; fold distSq.
      unfold Math_sqrt, Math_max.
      rewrite (proj2 (ltb_true 0
                 (scale obs * 0.9 * (scale obs * 0.9) - distSq))) by lra.
      replace (0.9 * scale obs * (0.9 * scale obs) - distSq)
        with (scale obs * 0.9 * (scale obs * 0.9) - distSq) by lra.
      replace (getBaseTerrainHeight (x obs) (z obs) - 0.4 * scale obs)
        with (getBaseTerrainHeight (x obs) (z obs) - scale obs * 0.4) by lra.
      unfold Rmax; split_cmp; destruct (Rle_dec h _); lra.
    + apply Rnot_lt_le in Hout; rewrite (proj2 (ltb_false _ _) Hout).
      assert (Hout' : 0.9 * scale obs <= horizontalDistance wx wz obs).
      { apply Rnot_lt_le; intros Hlt; apply Hiff in Hlt; lra. }
      rewrite (proj2 (ltb_false _ _) Hout'); reflexivity.
Qed.

Lemma getSurfaceHeight_fold (wx wz : R) (cache : list Obstacle) :
  Forall (fun obs => 0 <= scale obs) cache ->
  forall h,
    fold_left (surfaceStep wx wz) cache h =
    fold_right Rmax h
      (map (hemisphereHeight wx wz) (filter (drivableOver wx wz) cache)).
Proof.
  induction 1 as [| obs cache Hs _ IH]; intros h; [reflexivity |].
  cbn [fold_left filter]; rewrite IH, surfaceStep_spec by exact Hs.
  destruct (drivableOver wx wz obs); [| reflexivity].
  cbn [map fold_right]; apply fold_right_Rmax_acc.
Qed.

(** C9. Over a cache of obstacles of non-negative scale (every generated
    obstacle has scale at least 1.5), the surface height is the maximum of
    the base height and of the hemisphere heights of the drivable rocks
    whose footprint holds the point; so it is never under the base height. *)
Theorem getSurfaceHeight_is_max (cache : list Obstacle) (wx wz : R) :
  Forall (fun obs => 0 <= scale obs) cache ->
  getSurfaceHeight cache wx wz = surfaceHeightSpec cache wx wz /\
  getBaseTerrainHeight wx wz <= getSurfaceHeight cache wx wz.
Proof.
  intros Hcache; unfold getSurfaceHeight, surfaceHeightSpec.
  rewrite (getSurfaceHeight_fold wx wz cache Hcache).
  split; [reflexivity | apply fold_right_Rmax_ge].
Qed.

Lemma getSurfaceHeight_is_max_witness :
  let cache := [mkObstacle "0:0:0" 1 0 3.5 2] in
  Forall (fun obs => 0 <= scale obs) cache /\
  getSurfaceHeight cache 0 0 = surfaceHeightSpec cache 0 0 /\
  getBaseTerrainHeight 0 0 <= getSurfaceHeight cache 0 0.
Proof.
  intros cache.
  assert (Hc : Forall (fun obs => 0 <= scale obs) cache).
  { repeat constructor; cbn [scale]; lra. }
  split; [exact Hc | exact (getSurfaceHeight_is_max cache 0 0 Hc)].
Defined.

(** ** The hit notification *)

(** C8. A hit taken under cover with the panels more than 0.8 retracted is
    absorbed: knockback velocity and damage count stay as they were and the
    shake offset grows by 0.2.  Any other hit copies the horizontal
    components of the impact velocity into the knockback velocity, with a
    zero vertical component, and raises the damage count by one, up to 20.
    Position and driving state are untouched either way. *)
Theorem hit_effect (impactVelocity : Vector3.t) (rnd : R * R * R) (st : Rover) :
  let a := agentState st in
  let st' := hit impactVelocity rnd st in
  let a' := agentState st' in
  roverPos st' = roverPos st /\ sameDrive a' a /\
  if isUnderCover a && gtb (retractionT a) 0.8 then
    knockbackVel a' = knockbackVel a /\
    damageCount st' = damageCount st /\
    shakePos a' = Vector3.addScalar (shakePos a) 0.2 /\
    shakeRot a' = shakeRot a
  else
    knockbackVel a' =
      Vector3.mk (Vector3.x impactVelocity) 0 (Vector3.z impactVelocity) /\
    damageCount st' = Nat.min (damageCount st + 1) 20 /\
    (damageCount st' <= 20)%nat /\
    shakePos a' = Vector3.addScalar (shakePos a) 0.5.
Proof.
  unfold hit, sameDrive; destruct rnd as [[r1 r2] r3].
  destruct (isUnderCover (agentState st) && gtb (retractionT (agentState st)) 0.8);
    cbn; repeat split; try reflexivity; lia.
Qed.

Lemma hit_increments (impactVelocity : Vector3.t) (rnd : R * R * R)
    (st : Rover) :
  isUnderCover (agentState st) && gtb (retractionT (agentState st)) 0.8
    = false ->
  (damageCount st < 20)%nat ->
  damageCount (hit impactVelocity rnd st) = S (damageCount st).
Proof.
  intros Hsafe Hlt; unfold hit; rewrite Hsafe; destruct rnd as [[r1 r2] r3].
  cbn; lia.
Qed.

(** ** One wheel of the suspension *)

Lemma suspensionStep_cases (pos : R * R * R) (dt desiredLocalY currentY
    velocity : R) :
  let target :=
    clamp (desiredLocalY + 0.18) (neutralY pos - maxTravel)
          (neutralY pos + maxTravel) in
  let v1 := velocity + (- stiffness * (currentY - target)
                        - damping * velocity) * dt in
  let y1 := currentY + v1 * dt in
  let r := suspensionStep pos dt desiredLocalY currentY velocity in
  withinTravel pos (fst r) /\
  ((withinTravel pos y1 /\ r = (y1, v1)) \/
   (y1 < neutralY pos - maxTravel /\ r = (neutralY pos - maxTravel, 0)) \/
   (neutralY pos + maxTravel < y1 /\ r = (neutralY pos + maxTravel, 0))).
Proof.
  cbv zeta; unfold suspensionStep, withinTravel, gtb, maxTravel.
  repeat split_cmp; cbn [fst]; split; try lra.
  - right; left; split; [lra | reflexivity].
  - right; right; split; [lra | reflexivity].
  - left; split; [lra | reflexivity].
Qed.

Lemma suspensionUpdate_length (cache : list Obstacle) (body : BodyTransform)
    (dt : R) (ys vs : list R) :
  List.length (fst (suspensionUpdate cache body dt ys vs)) = 6%nat /\
  List.length (snd (suspensionUpdate cache body dt ys vs)) = 6%nat.
Proof. split; reflexivity. Qed.

(** ** The steering search selects a cheapest candidate *)

Section SearchFacts.

Variable a : AgentState.
Variable pos : Vector3.t.
Variable nearby : list Obstacle.
Variable d : Decision.

Let cost := rayCost a pos nearby d.
Let step := rayStep a pos nearby d.

(** [s] holds the first cheapest candidate of the non-empty list [l]. *)
Definition holdsBest (l : list nat) (s : SearchState) : Prop :=
  exists i before after,
    l = before ++ i :: after /\
    Forall (fun j => cost i < cost j) before /\
    Forall (fun j => cost i <= cost j) after /\
    bestCost s = Some (cost i) /\
    bestSteerOffset s = angleOffset i.

Lemma rayStep_first (s : SearchState) (i : nat) :
  bestCost s = None -> holdsBest [i] (step s i).
Proof.
  intros Hnone; exists i, [], []; unfold step, rayStep; rewrite Hnone.
  cbn; repeat split; constructor.
Qed.

Lemma rayStep_next (l : list nat) (s : SearchState) (j : nat) :
  holdsBest l s -> holdsBest (l ++ [j]) (step s j).
Proof.
  intros (i & before & after & Hl & Hb & Ha & Hc & Ho).
  unfold step, rayStep; rewrite Hc; cbn [lt_inf]; fold cost.
  destruct (Rlt_dec (cost j) (cost i)) as [Hlt | Hge].
  - rewrite (proj2 (ltb_true _ _) Hlt).
    exists j, l, []; cbn; rewrite Hl; repeat split; try constructor.
    apply Forall_app; split.
    + eapply Forall_impl; [| exact Hb]; cbn; intros; lra.
    + constructor; [exact Hlt |].
      eapply Forall_impl; [| exact Ha]; cbn; intros; lra.
  - apply Rnot_lt_le in Hge; rewrite (proj2 (ltb_false _ _) Hge).
    exists i, before, (after ++ [j]); cbn; repeat split; auto.
    + rewrite Hl, <- app_assoc; reflexivity.
    + apply Forall_app; split; [exact Ha | constructor; [exact Hge | constructor]].
Qed.

Lemma search_holdsBest (l : list nat) (i : nat) :
  holdsBest (i :: l)
    (fold_left step (i :: l) (mkSearch None 0 true)).
Proof.
  induction l as [| j l IH] using rev_ind.
  - cbn [fold_left]; apply rayStep_first; reflexivity.
  - rewrite app_comm_cons, fold_left_app; cbn [fold_left].
    apply rayStep_next, IH.
Qed.

(** The flag [allBlocked] is what is left of [true] once every candidate
    with a penalty under 100 has cleared it. *)
Lemma search_allBlocked (l : list nat) (s : SearchState) :
  allBlocked (fold_left step l s) =
  allBlocked s &&
  forallb (fun i => negb (ltb (rayPenalty a pos nearby i) 100)) l.
Proof.
  revert s; induction l as [| i l IH]; intros s; cbn [fold_left forallb].
  - now rewrite andb_true_r.
  - rewrite IH; unfold step, rayStep.
    destruct (ltb (rayPenalty a pos nearby i) 100),
             (lt_inf (rayCost a pos nearby d i) (bestCost s));
      cbn; try reflexivity; now rewrite ?andb_false_r.
Qed.

End SearchFacts.

(** C4. The search ends holding a candidate [i] among the 35: its offset is
    [bestSteerOffset], its cost is [bestCost], no candidate is cheaper, and
    every candidate before it is dearer (ties go to the first). *)
Theorem steering_selects_cheapest (a : AgentState) (pos : Vector3.t)
    (nearby : list Obstacle) (d : Decision) :
  let s := steeringSearch a pos nearby d in
  let cost := rayCost a pos nearby d in
  exists i : nat,
    In i (seq 0 RAY_COUNT) /\
    bestSteerOffset s = angleOffset i /\
    bestCost s = Some (cost i) /\
    Forall (fun j => cost i <= cost j) (seq 0 RAY_COUNT) /\
    Forall (fun j => cost i < cost j) (seq 0 i).
Proof.
  cbv zeta; unfold steeringSearch.
  change (seq 0 RAY_COUNT) with (0%nat :: seq 1 34).
  destruct (search_holdsBest a pos nearby d (seq 1 34) 0)
    as (i & before & after & Hl & Hb & Ha & Hc & Ho).
  change (0%nat :: seq 1 34) with (seq 0 35) in *.
  assert (Hi : In i (seq 0 35)) by (rewrite Hl; apply in_elt).
  assert (Hbefore : before = seq 0 i).
  { apply in_seq in Hi.
    replace 35%nat with (i + (35 - i))%nat in Hl by lia.
    rewrite seq_app in Hl; cbn [Nat.add] in Hl.
    assert (Hlen : List.length before = i).
    { assert (Hnth : nth (List.length before) (seq 0 i ++ seq i (35 - i)) 0%nat
                     = i).
      { rewrite Hl, app_nth2, Nat.sub_diag by lia; reflexivity. }
      destruct (Nat.lt_ge_cases (List.length before) i) as [Hlt | Hge].
      - rewrite app_nth1, seq_nth in Hnth by (rewrite ?length_seq; lia); lia.
      - assert (Hlen35 : List.length (seq 0 i ++ seq i (35 - i)) = 35%nat)
          by (rewrite length_app, !length_seq; lia).
        rewrite Hl, length_app in Hlen35; cbn [List.length] in Hlen35.
        rewrite app_nth2, length_seq, seq_nth in Hnth
          by (rewrite ?length_seq; lia).
        lia. }
    apply (f_equal (firstn i)) in Hl.
    rewrite firstn_app, length_seq, Nat.sub_diag, firstn_O, app_nil_r in Hl.
    rewrite firstn_all2 in Hl by (rewrite length_seq; lia).
    rewrite firstn_app, Hlen, Nat.sub_diag, firstn_O, app_nil_r in Hl.
    rewrite firstn_all2 in Hl by lia.
    now symmetry. }
  exists i; repeat split; auto.
  - rewrite Hl; apply Forall_app; split.
    + eapply Forall_impl; [| exact Hb]; cbn; intros; lra.
    + constructor; [lra | exact Ha].
  - rewrite <- Hbefore; exact Hb.
Qed.

(** ** Collision resolution *)

Lemma horizontalDistance_euc (px pz : R) (obs : Obstacle) :
  horizontalDistance px pz obs = dist_euc px pz (x obs) (z obs).
Proof. reflexivity. Qed.

Lemma solid_scale (obs : Obstacle) :
  solid obs = true <-> RUNNABLE_ROCK_SCALE <= scale obs.
Proof.
  unfold solid; rewrite negb_true_iff; apply ltb_false.
Qed.

Lemma solid_minDist (obs : Obstacle) : solid obs = true -> 2.9 < minDist obs.
Proof.
  intros Hs; apply solid_scale in Hs.
  unfold minDist, roverRadius, RUNNABLE_ROCK_SCALE in *; lra.
Qed.

(** A step never moves the rover for an obstacle it can drive over. *)
Lemma collideStep_runnable (c : Collision) (obs : Obstacle) :
  solid obs = false ->
  nextX (collideStep c obs) = nextX c /\ nextZ (collideStep c obs) = nextZ c.
Proof.
  unfold solid; rewrite negb_false_iff; intros Hr.
  unfold collideStep; rewrite Hr; split; reflexivity.
Qed.

(** A step leaves the position alone, and then the obstacle can be driven
    over, the rover is clear of it or within 0.001 of its centre; or it puts
    the rover on the circle of radius [minDist] around a solid obstacle. *)
Lemma collideStep_moves (c : Collision) (obs : Obstacle) :
  (nextX (collideStep c obs) = nextX c /\
   nextZ (collideStep c obs) = nextZ c /\
   hitSomething (collideStep c obs) = hitSomething c /\
   (solid obs = false \/ clearOf c obs \/
    horizontalDistance (nextX c) (nextZ c) obs <= 0.001)) \/
  (solid obs = true /\
   0.001 < horizontalDistance (nextX c) (nextZ c) obs < minDist obs /\
   hitSomething (collideStep c obs) = true /\
   horizontalDistance (nextX (collideStep c obs)) (nextZ (collideStep c obs))
                      obs = minDist obs).
Proof.
  destruct (solid obs) eqn:Hsolid.
  2: { left; destruct (collideStep_runnable c obs Hsolid) as [Hx Hz].
       repeat split; auto.
       unfold collideStep, solid in *; rewrite negb_false_iff in Hsolid.
       rewrite Hsolid; reflexivity. }
  pose proof (solid_minDist obs Hsolid) as Hm.
  unfold solid in Hsolid; rewrite negb_true_iff in Hsolid.
  unfold collideStep, clearOf; rewrite Hsolid; fold (minDist obs).
  set (dx := nextX c - x obs); set (dz := nextZ c - z obs).
  set (distSq := dx * dx + dz * dz).
  assert (Hd : 0 <= distSq) by apply sum_sq_nonneg.
  assert (Hdist : horizontalDistance (nextX c) (nextZ c) obs = sqrt distSq)
    by reflexivity.
  rewrite Hdist.
  destruct (Rlt_dec distSq (minDist obs * minDist obs)) as [Hin | Hout].
  2: { apply Rnot_lt_le in Hout; rewrite (proj2 (ltb_false _ _) Hout).
       left; repeat split; try reflexivity; right; left.
       apply Rnot_lt_le; intros Hlt; apply sqrt_lt_sq in Hlt; lra. }
  rewrite (proj2 (ltb_true _ _) Hin); unfold gtb, Math_sqrt.
  destruct (Rlt_dec 0.001 (sqrt distSq)) as [Hfar | Hnear].
  2: { apply Rnot_lt_le in Hnear; rewrite (proj2 (ltb_false _ _) Hnear).
       left; repeat split; try reflexivity; right; right; exact Hnear. }
  rewrite (proj2 (ltb_true _ _) Hfar); right.
  cbn [nextX nextZ hitSomething].
  split; [reflexivity |]; split; [| split; [reflexivity |]].
  - split; [exact Hfar |].
    apply sqrt_lt_sq; lra.
  - unfold horizontalDistance.
    set (dist := sqrt distSq) in *.
    assert (Hsq : dist * dist = distSq) by (apply sqrt_sqrt; exact Hd).
    assert (Hpos : 0 < distSq) by (rewrite <- Hsq; nra).
    replace ((x obs + dx / dist * minDist obs - x obs)
             * (x obs + dx / dist * minDist obs - x obs)
             + (z obs + dz / dist * minDist obs - z obs)
               * (z obs + dz / dist * minDist obs - z obs))
      with (minDist obs * minDist obs).
    + apply sqrt_square; lra.
    + transitivity (distSq / (dist * dist) * (minDist obs * minDist obs)).
      * rewrite Hsq; field; lra.
      * unfold distSq; field; lra.
Qed.

(** On the circle around [o2], the rover is clear of every obstacle whose
    disc does not overlap that of [o2]. *)
Lemma circle_clear (c : Collision) (o o2 : Obstacle) :
  horizontalDistance (nextX c) (nextZ c) o2 = minDist o2 ->
  apart o o2 ->
  clearOf c o.
Proof.
  unfold clearOf, apart; rewrite !horizontalDistance_euc; intros Hon Hap.
  pose proof (triangle (x o) (z o) (x o2) (z o2) (nextX c) (nextZ c)) as Ht.
  rewrite (distance_symm (x o) (z o) (nextX c) (nextZ c)) in Ht; lra.
Qed.

Lemma apart_sym (o1 o2 : Obstacle) : apart o1 o2 -> apart o2 o1.
Proof.
  unfold apart; rewrite (distance_symm (x o2)); lra.
Qed.

Lemma clearOf_position (c c' : Collision) (obs : Obstacle) :
  nextX c' = nextX c -> nextZ c' = nextZ c -> clearOf c obs -> clearOf c' obs.
Proof. unfold clearOf; intros -> ->; exact (fun H => H). Qed.

Lemma solids_app (l1 l2 : list Obstacle) :
  solids (l1 ++ l2) = solids l1 ++ solids l2.
Proof. apply filter_app. Qed.

Lemma solids_one (obs : Obstacle) :
  solids [obs] = if solid obs then [obs] else [].
Proof. reflexivity. Qed.

Lemma Forall_solids (P : Obstacle -> Prop) (l : list Obstacle) :
  Forall P l -> Forall P (solids l).
Proof.
  intros H; apply Forall_forall; intros o Ho.
  apply filter_In in Ho; rewrite Forall_forall in H; apply H; tauto.
Qed.

(** On the circle around [o2], the rover is clear of every obstacle whose
    disc lies in that of [o2]. *)
Lemma circle_clear_inner (c : Collision) (o o2 : Obstacle) :
  horizontalDistance (nextX c) (nextZ c) o2 = minDist o2 ->
  discWithin o o2 ->
  clearOf c o.
Proof.
  unfold clearOf, discWithin; rewrite !horizontalDistance_euc.
  intros Hon [Hin _].
  pose proof (triangle (nextX c) (nextZ c) (x o2) (z o2) (x o) (z o)) as Ht.
  lra.
Qed.

(** Strictly inside the disc of [o], the rover is strictly inside every
    disc that of [o] lies in. *)
Lemma inside_outer (px pz : R) (o o2 : Obstacle) :
  discHolds px pz o -> discWithin o o2 -> discHolds px pz o2.
Proof.
  unfold discHolds, discWithin; rewrite !horizontalDistance_euc.
  intros Hin [Hw _].
  pose proof (triangle px pz (x o2) (z o2) (x o) (z o)) as Ht.
  lra.
Qed.

(** On the circle around [o], the rover is farther than 0.001 from the
    centre of a disc that of [o] lies in. *)
Lemma circle_off_centre (c : Collision) (o o2 : Obstacle) :
  horizontalDistance (nextX c) (nextZ c) o = minDist o ->
  discWithin o o2 ->
  0.001 < horizontalDistance (nextX c) (nextZ c) o2.
Proof.
  unfold discWithin; rewrite !horizontalDistance_euc.
  intros Hon [_ Hm].
  pose proof (triangle (nextX c) (nextZ c) (x o) (z o) (x o2) (z o2)) as Ht1.
  pose proof (triangle (x o) (z o) (x o2) (z o2) (nextX c) (nextZ c)) as Ht2.
  rewrite (distance_symm (x o) (z o) (nextX c) (nextZ c)) in Ht2.
  rewrite (distance_symm (x o2) (z o2) (x o) (z o)) in Ht1.
  unfold Rabs in Hm; destruct (Rcase_abs _) in Hm; lra.
Qed.

(** The pass under the two conditions: away from every centre, and the
    discs that hold the proposed position uncrossed. *)
Section Pass.

Variables (nearby : list Obstacle) (px pz : R).

Hypothesis off_centre :
  Forall (fun obs => 0.001 < horizontalDistance px pz obs) (solids nearby).

Hypothesis free :
  Forall (fun obs => discHolds px pz obs ->
                     Forall (uncrossed obs) (solids nearby))
         (solids nearby).

Lemma passInv_step (tested : list Obstacle) (c : Collision) (obs : Obstacle) :
  incl tested nearby -> In obs nearby -> passInv nearby px pz tested c ->
  passInv nearby px pz (tested ++ [obs]) (collideStep c obs).
Proof.
  intros Hincl Hin [Hclear Hwhere].
  rewrite Forall_forall in off_centre, free.
  unfold passInv; rewrite solids_app, solids_one.
  destruct (collideStep_moves c obs)
    as [(Hx & Hz & _ & Hwhy) | (Hs & Hd & _ & Hon)].
  - (* the position is kept *)
    split.
    + apply Forall_app; split.
      * eapply Forall_impl; [| exact Hclear].
        intros o; apply clearOf_position; assumption.
      * destruct (solid obs) eqn:Hs; [| constructor].
        assert (Hso : In obs (solids nearby))
          by (apply filter_In; split; assumption).
        constructor; [| constructor].
        apply (clearOf_position c); [assumption | assumption |].
        destruct Hwhy as [Hno | [Hc | Hnear]];
          [discriminate | exact Hc | exfalso].
        destruct Hwhere as [[Hpx Hpz] | (ob & Hob & Hh & Hcirc)].
        -- specialize (off_centre obs Hso); rewrite Hpx, Hpz in Hnear; lra.
        -- pose proof (solid_minDist obs Hs) as Hm.
           pose proof (free ob Hob Hh) as Hfree.
           rewrite Forall_forall in Hfree.
           destruct (Hfree obs Hso) as [Hap | [Hw | Hw]].
           ++ pose proof (circle_clear c obs ob Hcirc (apart_sym _ _ Hap)) as Hc.
              unfold clearOf in Hc; lra.
           ++ pose proof (circle_off_centre c ob obs Hcirc Hw); lra.
           ++ pose proof (circle_clear_inner c obs ob Hcirc Hw) as Hc.
              unfold clearOf in Hc; lra.
    + rewrite Hx, Hz; exact Hwhere.
  - (* the rover is put on the circle around [obs] *)
    assert (Hso : In obs (solids nearby))
      by (apply filter_In; split; assumption).
    assert (Hh : discHolds px pz obs).
    { destruct Hwhere as [[Hpx Hpz] | (ob & Hob & Hh & Hcirc)].
      - unfold discHolds; rewrite <- Hpx, <- Hpz; lra.
      - pose proof (free ob Hob Hh) as Hfree.
        rewrite Forall_forall in Hfree.
        destruct (Hfree obs Hso) as [Hap | [Hw | Hw]].
        + pose proof (circle_clear c obs ob Hcirc (apart_sym _ _ Hap)) as Hc.
          unfold clearOf in Hc; lra.
        + apply (inside_outer px pz ob obs); assumption.
        + pose proof (circle_clear_inner c obs ob Hcirc Hw) as Hc.
          unfold clearOf in Hc; lra. }
    pose proof (free obs Hso Hh) as Hfree; rewrite Forall_forall in Hfree.
    rewrite Hs; split.
    + apply Forall_app; split.
      * apply Forall_forall; intros o Ho.
        rewrite Forall_forall in Hclear; specialize (Hclear o Ho).
        assert (Hos : In o (solids nearby)).
        { apply filter_In in Ho; destruct Ho as [Ho Hsol].
          apply filter_In; split; [| exact Hsol].
          apply Hincl, Ho. }
        destruct (Hfree o Hos) as [Hap | [Hw | Hw]].
        -- apply (circle_clear _ o obs Hon), apart_sym, Hap.
        -- exfalso.
           assert (Hin' : discHolds (nextX c) (nextZ c) obs)
             by (unfold discHolds; lra).
           pose proof (inside_outer _ _ obs o Hin' Hw) as Hin2.
           unfold discHolds in Hin2; unfold clearOf in Hclear; lra.
        -- apply (circle_clear_inner _ o obs Hon Hw).
      * constructor; [| constructor].
        unfold clearOf; rewrite Hon; lra.
    + right; exists obs; repeat split; assumption.
Qed.

Lemma passInv_run (rest tested : list Obstacle) (c : Collision) :
  nearby = tested ++ rest -> passInv nearby px pz tested c ->
  passInv nearby px pz nearby (fold_left collideStep rest c).
Proof.
  revert tested c; induction rest as [| obs rest IH]; intros tested c Hl Hinv.
  - rewrite app_nil_r in Hl; subst tested; exact Hinv.
  - cbn [fold_left]; apply (IH (tested ++ [obs])).
    + rewrite <- app_assoc; exact Hl.
    + apply passInv_step; [| | exact Hinv].
      * rewrite Hl; apply incl_appl, incl_refl.
      * rewrite Hl; apply in_elt.
Qed.

Lemma pass_clears :
  Forall (clearOf (resolveCollisions nearby px pz)) (solids nearby).
Proof.
  unfold resolveCollisions.
  apply (passInv_run nearby [] (mkCollision px pz false false) eq_refl).
  split; [constructor | left; split; reflexivity].
Qed.

End Pass.

(** What every pass leaves: no push and the proposed position, or the
    circle of the obstacle that pushed last; and of every solid obstacle
    tested after the last push the rover is clear, or within 0.001 of its
    centre. *)
Lemma resolve_last_push (l : list Obstacle) (c0 : Collision) :
  hitSomething c0 = false ->
  let c := fold_left collideStep l c0 in
  let left_alone obs :=
    horizontalDistance (nextX c) (nextZ c) obs <= 0.001 \/ clearOf c obs in
  (hitSomething c = false /\ nextX c = nextX c0 /\ nextZ c = nextZ c0 /\
   Forall left_alone (solids l)) \/
  (hitSomething c = true /\
   exists before obs after,
     l = before ++ obs :: after /\ solid obs = true /\
     horizontalDistance (nextX c) (nextZ c) obs = minDist obs /\
     Forall left_alone (solids after)).
Proof.
  intros H0; cbv zeta.
  induction l as [| obs l IH] using rev_ind.
  - left; cbn; repeat split; auto; constructor.
  - rewrite fold_left_app; cbn [fold_left].
    set (c := fold_left collideStep l c0) in *.
    destruct (collideStep_moves c obs)
      as [(Hx & Hz & Hh & Hwhy) | (Hs & _ & Hh & Hon)].
    + assert (Hobs : Forall
        (fun o => horizontalDistance (nextX c) (nextZ c) o <= 0.001 \/
                  clearOf c o) (solids [obs])).
      { rewrite solids_one; destruct (solid obs); [| constructor].
        constructor; [| constructor].
        destruct Hwhy as [Hno | [Hc | Hnear]];
          [discriminate | right; exact Hc | left; exact Hnear]. }
      unfold clearOf in *; rewrite Hx, Hz, Hh.
      destruct IH as [(Hhit & Hpx & Hpz & Hall)
                     | (Hhit & before & o & after & Hl & Hso & Hd & Hall)].
      * left; repeat split; auto.
        rewrite solids_app; apply Forall_app; split; assumption.
      * right; split; [exact Hhit |].
        exists before, o, (after ++ [obs]); repeat split; auto.
        -- rewrite Hl, <- app_assoc; reflexivity.
        -- rewrite solids_app; apply Forall_app; split; assumption.
    + right; split; [exact Hh |].
      exists l, obs, []; repeat split; auto; constructor.
Qed.

(** C1, as the code has it.  The pass is one sweep over the cache.
    It ends with no push on the proposed position, or on the circle (radius
    [scale * 0.85 + 0.8]) of the solid obstacle that pushed last; and every
    solid obstacle tested after the last push, all of them when nothing
    pushed, is at least [scale * 0.85 + 0.8 - eps] away unless the position
    is within 0.001 of its centre.  When moreover the proposed position is
    farther than 0.001 from the centre of every solid obstacle, and every
    solid obstacle whose exclusion disc holds it has, with every solid
    obstacle of the cache, discs that do not overlap or lie one in the
    other (the inner circle farther than 0.001 from the outer centre), then
    the position the pass ends on is at least [scale * 0.85 + 0.8 - eps]
    away from every solid obstacle.  This for every [eps] from 0 on. *)
Theorem resolved_position_clear (nearby : list Obstacle) (px pz eps : R) :
  0 <= eps ->
  let c := resolveCollisions nearby px pz in
  ((hitSomething c = false /\ nextX c = px /\ nextZ c = pz /\
    Forall (spared eps c) (solids nearby)) \/
   (hitSomething c = true /\
    exists before obs after,
      nearby = before ++ obs :: after /\
      RUNNABLE_ROCK_SCALE <= scale obs /\
      horizontalDistance (nextX c) (nextZ c) obs
        = scale obs * 0.85 + roverRadius /\
      Forall (spared eps c) (solids after))) /\
  (Forall (fun obs => 0.001 < horizontalDistance px pz obs) (solids nearby) ->
   Forall (fun obs => discHolds px pz obs ->
                      Forall (uncrossed obs) (solids nearby))
          (solids nearby) ->
   Forall (fun obs => RUNNABLE_ROCK_SCALE <= scale obs /\ clearUpTo eps c obs)
          (solids nearby)).
Proof.
  intros Heps c.
  assert (Hweak : forall l,
    Forall (fun obs => horizontalDistance (nextX c) (nextZ c) obs <= 0.001 \/
                       clearOf c obs) l ->
    Forall (spared eps c) l).
  { intros l Hl; eapply Forall_impl; [| exact Hl].
    intros o Ho; cbv beta in Ho; destruct Ho as [Hn | Hc];
      [left; exact Hn |].
    right; unfold clearUpTo, clearOf, minDist in *; lra. }
  split.
  - destruct (resolve_last_push nearby (mkCollision px pz false false) eq_refl)
      as [(Hh & Hx & Hz & Hall)
         | (Hh & before & obs & after & Hl & Hs & Hd & Hall)].
    + left; repeat split; auto.
    + right; split; [exact Hh |].
      exists before, obs, after; repeat split; auto.
      apply solid_scale; exact Hs.
  - intros Hoff Hfree.
    pose proof (pass_clears nearby px pz Hoff Hfree) as Hclear.
    apply Forall_forall; intros obs Hobs.
    rewrite Forall_forall in Hclear; specialize (Hclear obs Hobs).
    split.
    + apply solid_scale; apply filter_In in Hobs; tauto.
    + unfold clearUpTo, clearOf, minDist in *; fold c in Hclear; lra.
Qed.

Lemma sqrt_is (v r : R) : 0 <= r -> v = r * r -> sqrt v = r.
Proof. intros Hr ->; apply sqrt_square; exact Hr. Qed.

Lemma horizontalDistance_is (px pz r : R) (obs : Obstacle) :
  0 <= r ->
  (px - x obs) * (px - x obs) + (pz - z obs) * (pz - z obs) = r * r ->
  horizontalDistance px pz obs = r.
Proof. intros Hr Hsq; apply sqrt_is; assumption. Qed.

(** Where a step that pushes puts the rover. *)
Lemma collideStep_push (c : Collision) (obs : Obstacle) :
  let dist := horizontalDistance (nextX c) (nextZ c) obs in
  solid obs = true -> 0.001 < dist -> dist < minDist obs ->
  nextX (collideStep c obs) = x obs + (nextX c - x obs) / dist * minDist obs /\
  nextZ (collideStep c obs) = z obs + (nextZ c - z obs) / dist * minDist obs /\
  hitSomething (collideStep c obs) = true.
Proof.
  intros dist Hs Hfar Hin; subst dist.
  pose proof (solid_minDist obs Hs) as Hm.
  unfold solid in Hs; rewrite negb_true_iff in Hs.
  unfold collideStep; rewrite Hs; fold (minDist obs).
  assert (Hsq : (nextX c - x obs) * (nextX c - x obs)
                + (nextZ c - z obs) * (nextZ c - z obs)
                < minDist obs * minDist obs).
  { apply sqrt_lt_sq; [apply sum_sq_nonneg | lra | exact Hin]. }
  rewrite (proj2 (ltb_true _ _) Hsq); unfold gtb, Math_sqrt.
  fold (horizontalDistance (nextX c) (nextZ c) obs).
  rewrite (proj2 (ltb_true _ _) Hfar); repeat split; reflexivity.
Qed.

(** Where a step that does not push leaves the rover. *)
Lemma collideStep_stay (c : Collision) (obs : Obstacle) :
  let dist := horizontalDistance (nextX c) (nextZ c) obs in
  solid obs = false \/ minDist obs <= dist \/ dist <= 0.001 ->
  nextX (collideStep c obs) = nextX c /\ nextZ (collideStep c obs) = nextZ c.
Proof.
  intros dist Hwhy.
  destruct (collideStep_moves c obs)
    as [(Hx & Hz & _) | (Hs & Hin & _)]; [split; assumption |].
  fold dist in Hin; destruct Hwhy as [Hno | [Hclear | Hnear]];
    [congruence | lra | lra].
Qed.

Lemma solid_rocks :
  solid rockA = true /\ solid rockB = true /\ solid rockFar = true.
Proof.
  unfold solid, rockA, rockB, rockFar, RUNNABLE_ROCK_SCALE; cbn [scale].
  settle_cmp; repeat split; reflexivity.
Qed.

(** C1 fails as stated: pushed out of [rockA] and then out of [rockB], the
    rover ends 0.7 from the centre of [rockA], whose radius for it is 9.3;
    and proposed on the very centre of [rockA], it is left there. *)
Lemma collision_pass_counterexample :
  let c := resolveCollisions [rockA; rockB] 35 0 in
  let c0 := resolveCollisions [rockA] 30 0 in
  (RUNNABLE_ROCK_SCALE <= scale rockA /\
   nextX c = 30.7 /\ nextZ c = 0 /\
   horizontalDistance (nextX c) (nextZ c) rockA = 0.7 /\
   horizontalDistance (nextX c) (nextZ c) rockA
     < scale rockA * 0.85 + roverRadius - 8) /\
  (nextX c0 = 30 /\ nextZ c0 = 0 /\
   horizontalDistance (nextX c0) (nextZ c0) rockA = 0).
Proof.
  destruct solid_rocks as (HsA & HsB & _).
  cbv zeta; unfold resolveCollisions; cbn [fold_left].
  set (start := mkCollision 35 0 false false).
  assert (HdA : horizontalDistance (nextX start) (nextZ start) rockA = 5).
  { apply horizontalDistance_is; cbn; lra. }
  assert (HmA : minDist rockA = 9.3) by (unfold minDist, roverRadius; cbn; lra).
  assert (HmB : minDist rockB = 9.3) by (unfold minDist, roverRadius; cbn; lra).
  destruct (collideStep_push start rockA HsA) as (Hx1 & Hz1 & _);
    [lra | lra |].
  rewrite HdA, HmA in Hx1, Hz1; cbn [nextX nextZ start x z rockA] in Hx1, Hz1.
  set (c1 := collideStep start rockA) in *.
  assert (Hx1' : nextX c1 = 39.3) by (rewrite Hx1; lra).
  assert (Hz1' : nextZ c1 = 0) by (rewrite Hz1; lra).
  assert (HdB : horizontalDistance (nextX c1) (nextZ c1) rockB = 0.7).
  { apply horizontalDistance_is; [lra |]; rewrite Hx1', Hz1'; cbn; lra. }
  destruct (collideStep_push c1 rockB HsB) as (Hx2 & Hz2 & _);
    [lra | lra |].
  rewrite HdB, HmB in Hx2, Hz2; rewrite Hx1' in Hx2; rewrite Hz1' in Hz2.
  cbn [x z rockB] in Hx2, Hz2.
  set (c2 := collideStep c1 rockB) in *.
  assert (Hx2' : nextX c2 = 30.7) by (rewrite Hx2; lra).
  assert (Hz2' : nextZ c2 = 0) by (rewrite Hz2; lra).
  assert (Hend : horizontalDistance (nextX c2) (nextZ c2) rockA = 0.7).
  { apply horizontalDistance_is; [lra |]; rewrite Hx2', Hz2'; cbn; lra. }
  split.
  - repeat split; try assumption.
    + unfold RUNNABLE_ROCK_SCALE; cbn; lra.
    + rewrite Hend; unfold roverRadius; cbn; lra.
  - set (centre := mkCollision 30 0 false false).
    assert (Hd0 : horizontalDistance (nextX centre) (nextZ centre) rockA = 0).
    { apply horizontalDistance_is; cbn; lra. }
    destruct (collideStep_stay centre rockA) as [Hx0 Hz0];
      [right; right; lra |].
    rewrite Hx0, Hz0; repeat split; try reflexivity; exact Hd0.
Qed.

(** The pseudo-random index restarts in each tier: the gigantic rock and the
    first massive rock of a chunk share their centre. *)
Lemma heads_concentric (cx cz : Z) :
  let g := makeObstacle cx cz (mkLayer 1 22 32) 0 in
  let m := makeObstacle cx cz (mkLayer 3 9 15) 0 in
  firstn 2 (getObstaclesInChunk cx cz) = [g; m] /\
  x g = x m /\ z g = z m /\ 22 <= scale g <= 32 /\ 9 <= scale m <= 15.
Proof.
  cbv zeta.
  pose proof (makeObstacle_scale cx cz (mkLayer 1 22 32) 0) as Hg.
  pose proof (makeObstacle_scale cx cz (mkLayer 3 9 15) 0) as Hm.
  cbn [minScale maxScale] in Hg, Hm.
  specialize (Hg ltac:(lra)); specialize (Hm ltac:(lra)).
  split; [rewrite getObstaclesInChunk_layers; reflexivity |].
  split; [| split; [reflexivity | split; assumption]].
  cbn [makeObstacle scale x] in *; unfold gtb.
  rewrite (proj2 (ltb_true _ _) (ltac:(lra) :
    8.0 < minScale (mkLayer 1 22 32) +
          pseudoRandom cx cz (0 * 3 + 2) *
          (maxScale (mkLayer 1 22 32) - minScale (mkLayer 1 22 32)))).
  rewrite (proj2 (ltb_true _ _) (ltac:(lra) :
    8.0 < minScale (mkLayer 3 9 15) +
          pseudoRandom cx cz (0 * 3 + 2) *
          (maxScale (mkLayer 3 9 15) - minScale (mkLayer 3 9 15)))).
  reflexivity.
Qed.

(** The gigantic rock and the first massive rock of chunk (0, 0) share their
    centre: their discs lie one in the other, both hold the point beside
    the centre, and the pass ends clear of both. *)
Lemma resolved_position_clear_witness :
  let nearby := chunkHeads in
  let px := fst besideHead in
  let pz := snd besideHead in
  let c := resolveCollisions nearby px pz in
  solids nearby = nearby /\ Forall (discHolds px pz) nearby /\
  0 <= 0 /\
  Forall (fun obs => 0.001 < horizontalDistance px pz obs) (solids nearby) /\
  Forall (fun obs => discHolds px pz obs ->
                     Forall (uncrossed obs) (solids nearby))
         (solids nearby) /\
  Forall (fun obs => RUNNABLE_ROCK_SCALE <= scale obs /\ clearUpTo 0 c obs)
         (solids nearby).
Proof.
  cbv zeta.
  destruct (heads_concentric 0 0) as (Hl & Hx & Hz & Hg & Hm).
  unfold besideHead, chunkHeads; rewrite Hl; cbn [fst snd].
  set (g := makeObstacle 0 0 (mkLayer 1 22 32) 0) in *.
  set (m := makeObstacle 0 0 (mkLayer 3 9 15) 0) in *.
  assert (Hdg : horizontalDistance (x g + 1) (z g) g = 1)
    by (apply horizontalDistance_is; lra).
  assert (Hdm : horizontalDistance (x g + 1) (z g) m = 1)
    by (apply horizontalDistance_is; [lra | rewrite <- Hx, <- Hz; lra]).
  assert (Hzero : forall a b, dist_euc a b a b = 0).
  { intros a b; unfold dist_euc, Rsqr.
    replace ((a - a) * (a - a) + (b - b) * (b - b)) with 0 by ring.
    apply sqrt_0. }
  assert (Hoff : Forall (fun obs => 0.001 < horizontalDistance (x g + 1) (z g) obs)
                        (solids [g; m])).
  { apply Forall_solids.
    apply Forall_cons; [lra | apply Forall_cons; [lra | apply Forall_nil]]. }
  assert (Hmg : discWithin m g).
  { unfold discWithin; cbv zeta; rewrite <- Hx, <- Hz, Hzero.
    unfold minDist, roverRadius; split; [lra |].
    rewrite Rabs_right; lra. }
  assert (Hself : forall o, 2.5 <= scale o -> discWithin o o).
  { intros o Ho; unfold discWithin; cbv zeta; rewrite Hzero.
    unfold minDist, roverRadius; split; [lra |].
    rewrite Rabs_right; lra. }
  assert (Hfree : Forall (fun obs => discHolds (x g + 1) (z g) obs ->
                                     Forall (uncrossed obs) (solids [g; m]))
                         (solids [g; m])).
  { apply Forall_solids.
    apply Forall_cons; [| apply Forall_cons; [| apply Forall_nil]];
      intros _; apply Forall_solids;
      (apply Forall_cons; [| apply Forall_cons; [| apply Forall_nil]]);
      unfold uncrossed.
    - right; left; apply Hself; lra.
    - right; right; exact Hmg.
    - right; left; exact Hmg.
    - right; left; apply Hself; lra. }
  split.
  { unfold solids; cbn [filter].
    rewrite (proj2 (solid_scale g)), (proj2 (solid_scale m));
      [reflexivity | |]; unfold RUNNABLE_ROCK_SCALE; lra. }
  split.
  { unfold discHolds, minDist, roverRadius.
    apply Forall_cons; [lra | apply Forall_cons; [lra | apply Forall_nil]]. }
  split; [lra |]; split; [exact Hoff |]; split; [exact Hfree |].
  exact (proj2 (resolved_position_clear [g; m] (x g + 1) (z g) 0
                  (Rle_refl 0)) Hoff Hfree).
Defined.

(** ** What a frame does to the driving state *)

Lemma motion_eq (a b : AgentState) :
  motion a = motion b ->
  speed a = speed b /\ steerAngle a = steerAngle b /\ timers a = timers b.
Proof.
  unfold motion; intros H; injection H; intros; unfold timers.
  repeat split; congruence.
Qed.

Lemma timers_eq (a b : AgentState) :
  timers a = timers b ->
  stuckTimer a = stuckTimer b /\ recoveryTimer a = recoveryTimer b /\
  retractionT a = retractionT b.
Proof. unfold timers; intros H; injection H; intros; repeat split; assumption. Qed.

Ltac branches :=
  repeat match goal with
  | |- context [if ?b then _ else _] => destruct b
  | |- context [match ?p with (_, _) => _ end] => destruct p
  end.

Lemma updateDust_motion (f : Frame) (a : AgentState) :
  motion (updateDust f a) = motion a.
Proof. unfold updateDust; branches; reflexivity. Qed.

Lemma updateShake_motion (f : Frame) (a : AgentState) :
  motion (updateShake f a) = motion a.
Proof. unfold updateShake; branches; reflexivity. Qed.

(** The agent a frame decides on: as before but for the panels, which
    moved by [0.6 * delta] toward their end. *)
Lemma prepare_agent (f : Frame) (st : Rover) :
  let a := agentState st in
  let a' := snd (prepare f st) in
  speed a' = speed a /\ steerAngle a' = steerAngle a /\
  stuckTimer a' = stuckTimer a /\ recoveryTimer a' = recoveryTimer a /\
  retractionT a' =
    (if shouldRetract f st
     then Math_min 1 (retractionT a + delta f * 0.6)
     else Math_max 0 (retractionT a - delta f * 0.6)).
Proof.
  cbv zeta; unfold prepare, updateRetraction, shouldRetract.
  pose proof (updateDust_motion f (agentState st)) as Hd.
  pose proof (updateShake_motion f (updateDust f (agentState st))) as Hs.
  rewrite Hd in Hs.
  set (a1 := updateShake f (updateDust f (agentState st))) in *.
  apply motion_eq in Hs; destruct Hs as (Hsp & Hst & Htm).
  apply timers_eq in Htm; destruct Htm as (Hstuck & Hrec & Hret).
  clearbody a1.
  destruct (autoPilotRef st); [| destruct (userPanelOverride st) as [[|] |]];
    cbn [fst snd];
    try destruct (stormActive f || phase_eqb (meteorPhase f) IMPACT);
    cbn; rewrite ?Hret; auto.
Qed.

Lemma integrateDrive_speed (f : Frame) (input : Keys) (d : Decision)
    (a : AgentState) :
  speed (integrateDrive f input d a) =
  if stopping d then lerp (speed a) 0 (delta f * 2.0)
  else lerp (speed a) (targetSpeed d)
            (delta f * (if key_w input || key_s input then 3.0 else 2.0)).
Proof. unfold integrateDrive; branches; reflexivity. Qed.

Lemma integrateDrive_steer (f : Frame) (input : Keys) (d : Decision)
    (a : AgentState) :
  steerAngle (integrateDrive f input d a) =
  lerp (steerAngle a) (targetSteer d) (delta f * 10.0).
Proof. unfold integrateDrive; branches; reflexivity. Qed.

Lemma integrateDrive_timers (f : Frame) (input : Keys) (d : Decision)
    (a : AgentState) :
  timers (integrateDrive f input d a) = timers a.
Proof. unfold integrateDrive; branches; reflexivity. Qed.

Lemma updateScan_motion (f : Frame) (a : AgentState) :
  motion (updateScan f a) = motion a.
Proof. unfold updateScan; branches; reflexivity. Qed.

Lemma updateWheelRot_motion (f : Frame) (a : AgentState) :
  motion (updateWheelRot f a) = motion a.
Proof. reflexivity. Qed.

Lemma drive_motion (f : Frame) (st : Rover) (n : Navigation) :
  motion (drive f st n) =
  motion (integrateDrive f (keysPressed st) (nav_decision n) (nav_agent n)).
Proof.
  unfold drive; now rewrite updateWheelRot_motion, updateScan_motion.
Qed.

(** The collision pass scrubs 5% of the speed when it pushed, and leaves
    steer and timers alone. *)
Lemma moveRover_motion (f : Frame) (nearby : list Obstacle) (pos : Vector3.t)
    (a : AgentState) :
  let a' := snd (moveRover f nearby pos a) in
  (speed a' = speed a \/ speed a' = speed a * 0.95) /\
  steerAngle a' = steerAngle a /\ timers a' = timers a.
Proof.
  cbv zeta; unfold moveRover; cbn [snd].
  destruct (hitSomething _); cbn; auto.
Qed.

(** The frame, seen from its driving state. *)
Lemma useFrame_motion (f : Frame) (st : Rover) :
  let n := navigate f st in
  let a1 := integrateDrive f (keysPressed st) (nav_decision n) (nav_agent n) in
  let a' := agentState (useFrame f st) in
  (speed a' = speed a1 \/ speed a' = speed a1 * 0.95) /\
  steerAngle a' = lerp (steerAngle (nav_agent n))
                       (targetSteer (nav_decision n)) (delta f * 10.0) /\
  timers a' = timers (nav_agent n).
Proof.
  cbv zeta; unfold useFrame.
  pose proof (moveRover_motion f (nav_cache (navigate f st)) (roverPos st)
                (drive f st (navigate f st))) as Hm.
  cbv zeta in Hm; destruct (moveRover _ _ _ _) as [pos a4]; cbn [snd] in Hm.
  destruct (suspensionUpdate _ _ _ _ _) as [ys vs].
  cbn [agentState].
  change (speed (set_wheelVelocities vs a4)) with (speed a4).
  change (steerAngle (set_wheelVelocities vs a4)) with (steerAngle a4).
  change (timers (set_wheelVelocities vs a4)) with (timers a4).
  destruct (motion_eq _ _ (drive_motion f st (navigate f st)))
    as (Hsp & Hst & Htm).
  destruct Hm as (Hs & Ha & Ht).
  rewrite Hsp in Hs; rewrite Hst, integrateDrive_steer in Ha.
  rewrite Htm, integrateDrive_timers in Ht.
  repeat split; assumption.
Qed.

(** What a frame leaves as it found it. *)
Lemma useFrame_static (f : Frame) (st : Rover) :
  keysPressed (useFrame f st) = keysPressed st /\
  autoPilotRef (useFrame f st) = autoPilotRef st /\
  damageCount (useFrame f st) = damageCount st /\
  frameCount (useFrame f st) = S (frameCount st) /\
  userPanelOverride (useFrame f st) = nav_override (navigate f st) /\
  obstaclesCache (useFrame f st) = nav_cache (navigate f st).
Proof.
  unfold useFrame.
  destruct (moveRover _ _ _ _) as [pos a4].
  destruct (suspensionUpdate _ _ _ _ _) as [ys vs]; cbn.
  repeat split; try reflexivity; lia.
Qed.

Lemma prepare_override (f : Frame) (st : Rover) :
  fst (prepare f st) =
  if autoPilotRef st then None else userPanelOverride st.
Proof.
  unfold prepare, updateRetraction.
  destruct (autoPilotRef st); [| destruct (userPanelOverride st)];
    branches; reflexivity.
Qed.

Lemma navigate_cache (f : Frame) (st : Rover) :
  nav_cache (navigate f st) = frameCache st /\
  nav_override (navigate f st) = fst (prepare f st).
Proof.
  unfold navigate, frameCache.
  destruct (prepare f st) as [ov a1].
  destruct (refreshCache _ _ _) as [last cache].
  destruct (decideMode _ _ _ _ _ _) as [d a2].
  destruct (raycastSteering _ _ _ _ _ _) as [d3 a3]; split; reflexivity.
Qed.

(** The navigation of a frame in which the throttled block does not run
    is the mode decision. *)
Lemma navigate_decideMode (f : Frame) (st : Rover) :
  performRaycastAvoidance (fst (frameMode f st))
    && Nat.eqb ((frameCount st + 1) mod 3) 0 = false ->
  nav_decision (navigate f st) = fst (frameMode f st) /\
  nav_agent (navigate f st) = snd (frameMode f st).
Proof.
  unfold navigate, frameMode, frameCache.
  destruct (prepare f st) as [ov a1]; cbn [snd].
  destruct (refreshCache _ _ _) as [last cache]; cbn [snd].
  destruct (decideMode _ _ _ _ _ _) as [d a2]; cbn [fst snd].
  unfold raycastSteering; intros ->; split; reflexivity.
Qed.


(** ** Storm *)

(** A held key, panels out: the keys give the target speed and steer. *)
Lemma decideMode_manual (f : Frame) (input : Keys) (autoPilot : bool)
    (pos : Vector3.t) (nearby : list Obstacle) (a : AgentState) :
  isManualInput input = true -> isSystemsOffline a = false ->
  let da := decideMode f input autoPilot pos nearby a in
  let throttle := (if key_w input then 1 else 0)
                  - (if key_s input then 1 else 0) in
  let steer := (if key_a input then 1 else 0)
               - (if key_d input then 1 else 0) in
  fst da = mkDecision (steer * 0.8) 0 3.0 (throttle * 5.0) false false /\
  motion (snd da) = motion a.
Proof.
  intros Hman Hoff; cbv zeta; unfold decideMode; rewrite Hman.
  assert (Hoff' : isSystemsOffline
            (if phase_eqb (meteorPhase f) IDLE
             then set_currentCoverTarget None a else a) = false).
  { destruct (phase_eqb (meteorPhase f) IDLE); exact Hoff. }
  rewrite Hoff'; cbn [fst snd].
  split; [reflexivity |].
  destruct (phase_eqb (meteorPhase f) IDLE); reflexivity.
Qed.

(** Storm and no manual drive: the target speed is 0 and the throttled
    block is not asked for. *)
Lemma decideMode_storm (f : Frame) (input : Keys) (autoPilot : bool)
    (pos : Vector3.t) (nearby : list Obstacle) (a : AgentState) :
  stormActive f = true ->
  isManualInput input && negb (isSystemsOffline a) = false ->
  let da := decideMode f input autoPilot pos nearby a in
  targetSpeed (fst da) = 0 /\
  performRaycastAvoidance (fst da) = false /\
  (stopping (fst da) = true \/ isManualInput input = true) /\
  motion (snd da) = motion a.
Proof.
  intros Hstorm Hnot; cbv zeta; unfold decideMode; rewrite Hstorm.
  assert (Hoff' : isSystemsOffline
            (if phase_eqb (meteorPhase f) IDLE
             then set_currentCoverTarget None a else a)
            = isSystemsOffline a).
  { destruct (phase_eqb (meteorPhase f) IDLE); reflexivity. }
  assert (Hmot : motion (if phase_eqb (meteorPhase f) IDLE
                         then set_currentCoverTarget None a else a)
                 = motion a).
  { destruct (phase_eqb (meteorPhase f) IDLE); reflexivity. }
  rewrite Hoff'.
  destruct (isManualInput input); cbn [andb negb] in Hnot.
  - apply negb_false_iff in Hnot; rewrite Hnot.
    cbn [fst snd targetSpeed performRaycastAvoidance stopping].
    repeat split; try lra; auto.
  - destruct (phase_eqb (meteorPhase f) IMPACT);
      cbn [orb fst snd targetSpeed performRaycastAvoidance stopping];
      repeat split; try lra; auto.
Qed.

(** One frame of storm without manual drive: the target speed is 0 and
    the speed is scaled by [1 - k * delta], [k] being 2 or 3, and by 0.95
    more when the collision pass pushed the rover. *)
Lemma storm_frame (f : Frame) (st : Rover) :
  stormActive f = true -> manualDrive f st = false ->
  targetSpeed (nav_decision (navigate f st)) = 0 /\
  exists c k : R,
    (c = 1 \/ c = 0.95) /\ (k = 2 \/ k = 3) /\
    speed (agentState (useFrame f st)) =
    c * ((1 - k * delta f) * speed (agentState st)).
Proof.
  intros Hstorm Hman; unfold manualDrive in Hman.
  pose proof (prepare_agent f st) as Hprep; cbv zeta in Hprep.
  destruct Hprep as (Hsp0 & _).
  pose proof (decideMode_storm f (keysPressed st) (autoPilotRef st)
                (roverPos st) (frameCache st)
                (snd (prepare f st)) Hstorm Hman) as Hdec.
  cbv zeta in Hdec; fold (frameMode f st) in Hdec.
  destruct Hdec as (Htarget & Hray & Hstop & Hmot).
  destruct (navigate_decideMode f st) as [Hd Ha];
    [rewrite Hray; reflexivity |].
  rewrite <- Hd in Htarget, Hstop; rewrite <- Ha in Hmot.
  destruct (motion_eq _ _ Hmot) as (Hsp1 & _).
  split; [exact Htarget |].
  destruct (useFrame_motion f st) as (Hspeed & _).
  rewrite integrateDrive_speed, Htarget, Hsp1, Hsp0 in Hspeed.
  unfold lerp in Hspeed.
  set (s := speed (agentState st)) in *.
  set (s' := speed (agentState (useFrame f st))) in *.
  destruct (stopping (nav_decision (navigate f st))).
  - destruct Hspeed as [-> | ->];
      [exists 1, 2 | exists 0.95, 2]; repeat split; auto; lra.
  - destruct (key_w (keysPressed st) || key_s (keysPressed st));
      destruct Hspeed as [-> | ->];
      [exists 1, 3 | exists 0.95, 3 | exists 1, 2 | exists 0.95, 2];
      repeat split; auto; lra.
Qed.

(** C5, as the code has it.  Through a run of frames with [stormActive]
    in which no held movement key drives (none is held, or the panels are
    more than 0.05 retracted), whatever the autopilot setting and the
    threat phase: the target speed of every frame is 0, and the speed
    shrinks by the factor [1 - 2 * dmin] or more per frame, so it decays
    geometrically toward 0 and stays 0 once it is 0. *)
Theorem storm_speed_decays (dmin : R) (fs : list Frame) (st : Rover) :
  0 < dmin ->
  stormRun dmin fs st ->
  Forall (fun v => v = 0) (commandedSpeeds fs st) /\
  Rabs (speed (agentState (runFrames fs st)))
    <= (1 - 2 * dmin) ^ List.length fs * Rabs (speed (agentState st)) /\
  (speed (agentState st) = 0 -> speed (agentState (runFrames fs st)) = 0).
Proof.
  intros Hd; revert st; induction fs as [| f fs IH]; intros st Hrun.
  - cbn; repeat split; [constructor | lra | auto].
  - cbn [stormRun] in Hrun; destruct Hrun as (Hstorm & Hman & Hdt & Hrest).
    destruct (storm_frame f st Hstorm Hman) as (Htarget & c & k & Hc & Hk & Hs).
    destruct (IH (useFrame f st) Hrest) as (Hcmd & Hbound & Hzero).
    cbn [commandedSpeeds runFrames fold_left List.length pow] in *.
    fold (runFrames fs (useFrame f st)).
    assert (Hstep : Rabs (speed (agentState (useFrame f st)))
                    <= (1 - 2 * dmin) * Rabs (speed (agentState st))).
    { rewrite Hs, !Rabs_mult.
      assert (Hck : Rabs c * Rabs (1 - k * delta f) <= 1 - 2 * dmin).
      { destruct Hc as [-> | ->], Hk as [-> | ->];
          unfold Rabs; repeat destruct Rcase_abs; lra. }
      pose proof (Rabs_pos (speed (agentState st))).
      rewrite <- Rmult_assoc; apply Rmult_le_compat_r; assumption. }
    repeat split.
    + constructor; assumption.
    + eapply Rle_trans; [exact Hbound |].
      assert (Hpow : 0 <= (1 - 2 * dmin) ^ List.length fs)
        by (apply pow_le; lra).
      rewrite (Rmult_comm (1 - 2 * dmin)), Rmult_assoc.
      apply Rmult_le_compat_l; assumption.
    + intros H0; apply Hzero; rewrite Hs, H0; lra.
Qed.

Lemma storm_speed_decays_witness :
  let st := initialRover in
  let fs := [stormFrame; stormFrame] in
  0 < 0.1 /\ stormRun 0.1 fs st /\
  Rabs (speed (agentState (runFrames fs st)))
    <= (1 - 2 * 0.1) ^ 2 * Rabs (speed (agentState st)).
Proof.
  cbv zeta.
  assert (Hrun : stormRun 0.1 [stormFrame; stormFrame] initialRover).
  { cbn [stormRun]; unfold manualDrive.
    destruct (useFrame_static stormFrame initialRover) as (Hkeys & _).
    rewrite Hkeys; cbn [keysPressed initialRover isManualInput key_w key_a
      key_s key_d orb andb stormFrame stormActive delta].
    repeat split; lra. }
  split; [lra | split; [exact Hrun |]].
  exact (proj1 (proj2 (storm_speed_decays 0.1 [stormFrame; stormFrame]
                         initialRover ltac:(lra) Hrun))).
Defined.

Lemma drivingInStorm_frame (st : Rover) :
  drivingInStorm st ->
  targetSpeed (nav_decision (navigate stormFrame st)) = 5 /\
  drivingInStorm (useFrame stormFrame st).
Proof.
  intros (Hkeys & Hauto & Hov & Hret & Hsp).
  destruct (prepare_agent stormFrame st) as (Hsp0 & _ & _ & _ & Hret0).
  unfold shouldRetract in Hret0; rewrite Hauto, Hov, Hret in Hret0.
  assert (Hret1 : retractionT (snd (prepare stormFrame st)) = 0).
  { rewrite Hret0; unfold Math_max, stormFrame; cbn [delta]; settle_cmp.
    reflexivity. }
  assert (Hoff : isSystemsOffline (snd (prepare stormFrame st)) = false).
  { unfold isSystemsOffline, gtb; rewrite Hret1; apply ltb_false; lra. }
  assert (Hman : isManualInput (keysPressed st) = true)
    by (rewrite Hkeys; reflexivity).
  destruct (decideMode_manual stormFrame (keysPressed st) (autoPilotRef st)
              (roverPos st) (frameCache st) (snd (prepare stormFrame st))
              Hman Hoff) as [Hd Hmot].
  fold (frameMode stormFrame st) in Hd, Hmot.
  destruct (navigate_decideMode stormFrame st) as [Hnd Hna];
    [rewrite Hd; reflexivity |].
  rewrite Hd in Hnd; rewrite Hkeys in Hnd; cbn [key_w key_a key_s key_d] in Hnd.
  destruct (motion_eq _ _ Hmot) as (Hsp1 & _ & Htm).
  destruct (timers_eq _ _ Htm) as (_ & _ & Hret2).
  destruct (useFrame_motion stormFrame st) as (Hspeed & _ & Htm').
  rewrite Hna in Htm'.
  destruct (timers_eq _ _ Htm') as (_ & _ & Hret3).
  rewrite integrateDrive_speed, Hna, Hnd, Hsp1, Hsp0, Hkeys in Hspeed.
  cbn [stopping targetSpeed key_w key_s orb stormFrame delta] in Hspeed.
  unfold lerp in Hspeed.
  destruct (useFrame_static stormFrame st) as (Hk & Ha & _ & _ & Ho & _).
  destruct (navigate_cache stormFrame st) as [_ Hno].
  rewrite Hno, prepare_override, Hauto, Hov in Ho.
  split; [rewrite Hnd; cbn [targetSpeed]; lra |].
  unfold drivingInStorm; rewrite Hk, Ha, Ho, Hret3, Hret2, Hret1.
  repeat split; auto.
  set (s := speed (agentState st)) in *.
  destruct Hspeed as [-> | ->]; lra.
Qed.

(** C5 fails as stated: with the autopilot off and the panels out, the
    'w' key drives the rover through a storm.  Frame after frame the target
    speed is 5 and the speed stays at 1.4 or more. *)
Lemma storm_manual_counterexample :
  stormActive stormFrame = true /\
  (forall n : nat,
     let st := runFrames (repeat stormFrame n) heldW in
     targetSpeed (nav_decision (navigate stormFrame st)) = 5 /\
     1.4 <= speed (agentState st)).
Proof.
  split; [reflexivity |].
  assert (Hinv : forall n st, drivingInStorm st ->
                   drivingInStorm (runFrames (repeat stormFrame n) st)).
  { induction n as [| n IH]; intros st Hst; [exact Hst |].
    cbn [repeat runFrames fold_left].
    apply IH, drivingInStorm_frame, Hst. }
  assert (H0 : drivingInStorm heldW).
  { unfold drivingInStorm, heldW; cbn; repeat split; lra. }
  intros n; cbv zeta; specialize (Hinv n heldW H0).
  split; [apply drivingInStorm_frame; exact Hinv |].
  destruct Hinv as (_ & _ & _ & _ & Hsp); exact Hsp.
Qed.

(** ** Stuck and recovery *)





Lemma seekCover_held (pos : Vector3.t) (nearby : list Obstacle)
    (a : AgentState) (d : Decision) :
  held (snd (seekCover pos nearby a d)) = held a.
Proof.
  unfold seekCover.
  destruct (currentCoverTarget a) as [t |].
  - destruct (ltb _ _); reflexivity.
  - destruct (nearestGiant pos nearby) as [bestDist target].
    destruct (if inf_gt bestDist 900
              then scanPockets pos (bestDist, target)
              else (bestDist, target)) as [bestDist' [t |]].
    + destruct (ltb _ _); reflexivity.
    + reflexivity.
Qed.

(** The mode decision writes neither timer nor steer. *)
Lemma decideMode_timers (f : Frame) (input : Keys) (autoPilot : bool)
    (pos : Vector3.t) (nearby : list Obstacle) (a : AgentState) :
  let a' := snd (decideMode f input autoPilot pos nearby a) in
  stuckTimer a' = stuckTimer a /\ recoveryTimer a' = recoveryTimer a /\
  steerAngle a' = steerAngle a /\ retractionT a' = retractionT a.
Proof.
  cbv zeta.
  assert (Hheld : held (snd (decideMode f input autoPilot pos nearby a))
                  = held a).
  { unfold decideMode.
    set (a1 := if phase_eqb (meteorPhase f) IDLE
               then set_currentCoverTarget None a else a).
    assert (Ha1 : held a1 = held a)
      by (unfold a1; destruct (phase_eqb _ _); reflexivity).
    clearbody a1; rewrite <- Ha1.
    repeat match goal with
           | |- context [if ?b then _ else _] => destruct b
           end; try reflexivity.
    apply seekCover_held. }
  unfold held in Hheld; injection Hheld; intros; repeat split; assumption.
Qed.


(** The throttled block writes the timers and the steer only. *)
Lemma steeringUpdate_keeps (f : Frame) (s : SearchState) (d : Decision)
    (a : AgentState) :
  let a' := snd (steeringUpdate f s d a) in
  speed a' = speed a /\ retractionT a' = retractionT a.
Proof.
  cbv zeta; unfold steeringUpdate; branches; split; reflexivity.
Qed.

Lemma frameMode_timers (f : Frame) (st : Rover) :
  let a := snd (frameMode f st) in
  stuckTimer a = stuckTimer (agentState st) /\
  recoveryTimer a = recoveryTimer (agentState st) /\
  steerAngle a = steerAngle (agentState st).
Proof.
  cbv zeta; unfold frameMode.
  destruct (decideMode_timers f (keysPressed st) (autoPilotRef st)
              (roverPos st) (frameCache st) (snd (prepare f st)))
    as (Hst & Hrec & Hsteer & _).
  destruct (prepare_agent f st) as (_ & Hsteer0 & Hst0 & Hrec0 & _).
  rewrite Hst, Hrec, Hsteer; auto.
Qed.





(** *** A rover that every candidate heading finds blocked *)

Section Engulfed.

Variable a : AgentState.
Variable pos : Vector3.t.
Variable d : Decision.







End Engulfed.











(** ** Loose ends of the model *)

(** The rover ends a frame where the collision pass left it. *)
Lemma useFrame_resolved (f : Frame) (st : Rover) :
  let a := drive f st (navigate f st) in
  let stepX := Vector3.x (roverPos st) - sin (yaw a) * speed a * delta f
               + Vector3.x (knockbackVel a) * delta f in
  let stepZ := Vector3.z (roverPos st) - cos (yaw a) * speed a * delta f
               + Vector3.z (knockbackVel a) * delta f in
  let c := resolveCollisions (obstaclesCache (useFrame f st)) stepX stepZ in
  Vector3.x (roverPos (useFrame f st)) = nextX c /\
  Vector3.z (roverPos (useFrame f st)) = nextZ c /\
  isUnderCover (agentState (useFrame f st)) = underCover c.
Proof.
  cbv zeta; unfold useFrame, moveRover.
  destruct (suspensionUpdate _ _ _ _ _) as [ys vs].
  cbn [roverPos obstaclesCache agentState Vector3.x Vector3.z].
  destruct (hitSomething _); repeat split; reflexivity.
Qed.

(** Every cache a frame builds holds obstacles of scale 1.5 to 32, so the
    surface height over it is the maximum the specification describes. *)
Lemma loadChunks_scale (cx cz : Z) :
  Forall (fun obs => 1.5 <= scale obs <= 32) (loadChunks cx cz).
Proof.
  apply Forall_forall; intros obs Hobs.
  unfold loadChunks in Hobs; apply in_flat_map in Hobs.
  destruct Hobs as ([xx zz] & _ & Hin).
  exact (generated_scale _ _ obs Hin).
Qed.

Lemma getSurfaceHeight_loaded (cx cz : Z) (wx wz : R) :
  getSurfaceHeight (loadChunks cx cz) wx wz
  = surfaceHeightSpec (loadChunks cx cz) wx wz.
Proof.
  unfold getSurfaceHeight, surfaceHeightSpec.
  apply getSurfaceHeight_fold.
  eapply Forall_impl; [| apply loadChunks_scale]; cbn; intros; lra.
Qed.

(** The cache after a refresh is a function of the chunk alone. *)
Lemma refreshCache_loaded (pos : Vector3.t) (last : Z * Z)
    (cache : list Obstacle) :
  cache = loadChunks (fst last) (snd last) ->
  let r := refreshCache pos last cache in
  snd r = loadChunks (fst (fst r)) (snd (fst r)) /\
  fst r = (Math_round (Vector3.x pos / CHUNK_SIZE),
           Math_round (Vector3.z pos / CHUNK_SIZE)).
Proof.
  intros Hcache; cbv zeta; unfold refreshCache.
  destruct (Z.eqb_spec (Math_round (Vector3.x pos / CHUNK_SIZE)) (fst last))
    as [Hx | Hx];
    destruct (Z.eqb_spec (Math_round (Vector3.z pos / CHUNK_SIZE)) (snd last))
      as [Hz | Hz]; cbn [negb orb fst snd]; try (split; reflexivity).
  split; [exact Hcache | rewrite Hx, Hz; destruct last; reflexivity].
Qed.

(** The two [while] loops that bring an angle back between [-PI] and [PI]
    leave by their own test within the fuel they are given. *)
Lemma wrapAbove_range (fuel : nat) :
  forall diff : R,
    diff <= PI + INR fuel * 6 ->
    wrapAbove fuel diff <= PI /\
    (- PI <= diff -> - PI <= wrapAbove fuel diff).
Proof.
  pose proof PI2_3_2 as Hpi.
  induction fuel as [| fuel IH]; intros diff Hle.
  - cbn [wrapAbove INR] in *; split; [lra | auto].
  - cbn [wrapAbove]; unfold gtb.
    destruct (Rlt_dec PI diff) as [Hgt | Hok].
    + rewrite (proj2 (ltb_true _ _) Hgt).
      rewrite S_INR in Hle.
      destruct (IH (diff - PI * 2)) as [Hup Hlow]; [lra |].
      split; [exact Hup |]; intros _; apply Hlow; lra.
    + apply Rnot_lt_le in Hok; rewrite (proj2 (ltb_false _ _) Hok).
      split; [exact Hok | auto].
Qed.

Lemma wrapBelow_range (fuel : nat) :
  forall diff : R,
    - PI - INR fuel * 6 <= diff -> diff <= PI ->
    - PI <= wrapBelow fuel diff <= PI.
Proof.
  pose proof PI2_3_2 as Hpi.
  induction fuel as [| fuel IH]; intros diff Hge Hle.
  - cbn [wrapBelow INR] in *; lra.
  - cbn [wrapBelow].
    destruct (Rlt_dec diff (- PI)) as [Hlt | Hok].
    + rewrite (proj2 (ltb_true _ _) Hlt).
      rewrite S_INR in Hge; apply IH; lra.
    + apply Rnot_lt_le in Hok; rewrite (proj2 (ltb_false _ _) Hok); lra.
Qed.

Lemma wrapFuel_enough (diff : R) : Rabs diff <= INR (wrapFuel diff).
Proof.
  unfold wrapFuel.
  destruct (archimed (Rabs diff)) as [Hup _].
  pose proof (Rabs_pos diff) as Hpos.
  assert (Hz : (0 <= up (Rabs diff))%Z).
  { apply le_IZR; lra. }
  rewrite INR_IZR_INZ, Z2Nat.id by exact Hz; lra.
Qed.

Lemma wrapAngle_range (diff : R) : - PI <= wrapAngle diff <= PI.
Proof.
  pose proof PI2_3_2 as Hpi.
  unfold wrapAngle.
  pose proof (wrapFuel_enough diff) as Hf.
  destruct (wrapAbove_range (wrapFuel diff) diff) as [Hup _].
  { pose proof (Rle_abs diff); pose proof (pos_INR (wrapFuel diff)); lra. }
  set (d1 := wrapAbove (wrapFuel diff) diff) in *.
  pose proof (wrapFuel_enough d1) as Hf1.
  apply wrapBelow_range; [| exact Hup].
  pose proof (Rabs_pos d1); pose proof (Rle_abs (- d1)).
  rewrite Rabs_Ropp in *; lra.
Qed.

(** The first draw of chunk (0, 0) is [frac (sin 0 * 43758.5453) = 0]: its
    gigantic rock and its first massive rock sit on the western edge of the
    chunk, outside the corridor, and are not displaced. *)
Lemma origin_chunk_first_draw :
  pseudoRandom 0 0 0 = 0 /\ baseX 0 0 0 = -40 /\
  x (makeObstacle 0 0 (mkLayer 1 22 32) 0) = -40 /\
  x (makeObstacle 0 0 (mkLayer 3 9 15) 0) = -40.
Proof.
  assert (Hr : pseudoRandom 0 0 0 = 0).
  { unfold pseudoRandom, seedBase, offsetX, offsetZ, CHUNK_SIZE.
    cbn [INR].
    replace (0 * 80 * 123.45 + 0 * 80 * 678.91 + 0) with 0 by lra.
    rewrite sin_0, Rmult_0_l, (Math_floor_IZR 0); lra. }
  assert (Hb : baseX 0 0 0 = -40).
  { unfold baseX; cbn [Nat.mul Nat.add]; rewrite Hr.
    unfold offsetX, CHUNK_SIZE; lra. }
  assert (Hx : forall layer,
            8.0 < scale (makeObstacle 0 0 layer 0) ->
            x (makeObstacle 0 0 layer 0) = -40).
  { intros layer Hs.
    destruct (makeObstacle_clearance 0 0 layer 0 Hs)
      as (_ & _ & [[_ Hkeep] | [Hin _]]).
    - rewrite Hkeep; exact Hb.
    - rewrite Hb in Hin; unfold Rabs in Hin; destruct (Rcase_abs _); lra. }
  split; [exact Hr | split; [exact Hb | split]]; apply Hx.
  - pose proof (makeObstacle_scale 0 0 (mkLayer 1 22 32) 0) as Hs.
    cbn [minScale maxScale] in Hs; lra.
  - pose proof (makeObstacle_scale 0 0 (mkLayer 3 9 15) 0) as Hs.
    cbn [minScale maxScale] in Hs; lra.
Qed.

(** * Terrain, scene, sessions: further properties *)

(** ** The height field *)

Lemma hash_range (x z : R) : 0 <= Noise.hash x z < 1.
Proof. unfold Noise.hash; cbv zeta; apply floor_frac_bounds. Qed.

Lemma smoothstep_range (t : R) : 0 <= t < 1 -> 0 <= t * t * (3.0 - 2.0 * t) <= 1.
Proof.
  intros H; split.
  - apply Rmult_le_pos; [apply Rle_0_sqr | lra].
  - assert (Hk : 0 <= (1 - t) * (1 - t) * (1 + 2 * t))
      by (apply Rmult_le_pos; [apply Rle_0_sqr | lra]).
    replace 3.0 with 3 by lra; replace 2.0 with 2 by lra.
    replace (t * t * (3 - 2 * t))
      with (1 - (1 - t) * (1 - t) * (1 + 2 * t)) by ring.
    lra.
Qed.

Lemma mix_range (a b u : R) :
  0 <= a < 1 -> 0 <= b < 1 -> 0 <= u <= 1 -> 0 <= a * (1.0 - u) + b * u < 1.
Proof.
  intros Ha Hb Hu; split.
  - apply Rplus_le_le_0_compat; apply Rmult_le_pos; lra.
  - replace 1.0 with 1 by lra.
    replace (a * (1 - u) + b * u)
      with (1 - ((1 - a) * (1 - u) + (1 - b) * u)) by ring.
    destruct (Rle_lt_or_eq_dec 0 u (proj1 Hu)) as [Hpos | Hzero].
    + assert (0 <= (1 - a) * (1 - u)) by (apply Rmult_le_pos; lra).
      assert (0 < (1 - b) * u) by (apply Rmult_lt_0_compat; lra).
      lra.
    + subst u; lra.
Qed.

Lemma noise_range (x z : R) : 0 <= Noise.noise x z < 1.
Proof.
  unfold Noise.noise; cbv zeta.
  pose proof (smoothstep_range _ (floor_frac_bounds x)) as Hu.
  pose proof (smoothstep_range _ (floor_frac_bounds z)) as Hv.
  apply mix_range; [apply mix_range | apply mix_range | exact Hv];
    try apply hash_range; exact Hu.
Qed.

Lemma noise_lattice (i j : Z) :
  Noise.noise (IZR i) (IZR j) = Noise.hash (IZR i) (IZR j).
Proof.
  unfold Noise.noise; cbv zeta.
  rewrite !Math_floor_IZR.
  replace (IZR i - IZR i) with 0 by ring.
  replace (IZR j - IZR j) with 0 by ring.
  lra.
Qed.

(** X1. The hash of [noise.ts] is a fractional part, so it lies in [0, 1);
    the value noise built on it, a smoothstep mix of four hashes, and
    [fastNoise] lie in [0, 1) as well, and at a point with integer
    coordinates the noise is the hash of that point. *)
Theorem value_noise_unit_interval (x z : R) (i j : Z) :
  (0 <= Noise.hash x z < 1) /\
  (0 <= Noise.noise x z < 1) /\
  (0 <= Noise.fastNoise x z < 1) /\
  Noise.noise (IZR i) (IZR j) = Noise.hash (IZR i) (IZR j).
Proof.
  split; [apply hash_range |].
  split; [apply noise_range |].
  split; [apply noise_range | apply noise_lattice].
Qed.

Lemma simpleNoise_range (x z seed : R) :
  -6.6 <= Noise.simpleNoise x z seed < 9.3.
Proof.
  unfold Noise.simpleNoise; cbv zeta.
  match goal with
  | |- _ <= (Noise.noise ?a1 ?b1 + 0.5 * Noise.noise ?a2 ?b2
             + 0.25 * Noise.noise ?a3 ?b3 - 0.7) * 6.0
            + (sin ?s * 1.2 + cos ?c * 1.2) + Noise.noise ?a4 ?b4 * 0.6 < _ =>
      pose proof (SIN_bound s); pose proof (COS_bound c);
      pose proof (noise_range a1 b1); pose proof (noise_range a2 b2);
      pose proof (noise_range a3 b3); pose proof (noise_range a4 b4)
  end.
  lra.
Qed.

Lemma getBaseTerrainHeight_range (wx wz : R) :
  -8.6 <= getBaseTerrainHeight wx wz < 7.3.
Proof.
  unfold getBaseTerrainHeight; pose proof (simpleNoise_range wx wz 42); lra.
Qed.

(** X2. The height field is bounded: [simpleNoise] stays in [-6.6, 9.3)
    whatever the point and the seed (elevation in [0, 1.75), swell within
    2.4, roughness under 0.6), so the base terrain height of the rover
    stays in [-8.6, 7.3). *)
Theorem terrain_height_range (x z seed : R) :
  (-6.6 <= Noise.simpleNoise x z seed < 9.3) /\
  (-8.6 <= getBaseTerrainHeight x z < 7.3).
Proof. split; [apply simpleNoise_range | apply getBaseTerrainHeight_range]. Qed.

(** ** Obstacles and their chunk *)

Lemma chunk_of_corridor (cx : Z) (r : R) :
  0 <= r < 1 -> Rabs ((r - 0.5) * CHUNK_SIZE + offsetX cx) < SAFE_ZONE ->
  cx = 0%Z.
Proof.
  unfold CHUNK_SIZE, SAFE_ZONE, offsetX, CHUNK_SIZE; intros Hr Habs.
  apply Rabs_def2 in Habs.
  destruct (Z_le_gt_dec cx (-1)) as [Hneg | Hneg].
  - apply IZR_le in Hneg; lra.
  - destruct (Z_le_gt_dec 1 cx) as [Hpos | Hpos].
    + apply IZR_le in Hpos; lra.
    + lia.
Qed.

Lemma makeObstacle_inside (cx cz : Z) (layer : RockLayer) (i : nat) :
  let o := makeObstacle cx cz layer i in
  (offsetX cx - 40 <= x o < offsetX cx + 40) /\
  (offsetZ cz - 40 <= z o < offsetZ cz + 40).
Proof.
  cbv zeta.
  pose proof (pseudoRandom_range cx cz (i * 3 + 0)) as H1.
  pose proof (pseudoRandom_range cx cz (i * 3 + 1)) as H2.
  split.
  - unfold makeObstacle; cbv zeta; cbn [x].
    destruct (gtb _ 8.0); [| unfold CHUNK_SIZE; lra].
    destruct (ltb (Math_abs _) SAFE_ZONE) eqn:Hin; [| unfold CHUNK_SIZE; lra].
    apply ltb_true in Hin.
    pose proof (chunk_of_corridor cx _ H1 Hin) as ->.
    unfold offsetX, SAFE_ZONE, CHUNK_SIZE.
    destruct (geb _ 0); lra.
  - unfold makeObstacle; cbv zeta; cbn [z]; unfold CHUNK_SIZE; lra.
Qed.

Lemma generated_inside (cx cz : Z) (o : Obstacle) :
  In o (getObstaclesInChunk cx cz) ->
  (offsetX cx - 40 <= x o < offsetX cx + 40) /\
  (offsetZ cz - 40 <= z o < offsetZ cz + 40).
Proof.
  intros Hin; apply In_getObstaclesInChunk in Hin.
  destruct Hin as (layer & i & _ & _ & ->).
  apply makeObstacle_inside.
Qed.

Lemma Rabs_le_between (a b : R) : Rabs a <= b -> - b <= a <= b.
Proof. unfold Rabs; destruct (Rcase_abs a); lra. Qed.

Lemma Math_round_near (v : R) : Rabs (v - IZR (Math_round v)) <= 0.5.
Proof.
  unfold Math_round.
  destruct (base_Int_part (v + 0.5)) as [Hle Hgt].
  apply Rabs_le; lra.
Qed.

Lemma neighbourhood_spec (xx zz : Z) :
  In (xx, zz) neighbourhood <->
  (Z.abs xx <= 1 /\ Z.abs zz <= 1)%Z.
Proof.
  unfold neighbourhood; cbn.
  split.
  - intros H; repeat destruct H as [H | H]; try easy;
      injection H; intros; lia.
  - intros [Hx Hz].
    assert (Hxx : xx = (-1)%Z \/ xx = 0%Z \/ xx = 1%Z) by lia.
    assert (Hzz : zz = (-1)%Z \/ zz = 0%Z \/ zz = 1%Z) by lia.
    destruct Hxx as [-> | [-> | ->]]; destruct Hzz as [-> | [-> | ->]]; tauto.
Qed.

Lemma far_chunk_axis (p : R) (k : Z) (v : R) :
  let c := Math_round (p / CHUNK_SIZE) in
  (2 <= Z.abs (k - c))%Z ->
  IZR k * CHUNK_SIZE - 40 <= v < IZR k * CHUNK_SIZE + 40 ->
  80 <= Rabs (p - v).
Proof.
  cbv zeta; unfold CHUNK_SIZE; intros Hfar Hv.
  pose proof (Math_round_near (p / 80)) as Hn.
  apply Rabs_le_between in Hn.
  set (c := Math_round (p / 80)) in *.
  assert (Hp : p = p / 80 * 80) by lra.
  destruct (Z_le_gt_dec (k - c) (-2)) as [Hlo | Hlo].
  - assert (Hk : IZR k <= IZR c - 2).
    { rewrite <- minus_IZR; apply IZR_le; lia. }
    rewrite Rabs_right; lra.
  - assert (Hk : IZR c + 2 <= IZR k).
    { rewrite <- plus_IZR; apply IZR_le; lia. }
    rewrite Rabs_left1; lra.
Qed.

Lemma Rabs_le_horizontalDistance (px pz : R) (o : Obstacle) :
  Rabs (px - x o) <= horizontalDistance px pz o /\
  Rabs (pz - z o) <= horizontalDistance px pz o.
Proof.
  unfold horizontalDistance.
  split.
  - rewrite <- sqrt_Rsqr_abs; apply sqrt_le_1_alt; unfold Rsqr.
    pose proof (Rle_0_sqr (pz - z o)) as H; unfold Rsqr in H; lra.
  - rewrite <- sqrt_Rsqr_abs; apply sqrt_le_1_alt; unfold Rsqr.
    pose proof (Rle_0_sqr (px - x o)) as H; unfold Rsqr in H; lra.
Qed.

(** X3. The cache misses no rock within reach: an obstacle generated for any
    chunk that is closer than 80 to a point belongs to the nine chunks
    loaded around the chunk of that point; its exclusion radius is at most
    28 and its cover radius at most 35.2. *)
Theorem cache_holds_all_near (px pz : R) (kx kz : Z) (o : Obstacle) :
  In o (getObstaclesInChunk kx kz) ->
  horizontalDistance px pz o < 80 ->
  In o (loadChunks (Math_round (px / CHUNK_SIZE))
                   (Math_round (pz / CHUNK_SIZE))) /\
  minDist o <= 28 /\ scale o * 1.1 <= 35.2.
Proof.
  intros Hin Hnear.
  destruct (generated_inside _ _ _ Hin) as [Hx Hz].
  pose proof (generated_scale _ _ _ Hin) as Hs.
  destruct (Rabs_le_horizontalDistance px pz o) as [Hdx Hdz].
  split; [| unfold minDist, roverRadius; lra].
  set (cx := Math_round (px / CHUNK_SIZE)).
  set (cz := Math_round (pz / CHUNK_SIZE)).
  assert (Hkx : (Z.abs (kx - cx) <= 1)%Z).
  { destruct (Z_le_gt_dec 2 (Z.abs (kx - cx))) as [Hfar |]; [| lia].
    pose proof (far_chunk_axis px kx (x o) Hfar Hx); lra. }
  assert (Hkz : (Z.abs (kz - cz) <= 1)%Z).
  { destruct (Z_le_gt_dec 2 (Z.abs (kz - cz))) as [Hfar |]; [| lia].
    pose proof (far_chunk_axis pz kz (z o) Hfar Hz); lra. }
  unfold loadChunks; apply in_flat_map.
  exists ((kx - cx)%Z, (kz - cz)%Z); split.
  - apply neighbourhood_spec; split; assumption.
  - replace (cx + (kx - cx))%Z with kx by lia.
    replace (cz + (kz - cz))%Z with kz by lia.
    exact Hin.
Qed.

Lemma cache_holds_all_near_witness :
  let o := makeObstacle 0 0 (mkLayer 1 22 32) 0 in
  In o (getObstaclesInChunk 0 0) /\
  horizontalDistance (-40) 0 o < 80 /\
  In o (loadChunks (Math_round (-40 / CHUNK_SIZE))
                   (Math_round (0 / CHUNK_SIZE))).
Proof.
  cbv zeta.
  assert (Hin : In (makeObstacle 0 0 (mkLayer 1 22 32) 0)
                   (getObstaclesInChunk 0 0)).
  { apply In_getObstaclesInChunk.
    exists (mkLayer 1 22 32), 0%nat; cbn; repeat split; auto. }
  assert (Hnear : horizontalDistance (-40) 0
                    (makeObstacle 0 0 (mkLayer 1 22 32) 0) < 80).
  { destruct origin_chunk_first_draw as (_ & _ & Hx & _).
    destruct (makeObstacle_inside 0 0 (mkLayer 1 22 32) 0) as [_ Hz].
    unfold offsetZ, CHUNK_SIZE in Hz.
    unfold horizontalDistance; rewrite Hx.
    apply sqrt_lt_sq; [apply sum_sq_nonneg | lra | nra]. }
  split; [exact Hin | split; [exact Hnear |]].
  exact (proj1 (cache_holds_all_near (-40) 0 0 0 _ Hin Hnear)).
Defined.

(** X4. Every obstacle generated for a chunk lies inside the square of that
    chunk, the giants moved out of the corridor included; so the nine-chunk
    cache holds 261 obstacles, all within 120 of the centre of its middle
    chunk on both axes. *)
Theorem obstacles_inside_their_chunk (cx cz : Z) :
  Forall (fun o =>
            (IZR cx * 80 - 40 <= x o < IZR cx * 80 + 40) /\
            (IZR cz * 80 - 40 <= z o < IZR cz * 80 + 40))
         (getObstaclesInChunk cx cz) /\
  Forall (fun o =>
            (IZR cx * 80 - 120 <= x o < IZR cx * 80 + 120) /\
            (IZR cz * 80 - 120 <= z o < IZR cz * 80 + 120))
         (loadChunks cx cz) /\
  List.length (loadChunks cx cz) = 261%nat.
Proof.
  split; [| split].
  - apply Forall_forall; intros o Hin.
    apply generated_inside in Hin; unfold offsetX, offsetZ, CHUNK_SIZE in Hin.
    exact Hin.
  - apply Forall_forall; intros o Hin.
    unfold loadChunks in Hin; apply in_flat_map in Hin.
    destruct Hin as ([xx zz] & Hn & Hin).
    apply neighbourhood_spec in Hn; destruct Hn as [Hx Hz].
    apply generated_inside in Hin; unfold offsetX, offsetZ, CHUNK_SIZE in Hin.
    rewrite !plus_IZR in Hin.
    assert (-1 <= IZR xx <= 1) by (split; apply IZR_le; lia).
    assert (-1 <= IZR zz <= 1) by (split; apply IZR_le; lia).
    lra.
  - unfold loadChunks, neighbourhood; cbn [flat_map map app].
    rewrite !length_app, !getObstaclesInChunk_layers.
    cbn [ROCK_LAYERS flat_map]; unfold layerObstacles.
    rewrite !length_app, !length_map, !length_seq; reflexivity.
Qed.

(** ** The scene and the cache *)

Lemma tier_triples (kx kz : Z) :
  map placedTriple
      (flat_map (fun t => ScatteredRocks.placements
                            (ScatteredRocks.tierProps kx kz t)) ROCK_LAYERS) =
  map triple (getObstaclesInChunk kx kz).
Proof.
  rewrite getObstaclesInChunk_layers.
  induction ROCK_LAYERS as [| layer ls IH]; [reflexivity |].
  cbn [flat_map]; rewrite !map_app, IH; f_equal.
  rewrite placements_seq; unfold layerObstacles; rewrite !map_map.
  apply map_ext; intros i; apply place_makeObstacle.
Qed.

Lemma place_scale (props : ScatteredRocks.Props) (i : nat) :
  ScatteredRocks.p_minScale props <= ScatteredRocks.p_maxScale props ->
  ScatteredRocks.p_minScale props
  <= ScatteredRocks.rockScale (ScatteredRocks.place props i)
  <= ScatteredRocks.p_maxScale props.
Proof.
  intros Hle.
  assert (Hr : 0 <= ScatteredRocks.pseudoRandom props (i * 3 + 2) < 1)
    by apply floor_frac_bounds.
  unfold ScatteredRocks.place; cbv zeta.
  destruct (if gtb _ 8.0 then _ else _) as [wx lx].
  cbn [ScatteredRocks.rockScale]; nra.
Qed.

Lemma centerOf_round (tx tz : R) (c : Z * Z) :
  Scene.centerOf tx tz c =
  (Math_round (tx / CHUNK_SIZE), Math_round (tz / CHUNK_SIZE)).
Proof.
  unfold Scene.centerOf; cbv zeta.
  destruct (Z.eqb_spec (Math_round (tx / CHUNK_SIZE)) (fst c)) as [Hx | Hx];
    destruct (Z.eqb_spec (Math_round (tz / CHUNK_SIZE)) (snd c)) as [Hz | Hz];
    cbn [negb orb]; try reflexivity.
  rewrite Hx, Hz; destruct c; reflexivity.
Qed.

Lemma refreshCache_round (pos : Vector3.t) (last : Z * Z)
    (cache : list Obstacle) :
  fst (refreshCache pos last cache) =
  (Math_round (Vector3.x pos / CHUNK_SIZE),
   Math_round (Vector3.z pos / CHUNK_SIZE)).
Proof.
  unfold refreshCache; cbv zeta.
  destruct (Z.eqb_spec (Math_round (Vector3.x pos / CHUNK_SIZE)) (fst last))
    as [Hx | Hx];
    destruct (Z.eqb_spec (Math_round (Vector3.z pos / CHUNK_SIZE)) (snd last))
      as [Hz | Hz]; cbn [negb orb fst]; try reflexivity.
  rewrite Hx, Hz; destruct last; reflexivity.
Qed.

(** X5. For the same point the scene and the rover settle on the same centre
    chunk, and the rocks the scene draws in the first three tiers of its
    nine chunks are, in order, at the positions and scales of the obstacles
    of the rover's cache.  The pebbles of the fourth tier (scale at most
    0.4) have no obstacle: every cached obstacle has scale 1.5 or more. *)
Theorem scene_draws_the_cached_rocks (pos : Vector3.t) (center last : Z * Z)
    (cache : list Obstacle) :
  let c := Scene.centerOf (Vector3.x pos) (Vector3.z pos) center in
  let r := refreshCache pos last cache in
  c = fst r /\
  map placedTriple
      (flat_map (fun chunk =>
                   flat_map (fun tier => ScatteredRocks.placements
                                           (Scene.rockProps chunk tier))
                            (firstn 3 Scene.tiers))
                (Scene.chunks c)) =
  map triple (loadChunks (fst c) (snd c)) /\
  Forall (fun chunk =>
            Forall (fun p => ScatteredRocks.rockScale p <= 0.4)
                   (ScatteredRocks.placements
                      (Scene.rockProps chunk (mkLayer 100 0.1 0.4))))
         (Scene.chunks c) /\
  Forall (fun o => 1.5 <= scale o) (loadChunks (fst c) (snd c)).
Proof.
  cbv zeta; rewrite centerOf_round, refreshCache_round.
  set (cx := Math_round (Vector3.x pos / CHUNK_SIZE)).
  set (cz := Math_round (Vector3.z pos / CHUNK_SIZE)).
  split; [reflexivity |]; cbn [fst snd].
  split; [| split].
  - change (firstn 3 Scene.tiers) with ROCK_LAYERS.
    unfold Scene.chunks, loadChunks, neighbourhood.
    cbn [flat_map map app fst snd]; rewrite !app_nil_r, !map_app.
    repeat match goal with
    | |- context [flat_map (fun tier => ScatteredRocks.placements
                             (Scene.rockProps
                                (Scene.mkChunk _ (IZR ?kx * _) (IZR ?kz * _))
                                tier)) ROCK_LAYERS] =>
        change (flat_map (fun tier => ScatteredRocks.placements
                            (Scene.rockProps
                               (Scene.mkChunk _ (IZR kx * CHUNK_SIZE)
                                              (IZR kz * CHUNK_SIZE)) tier))
                         ROCK_LAYERS)
          with (flat_map (fun t => ScatteredRocks.placements
                                     (ScatteredRocks.tierProps kx kz t))
                         ROCK_LAYERS);
        rewrite (tier_triples kx kz)
    end.
    reflexivity.
  - apply Forall_forall; intros chunk _.
    apply Forall_forall; intros p Hp.
    rewrite placements_seq in Hp; apply in_map_iff in Hp.
    destruct Hp as (i & <- & _).
    pose proof (place_scale (Scene.rockProps chunk (mkLayer 100 0.1 0.4)) i)
      as Hs.
    cbn [Scene.rockProps ScatteredRocks.p_minScale ScatteredRocks.p_maxScale
         minScale maxScale] in Hs.
    apply Hs; lra.
  - eapply Forall_impl; [| apply loadChunks_scale]; cbn; intros; lra.
Qed.

(** X6. The colour band of a texture pixel is one of 4/8, 5/8, 6/8, 7/8, 8/8:
    [fastNoise] is never negative, so after the shift by 0.5 the four lower
    bands are never used. *)
Theorem texture_uses_upper_bands (chunkSize offsetX offsetZ : R) (x y : nat) :
  exists k : Z,
    (4 <= k <= 8)%Z /\
    MarsTerrain.band chunkSize offsetX offsetZ x y = IZR k / 8.
Proof.
  unfold MarsTerrain.band; cbv zeta.
  match goal with
  | |- context [Noise.fastNoise ?a ?b] =>
      pose proof (noise_range (a * 0.1) (b * 0.1)) as Hn;
      change (Noise.noise (a * 0.1) (b * 0.1)) with (Noise.fastNoise a b) in Hn;
      set (n := Noise.fastNoise a b) in *
  end.
  clearbody n.
  assert (Hnorm : 0.5 <= Math_max 0 (Math_min 1 (n + 0.5)) <= 1).
  { unfold Math_max, Math_min; repeat split_cmp; lra. }
  set (norm := Math_max 0 (Math_min 1 (n + 0.5))) in *; clearbody norm.
  unfold Math_floor.
  destruct (base_Int_part (norm * 8)) as [Hle Hgt].
  exists (Int_part (norm * 8)); split; [| reflexivity].
  split.
  - assert (H : (3 < Int_part (norm * 8))%Z) by (apply lt_IZR; lra).
    lia.
  - apply le_IZR; lra.
Qed.

(** ** The bounding sphere of the rock instances *)

Lemma sqrt_le_sq (d r : R) : 0 <= r -> d <= r * r -> sqrt d <= r.
Proof.
  intros Hr Hd.
  rewrite <- (sqrt_square r) by exact Hr.
  apply sqrt_le_1_alt; exact Hd.
Qed.

Lemma SQRT2_bounds : 1.4 <= Math_SQRT2 /\ Math_SQRT2 * Math_SQRT2 = 2.
Proof.
  unfold Math_SQRT2; split.
  - rewrite <- (sqrt_square 1.4) by lra.
    apply sqrt_le_1_alt; lra.
  - apply sqrt_sqrt; lra.
Qed.

Lemma place_local (cx cz : Z) (tier : RockLayer) (i : nat) :
  0 <= minScale tier <= maxScale tier ->
  let props := ScatteredRocks.tierProps cx cz tier in
  let '(lx, y, lz) := ScatteredRocks.localPos (ScatteredRocks.place props i) in
  -40 <= lx < 40 /\ -40 <= lz < 40 /\
  - 8.8 - 0.4 * maxScale tier <= y < 7.1.
Proof.
  intros Hs; cbv zeta.
  set (props := ScatteredRocks.tierProps cx cz tier).
  assert (H1 : 0 <= ScatteredRocks.pseudoRandom props (i * 3 + 0) < 1)
    by apply floor_frac_bounds.
  assert (H2 : 0 <= ScatteredRocks.pseudoRandom props (i * 3 + 1) < 1)
    by apply floor_frac_bounds.
  assert (H3 : 0 <= ScatteredRocks.pseudoRandom props (i * 3 + 2) < 1)
    by apply floor_frac_bounds.
  unfold ScatteredRocks.place; cbv zeta.
  set (r1 := ScatteredRocks.pseudoRandom props (i * 3 + 0)) in *.
  set (r2 := ScatteredRocks.pseudoRandom props (i * 3 + 1)) in *.
  set (r3 := ScatteredRocks.pseudoRandom props (i * 3 + 2)) in *.
  cbn [props ScatteredRocks.tierProps ScatteredRocks.p_minScale
       ScatteredRocks.p_maxScale ScatteredRocks.p_chunkSize
       ScatteredRocks.p_offsetX ScatteredRocks.p_offsetZ].
  assert (Hsc : 0 <= minScale tier + r3 * (maxScale tier - minScale tier)
                <= maxScale tier) by nra.
  set (s := minScale tier + r3 * (maxScale tier - minScale tier)) in *.
  assert (Hlocal :
    forall wx lx : R, -40 <= lx < 40 ->
      let groundHeight := Noise.simpleNoise wx ((r2 - 0.5) * CHUNK_SIZE
                                                + IZR cz * CHUNK_SIZE) 42 in
      -40 <= lx < 40 /\ -40 <= (r2 - 0.5) * CHUNK_SIZE < 40 /\
      - 8.8 - 0.4 * maxScale tier
      <= -2 + groundHeight - s * 0.4 - 0.2 < 7.1).
  { intros wx lx Hlx; cbv zeta.
    pose proof (simpleNoise_range wx ((r2 - 0.5) * CHUNK_SIZE
                                      + IZR cz * CHUNK_SIZE) 42).
    unfold CHUNK_SIZE in *; repeat split; lra. }
  destruct (gtb s 8.0); [| apply Hlocal; unfold CHUNK_SIZE; lra].
  destruct (ltb (Math_abs _) SAFE_ZONE) eqn:Hin;
    [| apply Hlocal; unfold CHUNK_SIZE; lra].
  apply ltb_true in Hin.
  pose proof (chunk_of_corridor cx r1 H1 Hin) as ->.
  apply Hlocal; unfold SAFE_ZONE, CHUNK_SIZE.
  destruct (geb _ 0); lra.
Qed.

(** X7. The bounding sphere that [ScatteredRocks] sets for frustum culling
    holds the centre of every rock instance of a chunk tier, for any tier
    with 0 <= minScale <= maxScale. *)
Theorem instances_inside_bounding_sphere (cx cz : Z) (tier : RockLayer) :
  0 <= minScale tier <= maxScale tier ->
  let props := ScatteredRocks.tierProps cx cz tier in
  Forall (fun p =>
            Vector3.length
              (let '(lx, y, lz) := ScatteredRocks.localPos p in
               Vector3.mk lx y lz)
            <= ScatteredRocks.boundingRadius props)
         (ScatteredRocks.placements props).
Proof.
  intros Hs; cbv zeta.
  apply Forall_forall; intros p Hp.
  rewrite placements_seq in Hp; apply in_map_iff in Hp.
  destruct Hp as (i & <- & _).
  pose proof (place_local cx cz tier i Hs) as Hl; cbv zeta in Hl.
  destruct (ScatteredRocks.localPos _) as [[lx y] lz].
  destruct Hl as (Hx & Hz & Hy).
  destruct SQRT2_bounds as [Hlow Hsq].
  unfold Vector3.length, Math_sqrt, ScatteredRocks.boundingRadius.
  cbn [Vector3.x Vector3.y Vector3.z ScatteredRocks.tierProps
       ScatteredRocks.p_chunkSize ScatteredRocks.p_maxScale].
  unfold CHUNK_SIZE.
  set (m := maxScale tier) in *.
  assert (Hm : 0 <= m) by lra.
  apply sqrt_le_sq; [lra |].
  assert (Hxx : lx * lx <= 1600) by nra.
  assert (Hzz : lz * lz <= 1600) by nra.
  assert (Hyy : y * y <= (8.8 + 0.4 * m) * (8.8 + 0.4 * m)) by nra.
  replace ((80 * Math_SQRT2 / 2 + m + 5.0) * (80 * Math_SQRT2 / 2 + m + 5.0))
    with (1600 * (Math_SQRT2 * Math_SQRT2)
          + 80 * Math_SQRT2 * (m + 5) + (m + 5) * (m + 5)) by lra.
  rewrite Hsq.
  assert (Hk : 1.4 * (m + 5) <= Math_SQRT2 * (m + 5))
    by (apply Rmult_le_compat_r; lra).
  nra.
Qed.

Lemma instances_inside_bounding_sphere_witness :
  let tier := mkLayer 1 22 32 in
  0 <= minScale tier <= maxScale tier /\
  Forall (fun p =>
            Vector3.length
              (let '(lx, y, lz) := ScatteredRocks.localPos p in
               Vector3.mk lx y lz)
            <= ScatteredRocks.boundingRadius
                 (ScatteredRocks.tierProps 0 0 tier))
         (ScatteredRocks.placements (ScatteredRocks.tierProps 0 0 tier)).
Proof.
  cbv zeta.
  assert (H : 0 <= minScale (mkLayer 1 22 32) <= maxScale (mkLayer 1 22 32))
    by (cbn; lra).
  split; [exact H |].
  exact (instances_inside_bounding_sphere 0 0 (mkLayer 1 22 32) H).
Defined.

(** ** The cover search *)

Lemma nearestGiant_step (pos : Vector3.t) (l : list Obstacle)
    (acc : option R * option CoverTarget.t) (obs : Obstacle) :
  holdsNearest pos l acc ->
  holdsNearest pos (l ++ [obs])
    (let '(bestDist, target) := acc in
     if ltb (scale obs) 8.0 then acc
     else
       let dx := x obs - Vector3.x pos in
       let dz := z obs - Vector3.z pos in
       let dSq := dx * dx + dz * dz in
       if lt_inf dSq bestDist then
         let rockRadius := scale obs * 1.5 in
         (Some dSq,
          Some (CoverTarget.mk (x obs) (z obs) (Some (id obs))
                               (rockRadius + 1.5)))
       else acc).
Proof.
  destruct acc as [[d |] [t |]]; cbn [holdsNearest]; try easy.
  - intros (before & best & after & -> & Hs & Hd & Ht & Hb & Ha).
    destruct (ltb (scale obs) 8.0) eqn:Hsmall.
    + apply ltb_true in Hsmall.
      exists before, best, (after ++ [obs]).
      rewrite <- app_assoc; repeat split; auto.
      apply Forall_app; split; [exact Ha |].
      constructor; [left; lra | constructor].
    + apply ltb_false in Hsmall; cbv zeta; unfold lt_inf.
      change ((x obs - Vector3.x pos) * (x obs - Vector3.x pos)
              + (z obs - Vector3.z pos) * (z obs - Vector3.z pos))
        with (coverDistSq pos obs).
      destruct (ltb (coverDistSq pos obs) d) eqn:Hlt.
      * apply ltb_true in Hlt.
        exists (before ++ best :: after), obs, [].
        split; [reflexivity |]; split; [lra |].
        split; [reflexivity |]; split; [reflexivity |].
        split; [| constructor].
        apply Forall_app; split.
        -- eapply Forall_impl; [| exact Hb].
           cbn; intros o [Ho | Ho]; [left | right]; lra.
        -- constructor; [right; lra |].
           eapply Forall_impl; [| exact Ha].
           cbn; intros o [Ho | Ho]; [left | right]; lra.
      * apply ltb_false in Hlt.
        exists before, best, (after ++ [obs]).
        rewrite <- app_assoc; repeat split; auto.
        apply Forall_app; split; [exact Ha |].
        constructor; [right; lra | constructor].
  - intros Hall.
    destruct (ltb (scale obs) 8.0) eqn:Hsmall.
    + apply ltb_true in Hsmall; cbn [holdsNearest].
      apply Forall_app; split; [exact Hall |].
      constructor; [lra | constructor].
    + apply ltb_false in Hsmall; cbv zeta; cbn [lt_inf holdsNearest].
      exists l, obs, [].
      split; [reflexivity |]; split; [lra |].
      split; [reflexivity |]; split; [reflexivity |].
      split; [| constructor].
      eapply Forall_impl; [| exact Hall]; cbn; intros; left; assumption.
Qed.

Lemma nearestGiant_holds (pos : Vector3.t) (nearby : list Obstacle) :
  holdsNearest pos nearby (nearestGiant pos nearby).
Proof.
  unfold nearestGiant.
  induction nearby as [| obs l IH] using rev_ind.
  - cbn; constructor.
  - rewrite fold_left_app; cbn [fold_left].
    exact (nearestGiant_step pos l _ obs IH).
Qed.

(** ** The fields a phase of the frame writes *)

Ltac open_agent a :=
  destruct a as [?f ?f ?f ?f ?f ?f ?f ?f ?f ?f ?f ?f ?f ?f ?f ?f ?f].

Ltac unfold_setters :=
  cbv [set_yaw set_steerAngle set_speed set_wheelRot set_currentCoverTarget
       set_stuckTimer set_recoveryTimer set_scanTimer set_isScanning
       set_shakePos set_shakeRot set_knockbackVel set_isAirborne
       set_retractionT set_dustLevel set_wheelVelocities set_isUnderCover
       yaw steerAngle speed wheelRot currentCoverTarget stuckTimer
       recoveryTimer scanTimer isScanning shakePos shakeRot knockbackVel
       isAirborne retractionT dustLevel wheelVelocities isUnderCover].

Ltac shape :=
  cbn [fst snd];
  repeat match goal with |- exists _, _ => eexists end;
  unfold_setters; reflexivity.

Lemma updateDust_shape (f : Frame) (a : AgentState) :
  exists v, updateDust f a = set_dustLevel v a.
Proof. open_agent a; unfold updateDust; branches; shape. Qed.

Lemma updateShake_shape (f : Frame) (a : AgentState) :
  exists p r,
    updateShake f a =
    set_knockbackVel
      (Vector3.mk (Vector3.x (knockbackVel a) * 0.85) 0
                  (Vector3.z (knockbackVel a) * 0.85))
      (set_shakeRot r (set_shakePos p a)).
Proof. open_agent a; unfold updateShake; branches; shape. Qed.

Lemma updateRetraction_shape (f : Frame) (autoPilot : bool)
    (override : option bool) (a : AgentState) :
  exists v, snd (updateRetraction f autoPilot override a) = set_retractionT v a.
Proof.
  open_agent a; unfold updateRetraction.
  destruct autoPilot; [| destruct override as [[|] |]]; branches; shape.
Qed.

Lemma seekCover_shape (pos : Vector3.t) (nearby : list Obstacle)
    (a : AgentState) (d : Decision) :
  exists sp ct,
    snd (seekCover pos nearby a d) = set_speed sp (set_currentCoverTarget ct a).
Proof.
  open_agent a; unfold seekCover; cbn [currentCoverTarget].
  match goal with
  | |- context [match ?o with Some _ => _ | None => _ end] =>
      destruct o as [t |]
  end.
  - destruct (ltb _ _); shape.
  - destruct (nearestGiant pos nearby) as [bestDist target].
    destruct (if inf_gt bestDist 900
              then scanPockets pos (bestDist, target)
              else (bestDist, target)) as [bestDist' [t |]].
    + destruct (ltb _ _); shape.
    + shape.
Qed.

Lemma decideMode_shape (f : Frame) (input : Keys) (autoPilot : bool)
    (pos : Vector3.t) (nearby : list Obstacle) (a : AgentState) :
  exists sp ct,
    snd (decideMode f input autoPilot pos nearby a) =
    set_speed sp (set_currentCoverTarget ct a).
Proof.
  unfold decideMode; cbv zeta.
  assert (H1 : exists ct,
            (if phase_eqb (meteorPhase f) IDLE
             then set_currentCoverTarget None a else a)
            = set_currentCoverTarget ct a).
  { open_agent a; destruct (phase_eqb _ _); shape. }
  destruct H1 as (ct1 & ->).
  repeat match goal with
         | |- context [if ?b then _ else _] => destruct b
         end;
    try (open_agent a; shape).
  destruct (seekCover_shape pos nearby (set_currentCoverTarget ct1 a)
              (mkDecision 0 0 3.0 2.0 false false)) as (sp & ct & ->).
  open_agent a; shape.
Qed.

Lemma steeringUpdate_shape (f : Frame) (s : SearchState) (d : Decision)
    (a : AgentState) :
  exists stt rct sa,
    snd (steeringUpdate f s d a) =
    set_stuckTimer stt (set_recoveryTimer rct (set_steerAngle sa a)).
Proof. open_agent a; unfold steeringUpdate; branches; shape. Qed.

Lemma raycastSteering_shape (f : Frame) (frameCount : nat) (pos : Vector3.t)
    (nearby : list Obstacle) (d : Decision) (a : AgentState) :
  exists stt rct sa,
    snd (raycastSteering f frameCount pos nearby d a) =
    set_stuckTimer stt (set_recoveryTimer rct (set_steerAngle sa a)).
Proof.
  unfold raycastSteering; destruct (_ && _).
  - apply steeringUpdate_shape.
  - open_agent a; shape.
Qed.

Lemma integrateDrive_shape (f : Frame) (input : Keys) (d : Decision)
    (a : AgentState) :
  exists yw sp sa,
    integrateDrive f input d a = set_yaw yw (set_speed sp (set_steerAngle sa a)).
Proof. open_agent a; unfold integrateDrive; branches; shape. Qed.

Lemma moveRover_shape (f : Frame) (nearby : list Obstacle) (pos : Vector3.t)
    (a : AgentState) :
  exists sp,
    snd (moveRover f nearby pos a) =
    set_speed sp
      (set_isUnderCover
         (underCover
            (resolveCollisions nearby
               (Vector3.x pos - sin (yaw a) * speed a * delta f
                + Vector3.x (knockbackVel a) * delta f)
               (Vector3.z pos - cos (yaw a) * speed a * delta f
                + Vector3.z (knockbackVel a) * delta f))) a).
Proof. open_agent a; unfold moveRover; cbv zeta; branches; shape. Qed.

Lemma navigate_agent (f : Frame) (st : Rover) :
  nav_agent (navigate f st) =
  snd (raycastSteering f (frameCount st + 1) (roverPos st) (frameCache st)
         (fst (frameMode f st)) (snd (frameMode f st))) /\
  nav_decision (navigate f st) =
  fst (raycastSteering f (frameCount st + 1) (roverPos st) (frameCache st)
         (fst (frameMode f st)) (snd (frameMode f st))).
Proof.
  unfold navigate, frameMode, frameCache.
  destruct (prepare f st) as [ov a1]; cbn [snd].
  destruct (refreshCache _ _ _) as [last cache]; cbn [snd].
  destruct (decideMode _ _ _ _ _ _) as [d a2]; cbn [fst snd].
  destruct (raycastSteering _ _ _ _ _ _) as [d3 a3]; split; reflexivity.
Qed.

Lemma prepare_shape (f : Frame) (st : Rover) :
  exists v,
    snd (prepare f st) =
    set_retractionT v (updateShake f (updateDust f (agentState st))).
Proof. unfold prepare; apply updateRetraction_shape. Qed.

Lemma navigate_agent_shape (f : Frame) (st : Rover) :
  exists stt rct sa sp ct v,
    nav_agent (navigate f st) =
    set_stuckTimer stt
      (set_recoveryTimer rct
         (set_steerAngle sa
            (set_speed sp
               (set_currentCoverTarget ct
                  (set_retractionT v
                     (updateShake f (updateDust f (agentState st)))))))).
Proof.
  destruct (navigate_agent f st) as [-> _].
  destruct (raycastSteering_shape f (frameCount st + 1) (roverPos st)
              (frameCache st) (fst (frameMode f st)) (snd (frameMode f st)))
    as (stt & rct & sa & ->).
  unfold frameMode.
  destruct (decideMode_shape f (keysPressed st) (autoPilotRef st)
              (roverPos st) (frameCache st) (snd (prepare f st)))
    as (sp & ct & ->).
  destruct (prepare_shape f st) as (v & ->).
  exists stt, rct, sa, sp, ct, v; reflexivity.
Qed.

Lemma useFrame_agent (f : Frame) (st : Rover) :
  exists vs,
    agentState (useFrame f st) =
    set_wheelVelocities vs
      (snd (moveRover f (frameCache st) (roverPos st)
              (drive f st (navigate f st)))).
Proof.
  unfold useFrame.
  destruct (navigate_cache f st) as [-> _].
  destruct (moveRover _ _ _ _) as [pos a4].
  destruct (suspensionUpdate _ _ _ _ _) as [ys vs].
  exists vs; reflexivity.
Qed.

(** The agent a frame leaves, field by field for what only one phase of
    the frame writes. *)
Lemma useFrame_fields (f : Frame) (st : Rover) :
  let a := agentState st in
  let a' := agentState (useFrame f st) in
  dustLevel a' = dustLevel (updateDust f a) /\
  knockbackVel a' =
    Vector3.mk (Vector3.x (knockbackVel a) * 0.85) 0
               (Vector3.z (knockbackVel a) * 0.85) /\
  scanTimer a' = scanTimer (updateScan f a) /\
  isScanning a' = isScanning (updateScan f a) /\
  retractionT a' = retractionT (snd (prepare f st)) /\
  currentCoverTarget a' = currentCoverTarget (snd (frameMode f st)).
Proof.
  cbv zeta.
  assert (Hct : currentCoverTarget (agentState (useFrame f st))
                = currentCoverTarget (snd (frameMode f st))).
  { destruct (useFrame_agent f st) as (vs & ->).
    destruct (moveRover_shape f (frameCache st) (roverPos st)
                (drive f st (navigate f st))) as (sp2 & ->).
    unfold drive.
    destruct (integrateDrive_shape f (keysPressed st)
                (nav_decision (navigate f st)) (nav_agent (navigate f st)))
      as (yw & sp1 & sa1 & ->).
    destruct (navigate_agent f st) as [-> _].
    destruct (raycastSteering_shape f (frameCount st + 1) (roverPos st)
                (frameCache st) (fst (frameMode f st)) (snd (frameMode f st)))
      as (stt & rct & sa & ->).
    generalize (snd (frameMode f st)); intros a; open_agent a.
    unfold updateWheelRot, updateScan; branches; reflexivity. }
  assert (Hrt : retractionT (agentState (useFrame f st))
                = retractionT (snd (prepare f st))).
  { destruct (useFrame_motion f st) as (_ & _ & Htm).
    destruct (timers_eq _ _ Htm) as (_ & _ & ->).
    destruct (navigate_agent f st) as [-> _].
    destruct (raycastSteering_shape f (frameCount st + 1) (roverPos st)
                (frameCache st) (fst (frameMode f st)) (snd (frameMode f st)))
      as (stt & rct & sa & ->).
    unfold frameMode.
    destruct (decideMode_shape f (keysPressed st) (autoPilotRef st)
                (roverPos st) (frameCache st) (snd (prepare f st)))
      as (sp & ct & ->).
    generalize (snd (prepare f st)); intros a; open_agent a; reflexivity. }
  destruct (useFrame_agent f st) as (vs & Hu).
  destruct (moveRover_shape f (frameCache st) (roverPos st)
              (drive f st (navigate f st))) as (sp2 & Hm).
  rewrite Hm in Hu; clear Hm.
  unfold drive in Hu.
  destruct (integrateDrive_shape f (keysPressed st)
              (nav_decision (navigate f st)) (nav_agent (navigate f st)))
    as (yw & sp1 & sa1 & Hi).
  rewrite Hi in Hu; clear Hi.
  destruct (navigate_agent_shape f st) as (stt & rct & sa & sp & ct & v & Hn).
  rewrite Hn in Hu; clear Hn.
  destruct (updateShake_shape f (updateDust f (agentState st)))
    as (p & r & Hs).
  rewrite Hs in Hu; clear Hs.
  destruct (updateDust_shape f (agentState st)) as (dv & Hd).
  assert (Hkb : knockbackVel (updateDust f (agentState st))
                = knockbackVel (agentState st))
    by (rewrite Hd; generalize (agentState st); intros a; open_agent a;
        reflexivity).
  rewrite Hkb in Hu.
  split; [| split; [| split; [| split; [| split; [exact Hrt | exact Hct]]]]].
  - rewrite Hu; generalize (updateDust f (agentState st)); intros a.
    open_agent a; unfold updateWheelRot, updateScan; branches; reflexivity.
  - rewrite Hu; generalize (updateDust f (agentState st)); intros a.
    open_agent a; unfold updateWheelRot, updateScan; branches; reflexivity.
  - rewrite Hu, Hd; generalize (agentState st); intros a.
    open_agent a; unfold updateWheelRot, updateScan; unfold_setters.
    branches; reflexivity.
  - rewrite Hu, Hd; generalize (agentState st); intros a.
    open_agent a; unfold updateWheelRot, updateScan; unfold_setters.
    branches; reflexivity.
Qed.

(** ** Suspension travel through the frames *)

Lemma suspensionStep_integrate (pos : R * R * R) (dt desiredLocalY currentY
    velocity : R) :
  let newY := fst (springIntegrate pos dt desiredLocalY currentY velocity) in
  let newVelocity :=
    snd (springIntegrate pos dt desiredLocalY currentY velocity) in
  let r := suspensionStep pos dt desiredLocalY currentY velocity in
  withinTravel pos (fst r) /\
  (newY < neutralY pos - maxTravel -> r = (neutralY pos - maxTravel, 0)) /\
  (neutralY pos + maxTravel < newY -> r = (neutralY pos + maxTravel, 0)) /\
  (withinTravel pos newY -> r = (newY, newVelocity)).
Proof.
  cbv zeta; unfold springIntegrate; cbn [fst snd].
  destruct (suspensionStep_cases pos dt desiredLocalY currentY velocity)
    as [Hin Hcases]; cbv zeta in Hcases.
  split; [exact Hin |].
  unfold withinTravel in *; unfold maxTravel in *.
  destruct Hcases as [[Hy ->] | [[Hy ->] | [Hy ->]]];
    repeat split; intros; try reflexivity; lra.
Qed.

Lemma suspensionUpdate_nth (cache : list Obstacle) (body : BodyTransform)
    (dt : R) (ys vs : list R) (i : nat) (pos : R * R * R) :
  nth_error WHEEL_POSITIONS i = Some pos ->
  let r := suspensionStep pos dt (groundLocalY cache body i)
                          (nth i ys (neutralY pos)) (nth i vs 0) in
  nth i (fst (suspensionUpdate cache body dt ys vs)) 0 = fst r /\
  nth i (snd (suspensionUpdate cache body dt ys vs)) 0 = snd r.
Proof.
  intros Hpos; cbv zeta.
  unfold suspensionUpdate, WHEEL_POSITIONS in *.
  cbn [List.length seq combine map fst snd].
  do 6 (destruct i as [| i];
        [ cbn [nth_error] in Hpos; injection Hpos as <-;
          cbn [nth]; unfold suspensionWheel, groundLocalY;
          destruct (nth _ (hardpoints body) (0, 0)) as [hx hz];
          split; reflexivity |]).
  cbn [nth_error] in Hpos; destruct i; discriminate.
Qed.

Lemma useFrame_wheels (f : Frame) (st : Rover) :
  let r := suspensionUpdate (obstaclesCache (useFrame f st)) (body f)
             (Math_min (delta f) 0.05) (wheelY st)
             (wheelVelocities (agentState st)) in
  wheelY (useFrame f st) = fst r /\
  wheelVelocities (agentState (useFrame f st)) = snd r.
Proof.
  cbv zeta.
  assert (Hvs : wheelVelocities
                  (snd (moveRover f (nav_cache (navigate f st)) (roverPos st)
                          (drive f st (navigate f st))))
                = wheelVelocities (agentState st)).
  { destruct (moveRover_shape f (nav_cache (navigate f st)) (roverPos st)
                (drive f st (navigate f st))) as (sp2 & ->).
    unfold drive.
    destruct (integrateDrive_shape f (keysPressed st)
                (nav_decision (navigate f st)) (nav_agent (navigate f st)))
      as (yw & sp1 & sa1 & ->).
    destruct (navigate_agent_shape f st)
      as (stt & rct & sa & sp & ct & v & ->).
    destruct (updateShake_shape f (updateDust f (agentState st)))
      as (p & r & ->).
    destruct (updateDust_shape f (agentState st)) as (dv & ->).
    generalize (agentState st); intros a; open_agent a.
    unfold updateWheelRot, updateScan; unfold_setters.
    branches; reflexivity. }
  unfold useFrame.
  destruct (moveRover _ _ _ _) as [pos a4]; cbn [snd] in Hvs.
  rewrite Hvs.
  destruct (suspensionUpdate _ _ _ _ _) as [ys vs]; split; reflexivity.
Qed.

(** C3. After every frame, whatever the terrain, the body transform and the
    state before, each of the six wheels lies within [maxTravel] of its
    neutral height.  For each wheel, [newY] and [newVelocity] being what the
    integrator reaches from the height and the velocity the wheel had before
    the frame: with [newY] below the lower bound the wheel is put on that
    bound and its velocity is 0, with [newY] above the upper bound it is put
    on that bound and its velocity is 0, and with [newY] within the bounds
    it takes [newY] and [newVelocity].  The wheels are mounted at their
    neutral height, so the bound holds from the start. *)
Theorem suspension_within_travel (fs : list Frame) (f : Frame) (st : Rover) :
  let before := runFrames fs st in
  let after := runFrames (fs ++ [f]) st in
  let dt := Math_min (delta f) 0.05 in
  Forall2 withinTravel WHEEL_POSITIONS (wheelY initialRover) /\
  Forall2 withinTravel WHEEL_POSITIONS (wheelY after) /\
  forall (i : nat) (pos : R * R * R),
    nth_error WHEEL_POSITIONS i = Some pos ->
    let currentY := nth i (wheelY before) (neutralY pos) in
    let velocity := nth i (wheelVelocities (agentState before)) 0 in
    let desiredLocalY := groundLocalY (obstaclesCache after) (body f) i in
    let newY :=
      fst (springIntegrate pos dt desiredLocalY currentY velocity) in
    let newVelocity :=
      snd (springIntegrate pos dt desiredLocalY currentY velocity) in
    let wheelY' := nth i (wheelY after) 0 in
    let velocity' := nth i (wheelVelocities (agentState after)) 0 in
    withinTravel pos wheelY' /\
    (newY < neutralY pos - maxTravel ->
     wheelY' = neutralY pos - maxTravel /\ velocity' = 0) /\
    (neutralY pos + maxTravel < newY ->
     wheelY' = neutralY pos + maxTravel /\ velocity' = 0) /\
    (withinTravel pos newY ->
     wheelY' = newY /\ velocity' = newVelocity).
Proof.
  cbv zeta; unfold runFrames; rewrite fold_left_app; cbn [fold_left].
  set (st0 := fold_left (fun st f => useFrame f st) fs st).
  destruct (useFrame_wheels f st0) as [Hy Hv]; cbv zeta in Hy, Hv.
  set (cache := obstaclesCache (useFrame f st0)) in *.
  set (dt := Math_min (delta f) 0.05) in *.
  assert (Hwheel : forall i pos,
    nth_error WHEEL_POSITIONS i = Some pos ->
    nth i (wheelY (useFrame f st0)) 0 =
      fst (suspensionStep pos dt (groundLocalY cache (body f) i)
             (nth i (wheelY st0) (neutralY pos))
             (nth i (wheelVelocities (agentState st0)) 0)) /\
    nth i (wheelVelocities (agentState (useFrame f st0))) 0 =
      snd (suspensionStep pos dt (groundLocalY cache (body f) i)
             (nth i (wheelY st0) (neutralY pos))
             (nth i (wheelVelocities (agentState st0)) 0))).
  { intros i pos Hpos; rewrite Hy, Hv.
    exact (suspensionUpdate_nth cache (body f) dt (wheelY st0)
             (wheelVelocities (agentState st0)) i pos Hpos). }
  split; [| split].
  - unfold initialRover, WHEEL_POSITIONS, withinTravel, neutralY, maxTravel.
    cbn [wheelY map fst snd].
    repeat (apply Forall2_cons; [cbn; lra |]); apply Forall2_nil.
  - rewrite Hy; unfold suspensionUpdate, WHEEL_POSITIONS.
    cbn [List.length seq combine map fst snd].
    repeat (apply Forall2_cons;
            [ unfold suspensionWheel;
              destruct (nth _ (hardpoints (body f)) (0, 0)) as [hx hz];
              apply suspensionStep_cases |]).
    apply Forall2_nil.
  - intros i pos Hpos.
    destruct (Hwheel i pos Hpos) as [-> ->].
    destruct (suspensionStep_integrate pos dt (groundLocalY cache (body f) i)
                (nth i (wheelY st0) (neutralY pos))
                (nth i (wheelVelocities (agentState st0)) 0))
      as (Hin & Hlo & Hhi & Hmid); cbv zeta in Hlo, Hhi, Hmid.
    split; [exact Hin |].
    split; [| split]; intros Hc.
    + rewrite (Hlo Hc); split; reflexivity.
    + rewrite (Hhi Hc); split; reflexivity.
    + rewrite (Hmid Hc); split; reflexivity.
Qed.

(** The lower bound is enforced: a front left wheel that moves down at 100
    a second is put on [neutralY - maxTravel] with velocity 0, whatever the
    ground asks. *)
Lemma suspension_within_travel_witness :
  let pos := (-0.7, 0.2, -0.5) in
  let after := runFrames ([] ++ [shortFrame]) plungingRover in
  let newY :=
    fst (springIntegrate pos (Math_min (delta shortFrame) 0.05)
           (groundLocalY (obstaclesCache after) (body shortFrame) 0)
           (-0.1) (-100)) in
  nth_error WHEEL_POSITIONS 0 = Some pos /\
  newY < neutralY pos - maxTravel /\
  nth 0 (wheelY after) 0 = neutralY pos - maxTravel /\
  nth 0 (wheelVelocities (agentState after)) 0 = 0.
Proof.
  cbv zeta.
  pose proof (suspension_within_travel [] shortFrame plungingRover) as H.
  cbv zeta in H; destruct H as (_ & _ & H).
  specialize (H 0%nat (-0.7, 0.2, -0.5) eq_refl).
  set (after := runFrames ([] ++ [shortFrame]) plungingRover) in *.
  change (runFrames [] plungingRover) with plungingRover in H.
  change (nth 0 (wheelVelocities (agentState plungingRover)) 0)
    with (-100) in H.
  replace (nth 0 (wheelY plungingRover) (neutralY (-0.7, 0.2, -0.5)))
    with (-0.1) in H
    by (unfold plungingRover, initialRover, WHEEL_POSITIONS;
        cbn [wheelY set_agent map nth fst snd]; lra).
  destruct H as (_ & Hlo & _).
  assert (Hc :
    fst (springIntegrate (-0.7, 0.2, -0.5) (Math_min (delta shortFrame) 0.05)
           (groundLocalY (obstaclesCache after) (body shortFrame) 0)
           (-0.1) (-100))
    < neutralY (-0.7, 0.2, -0.5) - maxTravel).
  { unfold springIntegrate; cbn [fst].
    generalize (groundLocalY (obstaclesCache after) (body shortFrame) 0);
      intros d.
    pose proof (clamp_bounds (d + 0.18)
                  (neutralY (-0.7, 0.2, -0.5) - maxTravel)
                  (neutralY (-0.7, 0.2, -0.5) + maxTravel)) as Hb.
    set (T := clamp _ _ _) in *.
    replace (Math_min (delta shortFrame) 0.05) with 0.01
      by (unfold shortFrame, Math_min; cbn [delta]; settle_cmp; lra).
    unfold neutralY, maxTravel, stiffness, damping in *; cbn [fst snd] in *.
    specialize (Hb ltac:(lra)); lra. }
  split; [reflexivity |]; split; [exact Hc |].
  exact (Hlo Hc).
Defined.

(** ** What a session keeps *)

Lemma hit_shape (v : Vector3.t) (rnd : R * R * R) (st : Rover) :
  exists p r k,
    agentState (hit v rnd st) =
    set_shakeRot r (set_knockbackVel k (set_shakePos p (agentState st))).
Proof.
  unfold hit; cbv zeta.
  destruct rnd as [[r1 r2] r3].
  generalize (agentState st); intros a; open_agent a.
  destruct (_ && _); cbn [agentState set_agent]; shape.
Qed.

Lemma handleKeyDown_shape (key : string) (st : Rover) :
  exists k ap ov,
    handleKeyDown key st =
    mkRover (roverPos st) (agentState st) (damageCount st) k ap ov
            (frameCount st) (lastChunkPos st) (obstaclesCache st) (wheelY st).
Proof.
  destruct st as [pos ag n [w a s d] ap ov fc last cache wy].
  unfold handleKeyDown.
  generalize (String.eqb key "w") (String.eqb key "a") (String.eqb key "s")
             (String.eqb key "d") (String.eqb key "q") (String.eqb key "p").
  intros bw ba bs bd bq bp.
  cbn [keysPressed key_w key_a key_s key_d].
  destruct bw, ba, bs, bd; cbn [set_keys roverPos agentState damageCount
    keysPressed autoPilotRef userPanelOverride frameCount lastChunkPos
    obstaclesCache wheelY];
    destruct bq, bp, ap; cbn [andb negb autoPilotRef roverPos agentState
      damageCount keysPressed userPanelOverride frameCount lastChunkPos
      obstaclesCache wheelY];
    do 3 eexists; reflexivity.
Qed.

Lemma keys_agent (key : string) (st : Rover) :
  agentState (handleKeyDown key st) = agentState st /\
  damageCount (handleKeyDown key st) = damageCount st /\
  agentState (handleKeyUp key st) = agentState st /\
  damageCount (handleKeyUp key st) = damageCount st.
Proof.
  destruct (handleKeyDown_shape key st) as (k & ap & ov & ->).
  repeat split; reflexivity.
Qed.

Lemma updateDust_range (f : Frame) (a : AgentState) :
  0 <= delta f -> 0 <= dustLevel a <= 1 ->
  0 <= dustLevel (updateDust f a) <= 1.
Proof.
  intros Hd Ha; unfold updateDust.
  destruct (stormActive f); [| destruct (_ && _)];
    cbn [dustLevel set_dustLevel]; try exact Ha;
    unfold Math_min, Math_max; split_cmp; lra.
Qed.

Lemma prepare_retraction_range (f : Frame) (st : Rover) :
  0 <= delta f -> 0 <= retractionT (agentState st) <= 1 ->
  0 <= retractionT (snd (prepare f st)) <= 1.
Proof.
  intros Hd Ha.
  destruct (prepare_agent f st) as (_ & _ & _ & _ & ->).
  destruct (shouldRetract f st); unfold Math_min, Math_max; split_cmp; lra.
Qed.

Lemma useFrame_levels (f : Frame) (st : Rover) :
  0 <= delta f -> levelsOK st -> levelsOK (useFrame f st).
Proof.
  intros Hd (Hrt & Hdust & Hdmg); unfold levelsOK.
  destruct (useFrame_fields f st) as (-> & _ & _ & _ & -> & _).
  destruct (useFrame_static f st) as (_ & _ & -> & _).
  split; [apply prepare_retraction_range; assumption |].
  split; [apply updateDust_range; assumption | exact Hdmg].
Qed.

Lemma hit_levels (v : Vector3.t) (rnd : R * R * R) (st : Rover) :
  levelsOK st -> levelsOK (hit v rnd st).
Proof.
  intros (Hrt & Hdust & Hdmg); unfold levelsOK.
  destruct (hit_shape v rnd st) as (p & r & k & ->).
  assert (Hd : (damageCount (hit v rnd st) <= 20)%nat).
  { unfold hit; cbv zeta; destruct rnd as [[r1 r2] r3].
    destruct (_ && _); cbn [damageCount set_agent]; lia. }
  generalize dependent (agentState st); intros a; open_agent a.
  cbn; auto.
Qed.

Lemma run_levels (es : list Event) (st : Rover) :
  forwardTicks es -> levelsOK st -> levelsOK (run es st).
Proof.
  unfold run; revert st.
  induction es as [| e es IH]; intros st Hes Hst; [exact Hst |].
  inversion Hes as [| e' es' He Hes']; subst.
  cbn [fold_left]; apply IH; [exact Hes' |].
  destruct e as [f | v rnd | key | key]; cbn [handle].
  - apply useFrame_levels; assumption.
  - apply hit_levels; assumption.
  - destruct (keys_agent key st) as (Ha & Hd & _).
    unfold levelsOK; rewrite Ha, Hd; exact Hst.
  - destruct (keys_agent key st) as (_ & _ & Ha & Hd).
    unfold levelsOK; rewrite Ha, Hd; exact Hst.
Qed.

Lemma retractionEase_range (rt : R) :
  0 <= rt <= 1 -> 0 <= retractionEase rt <= 1.
Proof.
  intros H; unfold retractionEase.
  assert (H0 : 0 <= (1 - rt) ^ 4) by (apply pow_le; lra).
  assert (H1 : (1 - rt) ^ 4 <= 1 ^ 4) by (apply pow_incr; lra).
  rewrite pow1 in H1; lra.
Qed.

Lemma wheelTrackX_range (pos : R * R * R) (rt : R) :
  0 <= rt <= 1 ->
  let baseX := fst (fst pos) in
  Rabs baseX * 0.35 <= Rabs (wheelTrackX pos rt) <= Rabs baseX /\
  0 <= wheelTrackX pos rt * baseX.
Proof.
  intros H; cbv zeta.
  pose proof (retractionEase_range rt H) as He.
  unfold wheelTrackX, lerp; cbv zeta.
  set (e := retractionEase rt) in *; set (bx := fst (fst pos)).
  replace ((1 - e) * bx + e * (bx * 0.35)) with (bx * (1 - 0.65 * e)) by lra.
  rewrite Rabs_mult, (Rabs_right (1 - 0.65 * e)) by lra.
  pose proof (Rabs_pos bx) as Hb.
  split; [split; nra |].
  replace (bx * (1 - 0.65 * e) * bx) with (bx * bx * (1 - 0.65 * e)) by ring.
  apply Rmult_le_pos; [apply Rle_0_sqr | lra].
Qed.

(** X8. Through any session of frames (time not running backwards), hits and
    key events, the panel retraction and the dust level stay in [0, 1] and
    the damage count stays at most 20; hence every wheel keeps its side and
    a track between 35% and 100% of its mounting offset. *)
Theorem levels_stay_in_range (es : list Event) (st : Rover) :
  forwardTicks es -> levelsOK st ->
  let st' := run es st in
  levelsOK st' /\
  Forall (fun pos =>
            let baseX := fst (fst pos) in
            let trackX := wheelTrackX pos (retractionT (agentState st')) in
            Rabs baseX * 0.35 <= Rabs trackX <= Rabs baseX /\
            0 <= trackX * baseX)
         WHEEL_POSITIONS.
Proof.
  intros Hes Hst; cbv zeta.
  pose proof (run_levels es st Hes Hst) as Hrun.
  split; [exact Hrun |].
  apply Forall_forall; intros pos _.
  apply wheelTrackX_range; exact (proj1 Hrun).
Qed.

Lemma updateScan_ok (f : Frame) (a : AgentState) :
  0 <= delta f ->
  0 <= scanTimer a <= 7 /\ (isScanning a = true -> 5 < scanTimer a) ->
  let a' := updateScan f a in
  (0 <= scanTimer a' <= 7 /\ (isScanning a' = true -> 5 < scanTimer a')) /\
  (isScanning a' = true ->
   stormActive f = false /\ meteorPhase f = IDLE /\
   scanTimer a' = scanTimer a + delta f).
Proof.
  intros Hd [Ht Hs]; cbv zeta; unfold updateScan.
  assert (Hoff :
    (0 <= scanTimer (set_isScanning false a) <= 7 /\
     (isScanning (set_isScanning false a) = true ->
      5 < scanTimer (set_isScanning false a))) /\
    (isScanning (set_isScanning false a) = true ->
     stormActive f = false /\ meteorPhase f = IDLE /\
     scanTimer (set_isScanning false a) = scanTimer a + delta f)).
  { cbn [scanTimer isScanning set_isScanning]; split; [split; [exact Ht |] |]; intros H; discriminate H. }
  destruct (stormActive f); cbn [negb andb]; [exact Hoff |].
  destruct (meteorPhase f); cbn [phase_eqb]; try exact Hoff.
  clear Hoff; cbn [scanTimer set_scanTimer].
  destruct (gtb (scanTimer a + delta f) 5.0) eqn:H5.
  - cbn [scanTimer isScanning set_isScanning set_scanTimer].
    destruct (gtb (scanTimer a + delta f) 7.0) eqn:H7.
    + cbn [scanTimer isScanning set_isScanning set_scanTimer]; split; [split; [lra |] |]; intros H; discriminate H.
    + apply gtb_true in H5; apply gtb_false in H7.
      cbn [scanTimer isScanning set_isScanning set_scanTimer];
      split; [split; [lra | intros _; lra] |].
      intros _; split; [reflexivity | split; reflexivity].
  - apply gtb_false in H5.
    cbn [scanTimer isScanning set_scanTimer].
    split; [split; [lra |] |]; intros Hsc; specialize (Hs Hsc); lra.
Qed.

Lemma useFrame_scan (f : Frame) (st : Rover) :
  0 <= delta f -> scanOK st ->
  scanOK (useFrame f st) /\
  (isScanning (agentState (useFrame f st)) = true ->
   stormActive f = false /\ meteorPhase f = IDLE).
Proof.
  intros Hd Hst; unfold scanOK in *.
  destruct (useFrame_fields f st) as (_ & _ & -> & -> & _).
  destruct (updateScan_ok f (agentState st) Hd Hst) as [Hok Hon].
  split; [exact Hok |].
  intros Hsc; destruct (Hon Hsc) as (H1 & H2 & _); auto.
Qed.

(** X9. Through any session the scan timer stays in [0, 7] and the head is
    scanning only while the timer is above 5; a frame that ends with the
    head scanning is a calm frame of the idle phase, with the timer in
    (5, 7]. *)
Theorem scan_window (es : list Event) (st : Rover) :
  forwardTicks es -> scanOK st ->
  scanOK (run es st) /\
  forall f : Frame,
    0 <= delta f ->
    isScanning (agentState (useFrame f (run es st))) = true ->
    stormActive f = false /\ meteorPhase f = IDLE /\
    5 < scanTimer (agentState (useFrame f (run es st))) <= 7.
Proof.
  intros Hes Hst.
  assert (Hrun : scanOK (run es st)).
  { unfold run; revert st Hst.
    induction es as [| e es IH]; intros st Hst; [exact Hst |].
    inversion Hes as [| e' es' He Hes']; subst.
    cbn [fold_left]; apply IH; [exact Hes' |].
    destruct e as [f | v rnd | key | key]; cbn [handle].
    - apply useFrame_scan; assumption.
    - unfold scanOK.
      destruct (hit_shape v rnd st) as (p & r & k & ->).
      unfold scanOK in Hst.
      generalize dependent (agentState st); intros a; open_agent a.
      cbn; auto.
    - destruct (keys_agent key st) as (Ha & _).
      unfold scanOK; rewrite Ha; exact Hst.
    - destruct (keys_agent key st) as (_ & _ & Ha & _).
      unfold scanOK; rewrite Ha; exact Hst. }
  split; [exact Hrun |].
  intros f Hd Hsc.
  destruct (useFrame_scan f (run es st) Hd Hrun) as [[Ht Hs] Hcalm].
  destruct (Hcalm Hsc) as [H1 H2].
  specialize (Hs Hsc).
  repeat split; auto; lra.
Qed.

(** ** The limits of the drive *)

Lemma seekCover_bounds (pos : Vector3.t) (nearby : list Obstacle)
    (a : AgentState) (d : Decision) :
  let r := seekCover pos nearby a d in
  targetSteer (fst r) = targetSteer d /\
  (targetSpeed (fst r) = 0 \/ targetSpeed (fst r) = 10) /\
  steerAngle (snd r) = steerAngle a /\
  (speed (snd r) = speed a \/ speed (snd r) = 0).
Proof.
  cbv zeta; unfold seekCover.
  destruct (currentCoverTarget a) as [t |].
  - destruct (ltb _ _); cbn; repeat split; auto; right; lra.
  - destruct (nearestGiant pos nearby) as [bestDist target].
    destruct (if inf_gt bestDist 900
              then scanPockets pos (bestDist, target)
              else (bestDist, target)) as [bestDist' [t |]].
    + destruct (ltb _ _); cbn; repeat split; auto; right; lra.
    + cbn; repeat split; auto; right; lra.
Qed.

Lemma decideMode_bounds (f : Frame) (input : Keys) (autoPilot : bool)
    (pos : Vector3.t) (nearby : list Obstacle) (a : AgentState) :
  let r := decideMode f input autoPilot pos nearby a in
  -0.8 <= targetSteer (fst r) <= 0.8 /\
  -5 <= targetSpeed (fst r) <= 10 /\
  steerAngle (snd r) = steerAngle a /\
  (speed (snd r) = speed a \/ speed (snd r) = 0).
Proof.
  cbv zeta; unfold decideMode.
  set (a1 := if phase_eqb (meteorPhase f) IDLE
             then set_currentCoverTarget None a else a).
  assert (Ha1 : steerAngle a1 = steerAngle a /\ speed a1 = speed a)
    by (unfold a1; destruct (phase_eqb _ _); split; reflexivity).
  destruct Ha1 as [Hsa Hsp]; clearbody a1; rewrite <- Hsa, <- Hsp.
  destruct (isManualInput input).
  - destruct (isSystemsOffline a1); cbn [fst snd targetSteer targetSpeed].
    + repeat split; auto; lra.
    + destruct (key_w input), (key_s input), (key_a input), (key_d input);
        repeat split; auto; lra.
  - destruct (phase_eqb (meteorPhase f) IMPACT);
      [cbn; repeat split; auto; lra |].
    destruct (stormActive f || isSystemsOffline a1);
      [cbn; repeat split; auto; lra |].
    destruct (phase_eqb (meteorPhase f) INCOMING).
    + destruct (seekCover_bounds pos nearby a1
                  (mkDecision 0 0 3.0 2.0 false false))
        as (Hts & Hsp' & Hsa' & Hv).
      rewrite Hts; cbn [targetSteer].
      repeat split; auto; destruct Hsp' as [H | H]; rewrite ?H; lra.
    + destruct autoPilot; cbn; repeat split; auto; lra.
Qed.

Lemma scaled_range (v k : R) :
  -5 <= v <= 10 -> 0 <= k <= 1 -> -5 <= v * k <= 10.
Proof. intros Hv Hk; split; nra. Qed.

Lemma turnBrake_range (v : R) : 0 <= Math_max 0.3 (1.0 - Math_abs v * 1.0) <= 1.
Proof.
  pose proof (Rabs_pos v); unfold Math_max, Math_abs; split_cmp; lra.
Qed.

Lemma steeringUpdate_bounds (f : Frame) (s : SearchState) (d : Decision)
    (a : AgentState) :
  -5 <= targetSpeed d <= 10 -> -1 <= steerAngle a <= 1 ->
  let r := steeringUpdate f s d a in
  -1 <= targetSteer (fst r) <= 1 /\
  -5 <= targetSpeed (fst r) <= 10 /\
  -1 <= steerAngle (snd r) <= 1 /\
  speed (snd r) = speed a /\
  stopping (fst r) = stopping d.
Proof.
  intros Hsp Hsa; cbv zeta; unfold steeringUpdate; cbv zeta.
  match goal with
  | |- context [if ?c then set_stuckTimer ?u a else set_stuckTimer ?v a] =>
      set (a1 := if c then set_stuckTimer u a else set_stuckTimer v a)
  end.
  assert (Ha1 : steerAngle a1 = steerAngle a /\ speed a1 = speed a)
    by (unfold a1; destruct (_ && _); split; reflexivity).
  destruct Ha1 as [Hsa1 Hsp1]; clearbody a1.
  rewrite <- Hsa1 in Hsa; rewrite <- Hsp1; clear Hsa1 Hsp1.
  match goal with
  | |- context [if ?c then set_steerAngle ?u (set_recoveryTimer 2.0 a1)
                else a1] =>
      set (a2 := if c then set_steerAngle u (set_recoveryTimer 2.0 a1)
                 else a1)
  end.
  assert (Ha2 : -1 <= steerAngle a2 <= 1 /\ speed a2 = speed a1).
  { unfold a2; destruct (_ && _); [| split; [exact Hsa | reflexivity]].
    destruct (gtb (recoverySide f) 0.5); cbn; split; try reflexivity; lra. }
  destruct Ha2 as [Hsa2 Hsp2]; clearbody a2; rewrite <- Hsp2.
  clear Hsp2 Hsa a1.
  pose proof (clamp_bounds (bestSteerOffset s) (-0.8) 0.8) as Hcl.
  assert (Hbr : forall v k, -5 <= v <= 10 ->
            -5 <= v * Math_max 0.3 (1.0 - Math_abs k * 1.0) <= 10 /\
            -5 <= v * Math_max 0.3 (1.0 - Math_abs k * 1.0) * 0.3 <= 10 /\
            -5 <= v * Math_max 0.3 (1.0 - Math_abs k * 1.0) * 0.6 <= 10).
  { intros v k Hv; pose proof (turnBrake_range k) as Hk.
    pose proof (scaled_range v _ Hv Hk) as H1.
    split; [exact H1 | split]; apply scaled_range; try exact H1; lra. }
  destruct (gtb (recoveryTimer a2) 0).
  - cbn [fst snd targetSteer targetSpeed stopping steerAngle speed
         set_recoveryTimer set_stuckTimer recoveryTimer].
    destruct (_ && _); cbn [fst snd targetSteer targetSpeed stopping].
    + destruct (Hbr (-2.0) (steerAngle a2)) as (H1 & H2 & H3); [lra |].
      destruct (inf_gt (bestCost s) 2000);
        [| destruct (inf_gt (bestCost s) 500)];
        repeat split; auto; lra.
    + repeat split; auto; lra.
  - cbn [fst snd targetSteer targetSpeed stopping].
    destruct (_ && _); cbn [fst snd targetSteer targetSpeed stopping].
    + destruct (Hbr (targetSpeed d) (clamp (bestSteerOffset s) (-0.8) 0.8))
        as (H1 & H2 & H3); [lra |].
      destruct (inf_gt (bestCost s) 2000);
        [| destruct (inf_gt (bestCost s) 500)];
        repeat split; auto; lra.
    + repeat split; auto; lra.
Qed.

Lemma lerp_between (a b t lo hi : R) :
  lo <= a <= hi -> lo <= b <= hi -> 0 <= t <= 1 -> lo <= lerp a b t <= hi.
Proof. intros Ha Hb Ht; unfold lerp; split; nra. Qed.

Lemma navigate_bounds (f : Frame) (st : Rover) :
  driveOK st ->
  let n := navigate f st in
  -1 <= targetSteer (nav_decision n) <= 1 /\
  -5 <= targetSpeed (nav_decision n) <= 10 /\
  -1 <= steerAngle (nav_agent n) <= 1 /\
  -5 <= speed (nav_agent n) <= 10.
Proof.
  intros [Hsp Hsa]; cbv zeta.
  destruct (navigate_agent f st) as [-> ->].
  destruct (prepare_agent f st) as (Hsp0 & Hsa0 & _).
  pose proof (decideMode_bounds f (keysPressed st) (autoPilotRef st)
                (roverPos st) (frameCache st) (snd (prepare f st))) as Hd.
  cbv zeta in Hd; fold (frameMode f st) in Hd.
  destruct Hd as (Hts & Htv & Hsa1 & Hsp1).
  rewrite Hsa0 in Hsa1; rewrite Hsp0 in Hsp1.
  assert (Hspd : -5 <= speed (snd (frameMode f st)) <= 10)
    by (destruct Hsp1 as [-> | ->]; lra).
  unfold raycastSteering.
  destruct (_ && _).
  - pose proof (steeringUpdate_bounds f
                  (steeringSearch (snd (frameMode f st)) (roverPos st)
                     (frameCache st) (fst (frameMode f st)))
                  (fst (frameMode f st)) (snd (frameMode f st)) Htv) as Hu.
    cbv zeta in Hu; rewrite Hsa1 in Hu.
    destruct (Hu Hsa) as (H1 & H2 & H3 & H4 & _).
    rewrite H4; repeat split; lra.
  - cbn [fst snd]; rewrite Hsa1; repeat split; lra.
Qed.

Lemma useFrame_drive (f : Frame) (st : Rover) :
  0 <= delta f <= 0.1 -> driveOK st -> driveOK (useFrame f st).
Proof.
  intros Hd Hst.
  destruct (navigate_bounds f st Hst) as (Hts & Htv & Hsa & Hsp).
  destruct (useFrame_motion f st) as (Hspeed & Hsteer & _).
  rewrite integrateDrive_speed in Hspeed.
  unfold driveOK; rewrite Hsteer; split.
  - assert (H1 : -5 <= (if stopping (nav_decision (navigate f st))
                        then lerp (speed (nav_agent (navigate f st))) 0
                                  (delta f * 2.0)
                        else lerp (speed (nav_agent (navigate f st)))
                                  (targetSpeed (nav_decision (navigate f st)))
                                  (delta f *
                                   (if key_w (keysPressed st)
                                       || key_s (keysPressed st)
                                    then 3.0 else 2.0))) <= 10).
    { destruct (stopping _); [apply lerp_between; lra |].
      destruct (_ || _); apply lerp_between; lra. }
    destruct Hspeed as [-> | ->]; lra.
  - apply lerp_between; lra.
Qed.

Lemma run_drive (es : list Event) (st : Rover) :
  shortTicks 0.1 es -> driveOK st -> driveOK (run es st).
Proof.
  unfold run; revert st.
  induction es as [| e es IH]; intros st Hes Hst; [exact Hst |].
  inversion Hes as [| e' es' He Hes']; subst.
  cbn [fold_left]; apply IH; [exact Hes' |].
  destruct e as [f | v rnd | key | key]; cbn [handle].
  - apply useFrame_drive; assumption.
  - unfold driveOK in *.
    destruct (hit_shape v rnd st) as (p & r & k & ->).
    generalize dependent (agentState st); intros a; open_agent a.
    cbn; auto.
  - destruct (keys_agent key st) as (Ha & _).
    unfold driveOK; rewrite Ha; exact Hst.
  - destruct (keys_agent key st) as (_ & _ & Ha & _).
    unfold driveOK; rewrite Ha; exact Hst.
Qed.

Lemma finalWheelSteer_cases (baseSteer : R) :
  finalWheelSteer 2 baseSteer = 0 /\ finalWheelSteer 3 baseSteer = 0 /\
  finalWheelSteer 4 baseSteer = - finalWheelSteer 0 baseSteer /\
  finalWheelSteer 5 baseSteer = - finalWheelSteer 1 baseSteer /\
  (0 < baseSteer ->
   finalWheelSteer 0 baseSteer = baseSteer * 1.3 /\
   finalWheelSteer 1 baseSteer = baseSteer * 0.8) /\
  (baseSteer <= 0 ->
   finalWheelSteer 0 baseSteer = baseSteer * 0.8 /\
   finalWheelSteer 1 baseSteer = baseSteer * 1.3).
Proof.
  unfold finalWheelSteer; cbv zeta.
  cbn [Nat.modulo Nat.divmod Nat.eqb fst snd Nat.sub orb andb negb].
  split; [reflexivity |]; split; [reflexivity |].
  split; [destruct (gtb baseSteer 0); cbn [andb orb negb]; lra |].
  split; [destruct (gtb baseSteer 0); cbn [andb orb negb]; lra |].
  split; intros H.
  - replace (gtb baseSteer 0) with true by (symmetry; apply gtb_true; lra).
    cbn [andb orb negb]; split; reflexivity.
  - replace (gtb baseSteer 0) with false by (symmetry; apply gtb_false; lra).
    cbn [andb orb negb]; split; reflexivity.
Qed.

(** X10. Through any session whose frames last at most a tenth of a second,
    the speed stays in [-5, 10] and the steer angle in [-1, 1]; so no wheel
    is steered by more than 1.3, and the rear wheels are steered opposite
    to the front wheels of their side. *)
Theorem drive_limits (es : list Event) (st : Rover) :
  shortTicks 0.1 es -> driveOK st ->
  let st' := run es st in
  driveOK st' /\
  Forall (fun i =>
            Rabs (finalWheelSteer i (steerAngle (agentState st'))) <= 1.3)
         (seq 0 6) /\
  finalWheelSteer 4 (steerAngle (agentState st'))
  = - finalWheelSteer 0 (steerAngle (agentState st')) /\
  finalWheelSteer 5 (steerAngle (agentState st'))
  = - finalWheelSteer 1 (steerAngle (agentState st')).
Proof.
  intros Hes Hst; cbv zeta.
  pose proof (run_drive es st Hes Hst) as Hrun.
  split; [exact Hrun |].
  destruct Hrun as [_ Hsa].
  set (s := steerAngle (agentState (run es st))) in *.
  destruct (finalWheelSteer_cases s) as (H2 & H3 & H4 & H5 & Hleft & Hright).
  split; [| split; assumption].
  assert (H01 : Rabs (finalWheelSteer 0 s) <= 1.3 /\
                Rabs (finalWheelSteer 1 s) <= 1.3).
  { destruct (Rlt_le_dec 0 s) as [Hpos | Hneg].
    - destruct (Hleft Hpos) as [-> ->]; split; apply Rabs_le; lra.
    - destruct (Hright Hneg) as [-> ->]; split; apply Rabs_le; lra. }
  destruct H01 as [H0 H1].
  cbn [seq]; repeat (apply Forall_cons; [| ]); try apply Forall_nil;
    rewrite ?H2, ?H3, ?H4, ?H5, ?Rabs_Ropp, ?Rabs_R0; try assumption; lra.
Qed.

Lemma sampleSession_short : shortTicks 0.1 sampleSession.
Proof.
  unfold shortTicks, sampleSession.
  repeat (apply Forall_cons; [try exact I; cbn; lra |]); apply Forall_nil.
Qed.

Lemma sampleSession_forward : forwardTicks sampleSession.
Proof.
  eapply Forall_impl; [| exact sampleSession_short].
  intros [f | | |]; cbn; auto; lra.
Qed.

Lemma levels_stay_in_range_witness :
  forwardTicks sampleSession /\ levelsOK initialRover /\
  levelsOK (run sampleSession initialRover).
Proof.
  assert (H : levelsOK initialRover) by (unfold levelsOK; cbn; split; [lra | split; [lra | lia]]).
  split; [exact sampleSession_forward | split; [exact H |]].
  exact (proj1 (levels_stay_in_range sampleSession initialRover
                  sampleSession_forward H)).
Defined.

Lemma scanOK_initial : scanOK initialRover.
Proof. unfold scanOK; cbn; split; [lra | discriminate]. Qed.

Lemma scan_window_witness :
  forwardTicks sampleSession /\ scanOK initialRover /\
  scanOK (run sampleSession initialRover).
Proof.
  split; [exact sampleSession_forward | split; [exact scanOK_initial |]].
  exact (proj1 (scan_window sampleSession initialRover
                  sampleSession_forward scanOK_initial)).
Defined.

Lemma driveOK_initial : driveOK initialRover.
Proof. unfold driveOK; cbn; lra. Qed.

Lemma drive_limits_witness :
  shortTicks 0.1 sampleSession /\ driveOK initialRover /\
  driveOK (run sampleSession initialRover).
Proof.
  split; [exact sampleSession_short | split; [exact driveOK_initial |]].
  exact (proj1 (drive_limits sampleSession initialRover
                  sampleSession_short driveOK_initial)).
Defined.

(** ** Storm: dust and panels *)

Lemma Math_min_1_step (d t T : R) :
  0 <= t -> 0 <= T ->
  Math_min 1 (Math_min 1 (d + t) + T) = Math_min 1 (d + (t + T)).
Proof. intros Ht HT; unfold Math_min; repeat split_cmp; lra. Qed.

Lemma storm_dust_run (fs : list Frame) :
  Forall (fun f => stormActive f = true /\ 0 <= delta f) fs ->
  0 <= elapsed fs /\
  forall st : Rover,
    dustLevel (agentState st) <= 1 ->
    dustLevel (agentState (runFrames fs st)) =
    Math_min 1 (dustLevel (agentState st) + 0.3 * elapsed fs).
Proof.
  unfold runFrames.
  induction fs as [| f fs IH]; intros Hfs.
  - split; [cbn; lra |]; intros st Hd; cbn [fold_left elapsed fold_right].
    unfold Math_min; split_cmp; lra.
  - inversion Hfs as [| f' fs' [Hstorm Hd] Hfs']; subst.
    destruct (IH Hfs') as [HT Hrun].
    split; [cbn [elapsed fold_right]; fold (elapsed fs); lra |].
    intros st Hdust; cbn [fold_left elapsed fold_right]; fold (elapsed fs).
    assert (Hstep : dustLevel (agentState (useFrame f st)) =
                    Math_min 1 (dustLevel (agentState st) + delta f * 0.3)).
    { destruct (useFrame_fields f st) as (-> & _).
      unfold updateDust; rewrite Hstorm; cbn [dustLevel set_dustLevel].
      replace 1.0 with 1 by lra; reflexivity. }
    rewrite Hrun; rewrite Hstep; [| apply Math_min_l].
    replace (0.3 * (delta f + elapsed fs))
      with (delta f * 0.3 + 0.3 * elapsed fs) by lra.
    apply Math_min_1_step; lra.
Qed.

Lemma storm_panels_run (fs : list Frame) :
  Forall (fun f => stormActive f = true /\ 0 <= delta f) fs ->
  forall st : Rover,
    autoPilotRef st = true ->
    retractionT (agentState st) <= 1 ->
    retractionT (agentState (runFrames fs st)) =
    Math_min 1 (retractionT (agentState st) + 0.6 * elapsed fs).
Proof.
  unfold runFrames.
  induction fs as [| f fs IH]; intros Hfs st Hauto Hrt.
  - cbn [fold_left elapsed fold_right]; unfold Math_min; split_cmp; lra.
  - inversion Hfs as [| f' fs' [Hstorm Hd] Hfs']; subst.
    destruct (storm_dust_run fs Hfs') as [HT _].
    cbn [fold_left elapsed fold_right]; fold (elapsed fs).
    assert (Hstep : retractionT (agentState (useFrame f st)) =
                    Math_min 1 (retractionT (agentState st) + delta f * 0.6)).
    { destruct (useFrame_fields f st) as (_ & _ & _ & _ & -> & _).
      destruct (prepare_agent f st) as (_ & _ & _ & _ & ->).
      unfold shouldRetract; rewrite Hauto, Hstorm; reflexivity. }
    destruct (useFrame_static f st) as (_ & Hauto' & _).
    rewrite IH; [| exact Hfs' | rewrite Hauto'; exact Hauto
                 | rewrite Hstep; apply Math_min_l].
    rewrite Hstep.
    replace (0.6 * (delta f + elapsed fs))
      with (delta f * 0.6 + 0.6 * elapsed fs) by lra.
    apply Math_min_1_step; lra.
Qed.

(** X11. Over a run of storm frames taking the time T the dust level ends at
    min(1, dust + 0.3 T); with the autopilot on the panels end at
    min(1, retraction + 0.6 T), and the systems are offline as soon as that
    passes 0.05. *)
Theorem storm_fills_dust_and_folds_panels (fs : list Frame) (st : Rover) :
  Forall (fun f => stormActive f = true /\ 0 <= delta f) fs ->
  dustLevel (agentState st) <= 1 ->
  retractionT (agentState st) <= 1 ->
  let st' := runFrames fs st in
  dustLevel (agentState st') =
    Math_min 1 (dustLevel (agentState st) + 0.3 * elapsed fs) /\
  (autoPilotRef st = true ->
   retractionT (agentState st') =
     Math_min 1 (retractionT (agentState st) + 0.6 * elapsed fs) /\
   (0.05 < retractionT (agentState st) + 0.6 * elapsed fs ->
    isSystemsOffline (agentState st') = true)).
Proof.
  intros Hfs Hd Hrt; cbv zeta; split.
  - apply (proj2 (storm_dust_run fs Hfs)); exact Hd.
  - intros Hauto.
    pose proof (storm_panels_run fs Hfs st Hauto Hrt) as Hp.
    split; [exact Hp |].
    intros Hoff; unfold isSystemsOffline; rewrite Hp.
    apply gtb_true; unfold Math_min; split_cmp; lra.
Qed.

Lemma storm_fills_dust_and_folds_panels_witness :
  let fs := [stormFrame; stormFrame] in
  Forall (fun f => stormActive f = true /\ 0 <= delta f) fs /\
  dustLevel (agentState initialRover) <= 1 /\
  retractionT (agentState initialRover) <= 1 /\
  dustLevel (agentState (runFrames fs initialRover)) =
    Math_min 1 (dustLevel (agentState initialRover) + 0.3 * elapsed fs).
Proof.
  cbv zeta.
  assert (Hfs : Forall (fun f => stormActive f = true /\ 0 <= delta f)
                       [stormFrame; stormFrame]).
  { repeat (apply Forall_cons; [split; [reflexivity | cbn; lra] |]).
    apply Forall_nil. }
  assert (Hd : dustLevel (agentState initialRover) <= 1) by (cbn; lra).
  assert (Hrt : retractionT (agentState initialRover) <= 1) by (cbn; lra).
  split; [exact Hfs | split; [exact Hd | split; [exact Hrt |]]].
  exact (proj1 (storm_fills_dust_and_folds_panels
                  [stormFrame; stormFrame] initialRover Hfs Hd Hrt)).
Defined.

(** ** Knock-back *)

Lemma knockback_run (fs : list Frame) :
  forall st : Rover,
    Vector3.y (knockbackVel (agentState st)) = 0 ->
    knockbackVel (agentState (runFrames fs st)) =
    Vector3.mk
      (Vector3.x (knockbackVel (agentState st)) * 0.85 ^ List.length fs) 0
      (Vector3.z (knockbackVel (agentState st)) * 0.85 ^ List.length fs).
Proof.
  unfold runFrames.
  induction fs as [| f fs IH]; intros st Hy.
  - cbn [fold_left List.length pow]; rewrite !Rmult_1_r.
    destruct (knockbackVel (agentState st)) as [kx ky kz].
    cbn in *; subst; reflexivity.
  - cbn [fold_left List.length].
    destruct (useFrame_fields f st) as (_ & Hk & _).
    rewrite IH; rewrite Hk; cbn [Vector3.x Vector3.y Vector3.z];
      [| reflexivity].
    f_equal; cbn [pow]; ring.
Qed.

(** X12. A hit that is not deflected sets the knock-back to the horizontal
    part of the impact velocity, and n frames later the knock-back is
    0.85^n times that, whatever the frames do otherwise. *)
Theorem knockback_dies_out (v : Vector3.t) (rnd : R * R * R) (st : Rover)
    (fs : list Frame) :
  isUnderCover (agentState st) && gtb (retractionT (agentState st)) 0.8
    = false ->
  knockbackVel (agentState (hit v rnd st)) =
    Vector3.mk (Vector3.x v) 0 (Vector3.z v) /\
  knockbackVel (agentState (runFrames fs (hit v rnd st))) =
    Vector3.mk (Vector3.x v * 0.85 ^ List.length fs) 0
               (Vector3.z v * 0.85 ^ List.length fs).
Proof.
  intros Hunsafe.
  assert (Hk : knockbackVel (agentState (hit v rnd st)) =
               Vector3.mk (Vector3.x v) 0 (Vector3.z v)).
  { unfold hit; cbv zeta; rewrite Hunsafe.
    destruct rnd as [[r1 r2] r3]; reflexivity. }
  split; [exact Hk |].
  rewrite knockback_run; rewrite Hk; reflexivity.
Qed.

Lemma knockback_dies_out_witness :
  let v := Vector3.mk 3 4 0 in
  let fs := [calmFrame; calmFrame] in
  isUnderCover (agentState initialRover)
    && gtb (retractionT (agentState initialRover)) 0.8 = false /\
  knockbackVel (agentState (runFrames fs (hit v (0, 0, 0) initialRover))) =
    Vector3.mk (Vector3.x v * 0.85 ^ List.length fs) 0
               (Vector3.z v * 0.85 ^ List.length fs).
Proof.
  cbv zeta.
  assert (H : isUnderCover (agentState initialRover)
              && gtb (retractionT (agentState initialRover)) 0.8 = false)
    by reflexivity.
  split; [exact H |].
  exact (proj2 (knockback_dies_out (Vector3.mk 3 4 0) (0, 0, 0) initialRover
                  [calmFrame; calmFrame] H)).
Defined.

(** ** Seeking cover *)

(** X13. The cover search holds the first nearest obstacle of scale 8 or more,
    or nothing when there is none.  With no target held, that rock becomes
    the cover target when it is within 30 (squared distance at most 900),
    the terrain pockets being scanned only beyond; a target already held
    is kept. *)
Theorem cover_is_nearest_giant (pos : Vector3.t) (nearby : list Obstacle)
    (a : AgentState) (d : Decision) :
  holdsNearest pos nearby (nearestGiant pos nearby) /\
  (forall dSq : R,
     currentCoverTarget a = None ->
     fst (nearestGiant pos nearby) = Some dSq -> dSq <= 900 ->
     currentCoverTarget (snd (seekCover pos nearby a d))
     = snd (nearestGiant pos nearby)) /\
  (forall t : CoverTarget.t,
     currentCoverTarget a = Some t ->
     currentCoverTarget (snd (seekCover pos nearby a d)) = Some t).
Proof.
  split; [apply nearestGiant_holds |]; split.
  - intros dSq Hnone Hbest Hnear.
    pose proof (nearestGiant_holds pos nearby) as Hh.
    unfold seekCover; rewrite Hnone.
    destruct (nearestGiant pos nearby) as [bestDist target].
    cbn [fst snd] in *; subst bestDist.
    destruct target as [t |]; [| contradiction].
    unfold inf_gt.
    replace (gtb dSq 900) with false
      by (symmetry; apply gtb_false; exact Hnear).
    destruct (ltb _ _); reflexivity.
  - intros t Ht; unfold seekCover; rewrite Ht.
    destruct (ltb _ _); cbn [snd currentCoverTarget set_speed]; exact Ht.
Qed.

Lemma seekCover_arrived (pos : Vector3.t) (nearby : list Obstacle)
    (a : AgentState) (d : Decision) (t : CoverTarget.t) :
  currentCoverTarget a = Some t ->
  coverDistance pos t < CoverTarget.stopDist t ->
  seekCover pos nearby a d =
  (mkDecision (targetSteer d) (desiredHeading d) 40.0 0 true true,
   set_speed 0 a).
Proof.
  intros Ht Hd; unfold seekCover; rewrite Ht.
  unfold coverDistance in Hd; unfold Math_sqrt.
  replace (ltb _ (CoverTarget.stopDist t)) with true
    by (symmetry; apply ltb_true; exact Hd).
  reflexivity.
Qed.

(** X14. In the warning phase, with no key held, no storm and the panels out,
    a rover within the stop distance of its cover target stops at once: the
    target speed is 0, the decision is a stop, the speed after the frame is
    0 and the target is kept. *)
Theorem cover_reached_stops (f : Frame) (st : Rover) (t : CoverTarget.t) :
  meteorPhase f = INCOMING -> stormActive f = false ->
  isManualInput (keysPressed st) = false ->
  isSystemsOffline (snd (prepare f st)) = false ->
  currentCoverTarget (agentState st) = Some t ->
  coverDistance (roverPos st) t < CoverTarget.stopDist t ->
  targetSpeed (fst (frameMode f st)) = 0 /\
  stopping (nav_decision (navigate f st)) = true /\
  speed (agentState (useFrame f st)) = 0 /\
  currentCoverTarget (agentState (useFrame f st)) = Some t.
Proof.
  intros Hphase Hstorm Hkeys Hon Ht Hd.
  assert (Ht1 : currentCoverTarget (snd (prepare f st)) = Some t).
  { destruct (prepare_shape f st) as (v & ->).
    destruct (updateShake_shape f (updateDust f (agentState st)))
      as (p & r & ->).
    destruct (updateDust_shape f (agentState st)) as (dv & ->).
    rewrite <- Ht; generalize (agentState st); intros a; open_agent a.
    reflexivity. }
  assert (Hmode : frameMode f st =
                  (mkDecision 0 0 40.0 0 true true,
                   set_speed 0 (snd (prepare f st)))).
  { unfold frameMode, decideMode; cbv zeta.
    rewrite Hphase, Hkeys, Hstorm; cbn [phase_eqb orb].
    rewrite Hon.
    rewrite (seekCover_arrived (roverPos st) (frameCache st)
               (snd (prepare f st)) (mkDecision 0 0 3.0 2.0 false false)
               t Ht1 Hd).
    reflexivity. }
  destruct (navigate_agent f st) as [Hna Hnd].
  assert (Hnav : stopping (nav_decision (navigate f st)) = true /\
                 speed (nav_agent (navigate f st)) = 0).
  { rewrite Hna, Hnd, Hmode; cbn [fst snd]; unfold raycastSteering.
    destruct (_ && _); [| split; reflexivity].
    split.
    - match goal with
      | |- stopping (fst (steeringUpdate ?f ?s ?d ?a)) = _ =>
          pose proof (steeringUpdate_shape f s d a) as _;
          unfold steeringUpdate; branches; reflexivity
      end.
    - match goal with
      | |- speed (snd (steeringUpdate ?f ?s ?d ?a)) = _ =>
          destruct (steeringUpdate_keeps f s d a) as [-> _]; reflexivity
      end. }
  destruct Hnav as [Hstop Hsp].
  split; [rewrite Hmode; reflexivity |].
  split; [exact Hstop |].
  split.
  - destruct (useFrame_motion f st) as (Hspeed & _).
    rewrite integrateDrive_speed, Hstop, Hsp in Hspeed.
    unfold lerp in Hspeed; destruct Hspeed as [-> | ->]; lra.
  - destruct (useFrame_fields f st) as (_ & _ & _ & _ & _ & ->).
    rewrite Hmode; cbn [snd currentCoverTarget set_speed]; exact Ht1.
Qed.

Lemma cover_reached_stops_witness :
  let t := coverOf bigRock in
  meteorPhase incomingFrame = INCOMING /\
  stormActive incomingFrame = false /\
  isManualInput (keysPressed coveredRover) = false /\
  isSystemsOffline (snd (prepare incomingFrame coveredRover)) = false /\
  currentCoverTarget (agentState coveredRover) = Some t /\
  coverDistance (roverPos coveredRover) t < CoverTarget.stopDist t /\
  speed (agentState (useFrame incomingFrame coveredRover)) = 0.
Proof.
  cbv zeta.
  assert (Hon : isSystemsOffline (snd (prepare incomingFrame coveredRover))
                = false).
  { unfold isSystemsOffline.
    destruct (prepare_agent incomingFrame coveredRover) as (_ & _ & _ & _ & ->).
    cbn [shouldRetract coveredRover set_agent autoPilotRef userPanelOverride
         initialRover agentState retractionT set_currentCoverTarget
         initialAgent incomingFrame delta].
    apply gtb_false; unfold Math_max; split_cmp; lra. }
  assert (Hd : coverDistance (roverPos coveredRover) (coverOf bigRock)
               < CoverTarget.stopDist (coverOf bigRock)).
  { unfold coverDistance; cbn.
    apply sqrt_lt_sq; [apply sum_sq_nonneg | lra | lra]. }
  split; [reflexivity |]; split; [reflexivity |]; split; [reflexivity |].
  split; [exact Hon |]; split; [reflexivity |]; split; [exact Hd |].
  exact (proj1 (proj2 (proj2
           (cover_reached_stops incomingFrame coveredRover (coverOf bigRock)
              eq_refl eq_refl eq_refl Hon eq_refl Hd)))).
Defined.

(** ** Bringing an angle back into range *)

Lemma wrapAbove_turns (fuel : nat) :
  forall diff : R, exists k : Z, wrapAbove fuel diff = diff + IZR k * (PI * 2).
Proof.
  induction fuel as [| fuel IH]; intros diff.
  - exists 0%Z; cbn [wrapAbove]; lra.
  - cbn [wrapAbove]; destruct (gtb diff PI).
    + destruct (IH (diff - PI * 2)) as (k & ->).
      exists (k - 1)%Z; rewrite minus_IZR; lra.
    + exists 0%Z; lra.
Qed.

Lemma wrapBelow_turns (fuel : nat) :
  forall diff : R, exists k : Z, wrapBelow fuel diff = diff + IZR k * (PI * 2).
Proof.
  induction fuel as [| fuel IH]; intros diff.
  - exists 0%Z; cbn [wrapBelow]; lra.
  - cbn [wrapBelow]; destruct (ltb diff (- PI)).
    + destruct (IH (diff + PI * 2)) as (k & ->).
      exists (k + 1)%Z; rewrite plus_IZR; lra.
    + exists 0%Z; lra.
Qed.

Lemma wrapAngle_fixed (diff : R) : - PI <= diff <= PI -> wrapAngle diff = diff.
Proof.
  intros H; unfold wrapAngle.
  assert (Ha : forall fuel, wrapAbove fuel diff = diff).
  { intros [| fuel]; cbn [wrapAbove]; [reflexivity |].
    replace (gtb diff PI) with false by (symmetry; apply gtb_false; lra).
    reflexivity. }
  rewrite Ha.
  destruct (wrapFuel diff) as [| fuel]; cbn [wrapBelow]; [reflexivity |].
  replace (ltb diff (- PI)) with false by (symmetry; apply ltb_false; lra).
  reflexivity.
Qed.

(** X15. The two [while] loops on the heading error end, leave a value in
    [-PI, PI] that differs from the input by a whole number of turns, and
    change nothing when run again. *)
Theorem wrapAngle_normalises (diff : R) :
  - PI <= wrapAngle diff <= PI /\
  (exists k : Z, wrapAngle diff = diff + IZR k * (2 * PI)) /\
  wrapAngle (wrapAngle diff) = wrapAngle diff.
Proof.
  pose proof (wrapAngle_range diff) as Hr.
  split; [exact Hr |]; split.
  - unfold wrapAngle.
    destruct (wrapAbove_turns (wrapFuel diff) diff) as (k1 & H1).
    destruct (wrapBelow_turns (wrapFuel (wrapAbove (wrapFuel diff) diff))
                (wrapAbove (wrapFuel diff) diff)) as (k2 & H2).
    exists (k1 + k2)%Z; rewrite H2, H1, plus_IZR; lra.
  - apply wrapAngle_fixed; exact Hr.
Qed.

(** ** The collision pass, whatever the obstacles *)

Lemma collideStep_underCover (c : Collision) (obs : Obstacle) :
  underCover (collideStep c obs) =
  givesCover (nextX c) (nextZ c) obs || underCover c.
Proof.
  unfold collideStep, givesCover; cbv zeta.
  destruct (gtb (scale obs) 8.0); cbn [andb orb];
    [destruct (ltb _ ((scale obs * 1.1) * (scale obs * 1.1))) |];
    cbn [orb]; branches; reflexivity.
Qed.

Lemma Collision_eta (c : Collision) :
  c = mkCollision (nextX c) (nextZ c) (hitSomething c) (underCover c).
Proof. destruct c; reflexivity. Qed.

Lemma resolve_outcome (l : list Obstacle) (c0 : Collision) :
  hitSomething c0 = false ->
  let c := fold_left collideStep l c0 in
  (hitSomething c = false /\ nextX c = nextX c0 /\ nextZ c = nextZ c0) \/
  (hitSomething c = true /\
   exists obs, In obs l /\ solid obs = true /\
               horizontalDistance (nextX c) (nextZ c) obs = minDist obs).
Proof.
  intros H0; cbv zeta.
  induction l as [| obs l IH] using rev_ind; [left; cbn; auto |].
  rewrite fold_left_app; cbn [fold_left].
  set (c := fold_left collideStep l c0) in *.
  destruct (collideStep_moves c obs)
    as [(Hx & Hz & Hh & _) | (Hs & _ & Hh & Hon)].
  - rewrite Hx, Hz, Hh.
    destruct IH as [IH | (Hhit & o & Ho & Hso & Hd)]; [left; exact IH |].
    right; split; [exact Hhit |].
    exists o; split; [apply in_or_app; left; exact Ho | auto].
  - right; split; [exact Hh |].
    exists obs; split; [apply in_or_app; right; left; reflexivity | auto].
Qed.

(** X16. Whatever the obstacles, the collision pass either reports no hit and
    returns the proposed position, or reports a hit and ends exactly on the
    exclusion circle (radius 0.85 scale + 0.8) of an obstacle of scale 2.5
    or more. *)
Theorem collision_pass_outcome (nearby : list Obstacle) (px pz : R) :
  let c := resolveCollisions nearby px pz in
  (hitSomething c = false /\ nextX c = px /\ nextZ c = pz) \/
  (hitSomething c = true /\
   exists obs, In obs nearby /\ RUNNABLE_ROCK_SCALE <= scale obs /\
               horizontalDistance (nextX c) (nextZ c) obs
               = scale obs * 0.85 + 0.8).
Proof.
  cbv zeta; unfold resolveCollisions.
  destruct (resolve_outcome nearby (mkCollision px pz false false) eq_refl)
    as [H | (Hh & obs & Hin & Hs & Hd)]; [left; exact H |].
  right; split; [exact Hh |].
  exists obs; split; [exact Hin |]; split; [apply solid_scale; exact Hs |].
  exact Hd.
Qed.

Lemma resolve_clear (l : list Obstacle) :
  forall c : Collision,
    Forall (fun obs => solid obs = true -> clearOf c obs) l ->
    fold_left collideStep l c =
    mkCollision (nextX c) (nextZ c) (hitSomething c)
                (underCover c || existsb (givesCover (nextX c) (nextZ c)) l).
Proof.
  induction l as [| obs l IH]; intros c Hall.
  - cbn [fold_left existsb]; rewrite orb_false_r; apply Collision_eta.
  - inversion Hall as [| o l' Hobs Hl]; subst.
    cbn [fold_left existsb].
    assert (Hstay : nextX (collideStep c obs) = nextX c /\
                    nextZ (collideStep c obs) = nextZ c /\
                    hitSomething (collideStep c obs) = hitSomething c).
    { destruct (collideStep_moves c obs)
        as [(Hx & Hz & Hh & _) | (Hs & Hin & _)]; [auto |].
      specialize (Hobs Hs); unfold clearOf in Hobs; lra. }
    destruct Hstay as (Hx & Hz & Hh).
    rewrite IH.
    + rewrite Hx, Hz, Hh, collideStep_underCover.
      f_equal.
      destruct (givesCover (nextX c) (nextZ c) obs), (underCover c);
        reflexivity.
    + eapply Forall_impl; [| exact Hl].
      intros o Ho Hs; specialize (Ho Hs).
      unfold clearOf in *; rewrite Hx, Hz; exact Ho.
Qed.

(** X17. A proposed position outside the exclusion disc of every obstacle of
    scale 2.5 or more is returned unchanged with no hit, and it is under
    cover exactly when a rock of scale over 8 has it within 1.1 times its
    scale. *)
Theorem clear_position_is_kept (nearby : list Obstacle) (px pz : R) :
  Forall (fun obs => RUNNABLE_ROCK_SCALE <= scale obs ->
                     scale obs * 0.85 + 0.8 <= horizontalDistance px pz obs)
         nearby ->
  resolveCollisions nearby px pz =
  mkCollision px pz false (existsb (givesCover px pz) nearby).
Proof.
  intros Hall; unfold resolveCollisions.
  rewrite resolve_clear; [reflexivity |].
  eapply Forall_impl; [| exact Hall].
  intros obs Ho Hs; apply Ho; apply solid_scale; exact Hs.
Qed.

Lemma clear_position_is_kept_witness :
  Forall (fun obs => RUNNABLE_ROCK_SCALE <= scale obs ->
                     scale obs * 0.85 + 0.8 <= horizontalDistance 50 0 obs)
         [rockFar] /\
  resolveCollisions [rockFar] 50 0 = mkCollision 50 0 false true.
Proof.
  assert (Hd : horizontalDistance 50 0 rockFar = 10).
  { apply horizontalDistance_is; cbn; lra. }
  assert (Hall : Forall (fun obs => RUNNABLE_ROCK_SCALE <= scale obs ->
                     scale obs * 0.85 + 0.8 <= horizontalDistance 50 0 obs)
                   [rockFar]).
  { apply Forall_cons; [| apply Forall_nil].
    intros _; rewrite Hd; cbn; lra. }
  split; [exact Hall |].
  rewrite (clear_position_is_kept [rockFar] 50 0 Hall).
  f_equal; cbn [existsb]; rewrite orb_false_r.
  unfold givesCover; cbn [scale x z rockFar].
  apply andb_true_iff; split; [apply gtb_true | apply ltb_true]; lra.
Defined.

(** ** Keyboard *)

Lemma handleKeyDown_keys (key : string) (st : Rover) :
  keysPressed (handleKeyDown key st) =
  let k := keysPressed st in
  mkKeys (if String.eqb key "w" then true else key_w k)
         (if String.eqb key "a" then true else key_a k)
         (if String.eqb key "s" then true else key_s k)
         (if String.eqb key "d" then true else key_d k).
Proof.
  unfold handleKeyDown; cbv zeta.
  generalize (String.eqb key "w") (String.eqb key "a") (String.eqb key "s")
             (String.eqb key "d") (String.eqb key "q") (String.eqb key "p").
  intros bw ba bs bd bq bp.
  destruct (keysPressed st) as [w a s d] eqn:Hk.
  destruct bq; cbn [set_keys keysPressed autoPilotRef];
    destruct (bp && _); cbn [keysPressed];
    destruct bw, ba, bs, bd; reflexivity.
Qed.

Lemma handleKeyUp_keys (key : string) (st : Rover) :
  keysPressed (handleKeyUp key st) =
  let k := keysPressed st in
  mkKeys (if String.eqb key "w" then false else key_w k)
         (if String.eqb key "a" then false else key_a k)
         (if String.eqb key "s" then false else key_s k)
         (if String.eqb key "d" then false else key_d k).
Proof.
  unfold handleKeyUp; cbv zeta; cbn [set_keys keysPressed].
  generalize (String.eqb key "w") (String.eqb key "a") (String.eqb key "s")
             (String.eqb key "d").
  intros bw ba bs bd.
  destruct (keysPressed st) as [w a s d].
  destruct bw, ba, bs, bd; reflexivity.
Qed.

Lemma handleKeyDown_q (st : Rover) :
  handleKeyDown "q" st =
  mkRover (roverPos st) (agentState st) (damageCount st) (keysPressed st)
          (negb (autoPilotRef st)) None (frameCount st) (lastChunkPos st)
          (obstaclesCache st) (wheelY st).
Proof.
  destruct st as [pos ag n [w a s d] ap ov fc last cache wy].
  unfold handleKeyDown; cbv zeta.
  change (String.eqb "q" "w") with false; change (String.eqb "q" "a") with false.
  change (String.eqb "q" "s") with false; change (String.eqb "q" "d") with false.
  change (String.eqb "q" "q") with true; change (String.eqb "q" "p") with false.
  reflexivity.
Qed.

Lemma handleKeyDown_p (st : Rover) :
  handleKeyDown "p" st =
  if negb (autoPilotRef st) then
    mkRover (roverPos st) (agentState st) (damageCount st) (keysPressed st)
            (autoPilotRef st)
            (Some (negb (match userPanelOverride st with
                         | Some true => true
                         | _ => false
                         end)))
            (frameCount st) (lastChunkPos st) (obstaclesCache st) (wheelY st)
  else st.
Proof.
  destruct st as [pos ag n [w a s d] ap ov fc last cache wy].
  unfold handleKeyDown; cbv zeta.
  change (String.eqb "p" "w") with false; change (String.eqb "p" "a") with false.
  change (String.eqb "p" "s") with false; change (String.eqb "p" "d") with false.
  change (String.eqb "p" "q") with false; change (String.eqb "p" "p") with true.
  cbn [andb set_keys keysPressed autoPilotRef userPanelOverride roverPos
       agentState damageCount frameCount lastChunkPos obstaclesCache wheelY].
  destruct ap; reflexivity.
Qed.

(** X18. Releasing a key after pressing it leaves the held keys as a release
    alone does: that key up, the others untouched.  A release never changes
    the autopilot or the panel override; with nothing held before, nothing
    is held after; a press of w, a, s or d counts as manual input. *)
Theorem key_release_undoes_press (key : string) (st : Rover) :
  keysPressed (handleKeyUp key (handleKeyDown key st))
  = keysPressed (handleKeyUp key st) /\
  autoPilotRef (handleKeyUp key st) = autoPilotRef st /\
  userPanelOverride (handleKeyUp key st) = userPanelOverride st /\
  (isManualInput (keysPressed st) = false ->
   isManualInput (keysPressed (handleKeyUp key (handleKeyDown key st)))
   = false) /\
  (key = "w"%string \/ key = "a"%string \/ key = "s"%string
   \/ key = "d"%string ->
   isManualInput (keysPressed (handleKeyDown key st)) = true).
Proof.
  assert (H : keysPressed (handleKeyUp key (handleKeyDown key st))
              = keysPressed (handleKeyUp key st)).
  { rewrite !handleKeyUp_keys, handleKeyDown_keys; cbv zeta.
    cbn [key_w key_a key_s key_d].
    destruct (String.eqb key "w"), (String.eqb key "a"),
             (String.eqb key "s"), (String.eqb key "d"); reflexivity. }
  split; [exact H |].
  split; [reflexivity |]; split; [reflexivity |]; split.
  - intros Hoff; rewrite H, handleKeyUp_keys; cbv zeta.
    unfold isManualInput in *; cbn [key_w key_a key_s key_d].
    destruct (keysPressed st) as [w a s d]; cbn [key_w key_a key_s key_d] in *.
    destruct w, a, s, d; try discriminate Hoff.
    destruct (String.eqb key "w"), (String.eqb key "a"),
             (String.eqb key "s"), (String.eqb key "d"); reflexivity.
  - intros Hkey; rewrite handleKeyDown_keys; cbv zeta.
    unfold isManualInput; cbn [key_w key_a key_s key_d].
    destruct Hkey as [-> | [-> | [-> | ->]]].
    + change (String.eqb "w" "w") with true; reflexivity.
    + change (String.eqb "a" "a") with true; cbn [orb].
      now rewrite orb_true_r.
    + change (String.eqb "s" "s") with true.
      now rewrite !orb_true_r.
    + change (String.eqb "d" "d") with true.
      now rewrite !orb_true_r.
Qed.

(** X19. The 'q' key flips the autopilot and clears the panel override, so two
    presses restore the autopilot.  The 'p' key does nothing while the
    autopilot is on; with it off it sets the override to the opposite of
    retracted (none counting as extended), and two presses give the state
    it started from.  A frame with the autopilot on clears the override. *)
Theorem autopilot_and_panel_toggles (st : Rover) :
  let q := handleKeyDown "q" in
  let p := handleKeyDown "p" in
  autoPilotRef (q st) = negb (autoPilotRef st) /\
  userPanelOverride (q st) = None /\
  autoPilotRef (q (q st)) = autoPilotRef st /\
  (autoPilotRef st = true -> p st = st) /\
  (autoPilotRef st = false ->
   userPanelOverride (p st)
   = Some (negb (match userPanelOverride st with
                 | Some true => true
                 | _ => false
                 end)) /\
   userPanelOverride (p (p st))
   = Some (match userPanelOverride st with
           | Some true => true
           | _ => false
           end) /\
   autoPilotRef (p st) = false) /\
  (forall f : Frame,
     autoPilotRef st = true -> userPanelOverride (useFrame f st) = None).
Proof.
  cbv zeta.
  split; [rewrite handleKeyDown_q; reflexivity |].
  split; [rewrite handleKeyDown_q; reflexivity |].
  split; [rewrite !handleKeyDown_q; cbn [autoPilotRef];
          apply negb_involutive |].
  split; [| split].
  - intros Hauto; rewrite handleKeyDown_p, Hauto; reflexivity.
  - intros Hauto.
    assert (Hp : forall s, autoPilotRef s = false ->
              userPanelOverride (handleKeyDown "p" s)
              = Some (negb (match userPanelOverride s with
                            | Some true => true
                            | _ => false
                            end)) /\
              autoPilotRef (handleKeyDown "p" s) = false).
    { intros s Hs; rewrite handleKeyDown_p, Hs.
      cbn [negb userPanelOverride autoPilotRef]; split; reflexivity. }
    destruct (Hp st Hauto) as [Ho Ha].
    split; [exact Ho |]; split; [| exact Ha].
    destruct (Hp (handleKeyDown "p" st) Ha) as [Ho2 _].
    rewrite Ho2, Ho.
    destruct (userPanelOverride st) as [[|] |]; reflexivity.
  - intros f Hauto.
    destruct (useFrame_static f st) as (_ & _ & _ & _ & -> & _).
    destruct (navigate_cache f st) as [_ ->].
    rewrite prepare_override, Hauto; reflexivity.
Qed.

(** ** The meteor that reaches the rover *)

Lemma sum_sq_zero (a b : R) : a * a + b * b = 0 -> a = 0 /\ b = 0.
Proof.
  intros H; pose proof (Rle_0_sqr a) as Ha; pose proof (Rle_0_sqr b) as Hb.
  unfold Rsqr in *; split; apply Rsqr_0_uniq; unfold Rsqr; lra.
Qed.

(** X20. A meteor hits the rover only within squared distance 5 on the ground
    and 2.5 in height.  The impact force is horizontal; it is zero when the
    meteor is exactly above the rover, and else has length 25 and points
    from the meteor to the rover; a hit that is not deflected makes it the
    knock-back. *)
Theorem meteor_impact_force (roverPos mpos : Vector3.t) :
  let dx := Vector3.x roverPos - Vector3.x mpos in
  let dz := Vector3.z roverPos - Vector3.z mpos in
  match Meteors.impact roverPos mpos with
  | None =>
      5 <= dx * dx + dz * dz \/
      2.5 <= Rabs (Vector3.y roverPos - Vector3.y mpos)
  | Some v =>
      dx * dx + dz * dz < 5 /\
      Rabs (Vector3.y roverPos - Vector3.y mpos) < 2.5 /\
      Vector3.y v = 0 /\
      ((dx = 0 /\ dz = 0 /\ v = Vector3.zero) \/
       (Vector3.length v = 25 /\
        exists k : R, 0 < k /\ Vector3.x v = k * dx /\ Vector3.z v = k * dz)) /\
      forall (rnd : R * R * R) (st : Rover),
        isUnderCover (agentState st) && gtb (retractionT (agentState st)) 0.8
          = false ->
        knockbackVel (agentState (hit v rnd st)) = v
  end.
Proof.
  cbv zeta; unfold Meteors.impact; cbv zeta.
  set (dx := Vector3.x roverPos - Vector3.x mpos).
  set (dz := Vector3.z roverPos - Vector3.z mpos).
  destruct (ltb (dx * dx + dz * dz) 5.0) eqn:Hd; cbn [andb].
  2: { left; apply ltb_false in Hd; lra. }
  destruct (ltb (Math_abs _) 2.5) eqn:Hh.
  2: { right; apply ltb_false in Hh; exact Hh. }
  apply ltb_true in Hd; apply ltb_true in Hh.
  split; [lra |]; split; [exact Hh |].
  unfold Vector3.normalize, Vector3.length, Vector3.divideScalar,
         Vector3.multiplyScalar, Math_sqrt.
  cbn [Vector3.x Vector3.y Vector3.z].
  assert (H25 : 25.0 = 25) by lra; rewrite !H25; clear H25.
  replace (dx * dx + 0 * 0 + dz * dz) with (dx * dx + dz * dz) by ring.
  set (L := sqrt (dx * dx + dz * dz)).
  assert (HL : 0 <= L) by apply sqrt_pos.
  assert (Hsq : L * L = dx * dx + dz * dz)
    by (apply sqrt_sqrt, sum_sq_nonneg).
  assert (Hy : 0 * (1 / orOne L) * 25 = 0) by ring.
  split; [exact Hy |]; split.
  - unfold orOne; destruct (Req_dec_T L 0) as [Hz | Hnz].
    + left; rewrite Hz in Hsq.
      destruct (sum_sq_zero dx dz) as [Hx0 Hz0]; [lra |].
      split; [exact Hx0 |]; split; [exact Hz0 |].
      unfold Vector3.zero; rewrite Hx0, Hz0; f_equal; ring.
    + right; assert (Hpos : 0 < L) by lra.
      split.
      * replace (dx * (1 / L) * 25 * (dx * (1 / L) * 25)
                 + 0 * (1 / L) * 25 * (0 * (1 / L) * 25)
                 + dz * (1 / L) * 25 * (dz * (1 / L) * 25))
          with ((dx * dx + dz * dz) / (L * L) * (25 * 25))
          by (field; lra).
        rewrite <- Hsq.
        replace (L * L / (L * L) * (25 * 25)) with (25 * 25) by (field; lra).
        apply sqrt_square; lra.
      * exists (25 / L); split; [apply Rdiv_lt_0_compat; lra |].
        split; field; lra.
  - intros rnd st Hunsafe.
    unfold hit; cbv zeta; rewrite Hunsafe.
    destruct rnd as [[r1 r2] r3].
    cbn [agentState knockbackVel set_knockbackVel set_shakePos set_shakeRot
         Vector3.x Vector3.z].
    rewrite Hy; reflexivity.
Qed.

(** ** Altitude and cache *)

Lemma surfaceStep_range (wx wz h : R) (obs : Obstacle) :
  0 <= scale obs -> h < 8.55 ->
  h <= surfaceStep wx wz h obs < 8.55.
Proof.
  intros Hs Hh; unfold surfaceStep; cbv zeta.
  destruct (geb (scale obs) RUNNABLE_ROCK_SCALE) eqn:Hrun; [lra |].
  apply geb_false in Hrun; unfold RUNNABLE_ROCK_SCALE in Hrun.
  destruct (ltb _ _) eqn:Hin; [| lra].
  destruct (gtb _ h) eqn:Hup; [| lra].
  apply gtb_true in Hup; split; [lra |].
  pose proof (getBaseTerrainHeight_range (x obs) (z obs)) as Hg.
  set (distSq := (wx - x obs) * (wx - x obs) + (wz - z obs) * (wz - z obs)).
  assert (Hsq : Math_sqrt (Math_max 0 (scale obs * 0.9 * (scale obs * 0.9)
                                       - distSq)) <= scale obs * 0.9).
  { unfold Math_sqrt; apply sqrt_le_sq; [lra |].
    pose proof (sum_sq_nonneg (wx - x obs) (wz - z obs)) as Hd.
    fold distSq in Hd.
    unfold Math_max; split_cmp; nra. }
  fold distSq; lra.
Qed.

Lemma surface_range (cache : list Obstacle) (wx wz : R) :
  Forall (fun o => 0 <= scale o) cache ->
  -8.6 <= getSurfaceHeight cache wx wz < 8.55.
Proof.
  intros Hall; unfold getSurfaceHeight.
  pose proof (getBaseTerrainHeight_range wx wz) as Hb.
  assert (H : forall h, -8.6 <= h < 8.55 ->
            -8.6 <= fold_left (surfaceStep wx wz) cache h < 8.55).
  { induction cache as [| obs l IH]; intros h Hh; [exact Hh |].
    inversion Hall as [| o l' Ho Hl]; subst.
    cbn [fold_left]; apply IH; [exact Hl |].
    pose proof (surfaceStep_range wx wz h obs Ho (proj2 Hh)); lra. }
  apply H; lra.
Qed.

Lemma frameCache_scale (st : Rover) :
  Forall (fun o => 0 <= scale o) (obstaclesCache st) ->
  Forall (fun o => 0 <= scale o) (frameCache st).
Proof.
  intros Hc; unfold frameCache, refreshCache; cbv zeta.
  destruct (_ || _); cbn [snd]; [| exact Hc].
  eapply Forall_impl; [| apply loadChunks_scale]; cbn; intros; lra.
Qed.

Lemma useFrame_altitude (f : Frame) (st : Rover) :
  exists wx wz,
    Vector3.y (roverPos (useFrame f st)) =
    lerp (Vector3.y (roverPos st))
         (getSurfaceHeight (frameCache st) wx wz + 0.55) 0.2 /\
    obstaclesCache (useFrame f st) = frameCache st /\
    lastChunkPos (useFrame f st) =
    fst (refreshCache (roverPos st) (lastChunkPos st) (obstaclesCache st)).
Proof.
  assert (Hlast : nav_last (navigate f st) =
                  fst (refreshCache (roverPos st) (lastChunkPos st)
                                    (obstaclesCache st))).
  { unfold navigate.
    destruct (prepare f st) as [ov a1].
    destruct (refreshCache _ _ _) as [last cache].
    destruct (decideMode _ _ _ _ _ _) as [d a2].
    destruct (raycastSteering _ _ _ _ _ _) as [d3 a3]; reflexivity. }
  unfold useFrame; rewrite Hlast.
  destruct (navigate_cache f st) as [-> _].
  unfold moveRover; cbv zeta.
  destruct (suspensionUpdate _ _ _ _ _) as [ys vs].
  cbn [roverPos obstaclesCache lastChunkPos Vector3.x Vector3.y Vector3.z].
  eexists; eexists; split; [reflexivity | split; reflexivity].
Qed.

Lemma useFrame_ground (f : Frame) (st : Rover) :
  groundOK st -> groundOK (useFrame f st).
Proof.
  intros [Hy Hc]; unfold groundOK.
  destruct (useFrame_altitude f st) as (wx & wz & -> & -> & _).
  pose proof (frameCache_scale st Hc) as Hfc.
  split; [| exact Hfc].
  pose proof (surface_range (frameCache st) wx wz Hfc) as Hs.
  apply lerp_between; lra.
Qed.

Lemma events_keep_place (e : Event) (st : Rover) :
  (forall f, e <> Tick f) ->
  roverPos (handle st e) = roverPos st /\
  obstaclesCache (handle st e) = obstaclesCache st /\
  lastChunkPos (handle st e) = lastChunkPos st.
Proof.
  intros Hno; destruct e as [f | v rnd | key | key]; cbn [handle].
  - destruct (Hno f eq_refl).
  - unfold hit; cbv zeta; destruct rnd as [[r1 r2] r3].
    destruct (_ && _); repeat split; reflexivity.
  - destruct (handleKeyDown_shape key st) as (k & ap & ov & ->).
    repeat split; reflexivity.
  - unfold handleKeyUp; cbv zeta; repeat split; reflexivity.
Qed.

(** X21. After any session from the initial state the rover's altitude is in
    [-8.05, 9.1] and its cache holds rocks of non-negative scale; over that
    cache the surface height is at least the base terrain height, at least
    -8.6 and under 8.55 everywhere. *)
Theorem altitude_stays_in_range (es : list Event) (wx wz : R) :
  let st := run es initialRover in
  groundOK st /\
  -8.6 <= getBaseTerrainHeight wx wz /\
  getBaseTerrainHeight wx wz <= getSurfaceHeight (obstaclesCache st) wx wz /\
  getSurfaceHeight (obstaclesCache st) wx wz < 8.55.
Proof.
  cbv zeta.
  assert (Hinit : groundOK initialRover)
    by (unfold groundOK; cbn; split; [lra | constructor]).
  assert (Hrun : forall st, groundOK st -> groundOK (run es st)).
  { unfold run; induction es as [| e es IH]; intros st Hst; [exact Hst |].
    cbn [fold_left]; apply IH.
    destruct e as [f | v rnd | key | key];
      [apply useFrame_ground; exact Hst | | |];
      match goal with
      | |- groundOK (handle ?s ?e) =>
          destruct (events_keep_place e s) as (Hp & Hc & _);
          [intros f0; discriminate |];
          unfold groundOK; rewrite Hp, Hc; exact Hst
      end. }
  pose proof (Hrun initialRover Hinit) as Hg.
  split; [exact Hg |].
  pose proof (surface_range _ wx wz (proj2 Hg)) as Hs.
  pose proof (getBaseTerrainHeight_range wx wz) as Hb.
  assert (Hge : forall (cache : list Obstacle) (h : R),
            h <= fold_left (surfaceStep wx wz) cache h).
  { induction cache as [| obs l IH]; intros h; [cbn; lra |].
    cbn [fold_left].
    eapply Rle_trans; [| apply IH].
    pose proof (Rle_refl h).
    unfold surfaceStep; cbv zeta.
    destruct (geb _ _); [lra |].
    destruct (ltb _ _); [| lra].
    destruct (gtb _ h) eqn:Hup; [apply gtb_true in Hup; lra | lra]. }
  pose proof (Hge (obstaclesCache (run es initialRover))
                (getBaseTerrainHeight wx wz)) as Hge'.
  fold (getSurfaceHeight (obstaclesCache (run es initialRover)) wx wz) in Hge'.
  lra.
Qed.

Lemma useFrame_cache (f : Frame) (st : Rover) :
  lastChunkPos (useFrame f st) =
    (Math_round (Vector3.x (roverPos st) / CHUNK_SIZE),
     Math_round (Vector3.z (roverPos st) / CHUNK_SIZE)) /\
  (cacheOK st -> cacheOK (useFrame f st)) /\
  (lastChunkPos (useFrame f st) <> lastChunkPos st -> cacheOK (useFrame f st)).
Proof.
  destruct (useFrame_altitude f st) as (wx & wz & _ & Hc & Hl).
  unfold cacheOK; rewrite Hc, Hl.
  split; [apply refreshCache_round |].
  unfold frameCache, refreshCache; cbv zeta.
  destruct (Z.eqb_spec (Math_round (Vector3.x (roverPos st) / CHUNK_SIZE))
                       (fst (lastChunkPos st))) as [Hx | Hx];
    destruct (Z.eqb_spec (Math_round (Vector3.z (roverPos st) / CHUNK_SIZE))
                         (snd (lastChunkPos st))) as [Hz | Hz];
    cbn [negb orb fst snd]; split; try reflexivity; try (intros H; exact H).
  intros H; destruct (H eq_refl).
Qed.

Lemma cacheOK_content (st : Rover) :
  cacheOK st ->
  List.length (obstaclesCache st) = 261%nat /\
  Forall (fun o => 1.5 <= scale o <= 32) (obstaclesCache st).
Proof.
  unfold cacheOK; intros ->; split; [| apply loadChunks_scale].
  unfold loadChunks, neighbourhood; cbn [flat_map map app].
  rewrite !length_app, !getObstaclesInChunk_layers.
  cbn [ROCK_LAYERS flat_map]; unfold layerObstacles.
  rewrite !length_app, !length_map, !length_seq; reflexivity.
Qed.

(** X22. From the first frame on, the cache is the nine chunks around the
    chunk it was built for: 261 obstacles of scale 1.5 to 32; and after
    every later frame it is the nine chunks around the chunk of the
    position the frame started from. *)
Theorem cache_follows_the_rover (f : Frame) (es : list Event) (g : Frame) :
  let st := run es (useFrame f initialRover) in
  cacheOK st /\
  List.length (obstaclesCache st) = 261%nat /\
  Forall (fun o => 1.5 <= scale o <= 32) (obstaclesCache st) /\
  lastChunkPos (useFrame g st) =
    (Math_round (Vector3.x (roverPos st) / CHUNK_SIZE),
     Math_round (Vector3.z (roverPos st) / CHUNK_SIZE)) /\
  obstaclesCache (useFrame g st) =
    loadChunks (Math_round (Vector3.x (roverPos st) / CHUNK_SIZE))
               (Math_round (Vector3.z (roverPos st) / CHUNK_SIZE)).
Proof.
  cbv zeta.
  assert (Hfirst : cacheOK (useFrame f initialRover)).
  { destruct (useFrame_cache f initialRover) as (Hl & _ & Hnew).
    apply Hnew; rewrite Hl.
    cbn [roverPos initialRover Vector3.x Vector3.z lastChunkPos].
    pose proof (Math_round_near (0 / CHUNK_SIZE)) as Hn.
    apply Rabs_le_between in Hn; unfold CHUNK_SIZE in *.
    intros Heq; injection Heq; intros _ Hx; rewrite Hx in Hn; lra. }
  assert (Hrun : forall st, cacheOK st -> cacheOK (run es st)).
  { unfold run; induction es as [| e es IH]; intros st Hst; [exact Hst |].
    cbn [fold_left]; apply IH.
    destruct e as [f0 | v rnd | key | key];
      [exact (proj1 (proj2 (useFrame_cache f0 st)) Hst) | | |];
      match goal with
      | |- cacheOK (handle ?s ?e) =>
          destruct (events_keep_place e s) as (_ & Hc & Hl);
          [intros f0; discriminate |];
          unfold cacheOK; rewrite Hc, Hl; exact Hst
      end. }
  pose proof (Hrun _ Hfirst) as Hok.
  split; [exact Hok |].
  destruct (cacheOK_content _ Hok) as [Hlen Hsc].
  split; [exact Hlen |]; split; [exact Hsc |].
  destruct (useFrame_cache g (run es (useFrame f initialRover)))
    as (Hl & Hkeep & _).
  split; [exact Hl |].
  specialize (Hkeep Hok); unfold cacheOK in Hkeep.
  rewrite Hkeep, Hl; reflexivity.
Qed.

(** ** The fan of candidate headings *)

Lemma RAY_COUNT_pred : INR (RAY_COUNT - 1) = 34.
Proof. unfold RAY_COUNT. change (35 - 1)%nat with 34%nat. rewrite INR_IZR_INZ. reflexivity. Qed.

Lemma INR_34 : INR 34 = 34.
Proof. rewrite INR_IZR_INZ; reflexivity. Qed.

Lemma INR_17 : INR 17 = 17.
Proof. rewrite INR_IZR_INZ; reflexivity. Qed.

Lemma angleOffset_range (i : nat) :
  (i <= 34)%nat -> - FOV / 2 <= angleOffset i <= FOV / 2.
Proof.
  intros Hi; unfold angleOffset; cbv zeta.
  assert (Hpos : 0 < FOV) by (unfold FOV; pose proof PI_RGT_0; lra).
  rewrite RAY_COUNT_pred.
  assert (Ht : 0 <= INR i / 34 <= 1).
  { pose proof (pos_INR i) as H0.
    apply le_INR in Hi; rewrite INR_34 in Hi.
    split; lra. }
  apply lerp_between; lra.
Qed.

(** X23. The 35 candidate headings run from -FOV/2 to FOV/2 symmetrically
    about straight ahead (candidate 17); the offset the search returns lies
    in that range, and the search reports all blocked exactly when every
    candidate has a penalty of 100 or more. *)
Theorem steering_fan (a : AgentState) (pos : Vector3.t)
    (nearby : list Obstacle) (d : Decision) :
  let s := steeringSearch a pos nearby d in
  angleOffset 0 = - FOV / 2 /\ angleOffset 17 = 0 /\
  angleOffset 34 = FOV / 2 /\
  (forall i : nat, (i <= 34)%nat -> angleOffset (34 - i) = - angleOffset i) /\
  - FOV / 2 <= bestSteerOffset s <= FOV / 2 /\
  allBlocked s =
    forallb (fun i => negb (ltb (rayPenalty a pos nearby i) 100))
            (seq 0 RAY_COUNT).
Proof.
  cbv zeta.
  split; [unfold angleOffset, lerp; rewrite RAY_COUNT_pred;
          change (INR 0) with 0; lra |].
  split; [unfold angleOffset, lerp; rewrite RAY_COUNT_pred, INR_17; lra |].
  split; [unfold angleOffset, lerp; rewrite RAY_COUNT_pred, INR_34; lra |].
  split.
  - intros i Hi; unfold angleOffset, lerp; rewrite RAY_COUNT_pred.
    rewrite minus_INR by exact Hi.
    rewrite INR_34; lra.
  - split.
    + pose proof (search_holdsBest a pos nearby d (seq 1 34) 0) as Hbest.
      assert (Hs : steeringSearch a pos nearby d =
                   fold_left (rayStep a pos nearby d) (0%nat :: seq 1 34)
                             (mkSearch None 0 true)) by reflexivity.
      rewrite <- Hs in Hbest.
      destruct Hbest as (i & before & after & Hl & _ & _ & _ & Hoff).
      rewrite Hoff; apply angleOffset_range.
      assert (Hin : In i (seq 0 35)).
      { change (seq 0 35) with (0%nat :: seq 1 34).
        rewrite Hl; apply in_or_app; right; left; reflexivity. }
      apply in_seq in Hin; lia.
    + unfold steeringSearch.
      rewrite (search_allBlocked a pos nearby d); reflexivity.
Qed.

(** ** Folded panels *)

(** X24. With a movement key held and the panels retracted beyond 0.05, the
    target speed and steer of the frame are 0 whatever the key: the speed
    shrinks by the factor 1 - k delta (k = 3 with w or s held, else 2;
    times 0.95 after a collision) and the steer angle by 1 - 10 delta. *)
Theorem folded_panels_block_driving (f : Frame) (st : Rover) :
  isManualInput (keysPressed st) = true ->
  isSystemsOffline (snd (prepare f st)) = true ->
  let n := navigate f st in
  let a' := agentState (useFrame f st) in
  let k := if key_w (keysPressed st) || key_s (keysPressed st)
           then 3.0 else 2.0 in
  targetSpeed (nav_decision n) = 0 /\ targetSteer (nav_decision n) = 0 /\
  (speed a' = speed (agentState st) * (1 - delta f * k) \/
   speed a' = speed (agentState st) * (1 - delta f * k) * 0.95) /\
  steerAngle a' = steerAngle (agentState st) * (1 - delta f * 10).
Proof.
  intros Hkeys Hoff; cbv zeta.
  assert (Hmode : frameMode f st =
                  (mkDecision 0 0 3.0 0 false false,
                   if phase_eqb (meteorPhase f) IDLE
                   then set_currentCoverTarget None (snd (prepare f st))
                   else snd (prepare f st))).
  { unfold frameMode, decideMode; cbv zeta; rewrite Hkeys.
    assert (Ha : isSystemsOffline
                   (if phase_eqb (meteorPhase f) IDLE
                    then set_currentCoverTarget None (snd (prepare f st))
                    else snd (prepare f st)) = true)
      by (destruct (phase_eqb _ _); exact Hoff).
    rewrite Ha; cbn [desiredHeading headingWeight stopping].
    f_equal; f_equal; lra. }
  destruct (navigate_decideMode f st) as [Hd Ha];
    [rewrite Hmode; reflexivity |].
  rewrite Hd, Hmode; cbn [fst targetSpeed targetSteer].
  split; [reflexivity |]; split; [reflexivity |].
  destruct (useFrame_motion f st) as (Hsp & Hst & _).
  rewrite integrateDrive_speed, Hd, Ha, Hmode in Hsp.
  rewrite Hd, Ha, Hmode in Hst.
  cbn [fst snd stopping targetSpeed targetSteer] in Hsp, Hst.
  destruct (prepare_agent f st) as (Hsp0 & Hsa0 & _).
  assert (Hsame : speed (if phase_eqb (meteorPhase f) IDLE
                         then set_currentCoverTarget None (snd (prepare f st))
                         else snd (prepare f st)) = speed (agentState st) /\
                  steerAngle (if phase_eqb (meteorPhase f) IDLE
                              then set_currentCoverTarget None
                                     (snd (prepare f st))
                              else snd (prepare f st))
                  = steerAngle (agentState st))
    by (destruct (phase_eqb _ _); split; assumption).
  destruct Hsame as [Hs1 Hs2]; rewrite Hs1 in Hsp; rewrite Hs2 in Hst.
  unfold lerp in *; split.
  - destruct Hsp as [-> | ->]; [left | right]; lra.
  - rewrite Hst; lra.
Qed.

Lemma folded_panels_block_driving_witness :
  isManualInput (keysPressed foldedRover) = true /\
  isSystemsOffline (snd (prepare calmFrame foldedRover)) = true /\
  targetSpeed (nav_decision (navigate calmFrame foldedRover)) = 0.
Proof.
  assert (Hk : isManualInput (keysPressed foldedRover) = true).
  { unfold foldedRover; rewrite handleKeyDown_keys.
    change (String.eqb "w" "w") with true; reflexivity. }
  assert (Hoff : isSystemsOffline (snd (prepare calmFrame foldedRover))
                 = true).
  { unfold isSystemsOffline.
    destruct (prepare_agent calmFrame foldedRover) as (_ & _ & _ & _ & ->).
    unfold shouldRetract, foldedRover.
    rewrite (proj1 (keys_agent "w" _)).
    destruct (handleKeyDown_shape "w"
                (set_agent (set_retractionT 1 initialAgent) initialRover))
      as (k & ap & ov & Hshape).
    assert (Hap : autoPilotRef (handleKeyDown "w"
                    (set_agent (set_retractionT 1 initialAgent) initialRover))
                  = false /\
                  userPanelOverride (handleKeyDown "w"
                    (set_agent (set_retractionT 1 initialAgent) initialRover))
                  = None).
    { unfold handleKeyDown; cbv zeta.
      change (String.eqb "w" "q") with false.
      change (String.eqb "w" "p") with false.
      split; reflexivity. }
    destruct Hap as [-> ->].
    cbn [agentState set_agent retractionT set_retractionT initialAgent
         calmFrame delta].
    apply gtb_true; unfold Math_max; split_cmp; lra. }
  split; [exact Hk | split; [exact Hoff |]].
  exact (proj1 (folded_panels_block_driving calmFrame foldedRover Hk Hoff)).
Defined.

(** ** The timers of the stuck detection *)

Lemma steeringUpdate_timers (f : Frame) (s : SearchState) (d : Decision)
    (a : AgentState) :
  0 <= delta f -> 0 <= stuckTimer a -> recoveryTimer a <= 2 ->
  let a' := snd (steeringUpdate f s d a) in
  0 <= stuckTimer a' <= 1 /\ recoveryTimer a' <= 2.
Proof.
  intros Hd Hst Hrec; cbv zeta; unfold steeringUpdate; cbv zeta.
  match goal with
  | |- context [if ?c then set_stuckTimer ?u a else set_stuckTimer ?v a] =>
      set (a1 := if c then set_stuckTimer u a else set_stuckTimer v a)
  end.
  assert (Ha1 : 0 <= stuckTimer a1 /\ recoveryTimer a1 = recoveryTimer a).
  { unfold a1; destruct (_ && _); cbn; split; try reflexivity; try lra.
    unfold Math_max; split_cmp; lra. }
  destruct Ha1 as [Hs1 Hr1]; clearbody a1.
  destruct (gtb (stuckTimer a1) 1.0) eqn:Hgt; cbn [andb].
  - destruct (leb (recoveryTimer a1) 0) eqn:Hle.
    + cbn [recoveryTimer set_steerAngle set_recoveryTimer].
      replace (gtb 2.0 0) with true by (symmetry; apply gtb_true; lra).
      branches; cbn; lra.
    + apply leb_false in Hle.
      replace (gtb (recoveryTimer a1) 0) with true
        by (symmetry; apply gtb_true; lra).
      branches; cbn; lra.
  - apply gtb_false in Hgt.
    destruct (gtb (recoveryTimer a1) 0) eqn:Hpos.
    + branches; cbn; lra.
    + branches; cbn; lra.
Qed.

Lemma useFrame_timers (f : Frame) (st : Rover) :
  0 <= delta f -> timersOK st -> timersOK (useFrame f st).
Proof.
  intros Hd [Hst Hrec]; unfold timersOK.
  destruct (useFrame_motion f st) as (_ & _ & Htm).
  destruct (timers_eq _ _ Htm) as (-> & -> & _).
  destruct (frameMode_timers f st) as (Hs0 & Hr0 & _).
  destruct (navigate_agent f st) as [-> _].
  unfold raycastSteering; destruct (_ && _).
  - apply steeringUpdate_timers; [exact Hd | rewrite Hs0; lra | rewrite Hr0; lra].
  - cbn [snd]; rewrite Hs0, Hr0; split; assumption.
Qed.

(** X25. Through any session the stuck timer stays in [0, 1] at the end of
    every event and the recovery timer never exceeds 2. *)
Theorem timers_stay_in_range (es : list Event) (st : Rover) :
  forwardTicks es -> timersOK st -> timersOK (run es st).
Proof.
  unfold run; revert st.
  induction es as [| e es IH]; intros st Hes Hst; [exact Hst |].
  inversion Hes as [| e' es' He Hes']; subst.
  cbn [fold_left]; apply IH; [exact Hes' |].
  destruct e as [f | v rnd | key | key]; cbn [handle].
  - apply useFrame_timers; assumption.
  - unfold timersOK in *.
    destruct (hit_shape v rnd st) as (p & r & k & ->).
    generalize dependent (agentState st); intros a; open_agent a.
    cbn; auto.
  - destruct (keys_agent key st) as (Ha & _).
    unfold timersOK; rewrite Ha; exact Hst.
  - destruct (keys_agent key st) as (_ & _ & Ha & _).
    unfold timersOK; rewrite Ha; exact Hst.
Qed.

Lemma timers_stay_in_range_witness :
  forwardTicks sampleSession /\ timersOK initialRover /\
  timersOK (run sampleSession initialRover).
Proof.
  assert (H : timersOK initialRover) by (unfold timersOK; cbn; lra).
  split; [exact sampleSession_forward | split; [exact H |]].
  exact (timers_stay_in_range sampleSession initialRover
           sampleSession_forward H).
Defined.

(** ** Obstacles that share the identifier of the cover target *)

(** X26. Identifiers repeat across the tiers of a chunk, so while the cover
    target is the rock of index i of one tier, the rock of index i of any
    other tier of that chunk is taken for the target too: the steering
    search adds no penalty for it. *)
Theorem cover_target_hides_same_index (cx cz : Z) (layer other : RockLayer)
    (i : nat) (a : AgentState) (angle px pz penalty : R) :
  currentCoverTarget a = Some (coverOf (makeObstacle cx cz layer i)) ->
  let twin := makeObstacle cx cz other i in
  id twin = id (makeObstacle cx cz layer i) /\
  isCoverTarget (currentCoverTarget a) twin = true /\
  obstaclePenalty a [twin] angle px pz penalty = penalty.
Proof.
  intros Ht; cbv zeta.
  assert (Hid : isCoverTarget (currentCoverTarget a)
                  (makeObstacle cx cz other i) = true).
  { rewrite Ht; unfold isCoverTarget, coverOf, makeObstacle; cbv zeta.
    cbn [CoverTarget.id id]; apply String.eqb_refl. }
  split; [reflexivity |]; split; [exact Hid |].
  unfold obstaclePenalty; cbn [fold_left]; rewrite Hid; reflexivity.
Qed.

Lemma cover_target_hides_same_index_witness :
  let g := makeObstacle 0 0 (mkLayer 1 22 32) 0 in
  let a := set_currentCoverTarget (Some (coverOf g)) initialAgent in
  let twin := makeObstacle 0 0 (mkLayer 25 1.5 3.5) 0 in
  currentCoverTarget a = Some (coverOf g) /\
  isCoverTarget (currentCoverTarget a) twin = true /\
  obstaclePenalty a [twin] 0 (x twin) (z twin) 0 = 0.
Proof.
  cbv zeta.
  split; [reflexivity |].
  exact (proj2 (cover_target_hides_same_index 0 0 (mkLayer 1 22 32)
                  (mkLayer 25 1.5 3.5) 0
                  (set_currentCoverTarget
                     (Some (coverOf (makeObstacle 0 0 (mkLayer 1 22 32) 0)))
                     initialAgent)
                  0 _ _ 0 eq_refl)).
Defined.

(** ** Damage *)

Lemma hit_unsafe_again (v : Vector3.t) (rnd : R * R * R) (st : Rover) :
  isUnderCover (agentState st) && gtb (retractionT (agentState st)) 0.8
    = false ->
  damageCount (hit v rnd st) = Nat.min (damageCount st + 1) 20 /\
  isUnderCover (agentState (hit v rnd st))
    && gtb (retractionT (agentState (hit v rnd st))) 0.8 = false.
Proof.
  intros Hunsafe; unfold hit; cbv zeta; rewrite Hunsafe.
  destruct rnd as [[r1 r2] r3]; cbn [damageCount agentState].
  split; [reflexivity |].
  generalize dependent (agentState st); intros a; open_agent a.
  cbn; auto.
Qed.

(** X27. After n hits that are not deflected the damage count is
    min(count + n, 20). *)
Theorem damage_saturates (hits : list (Vector3.t * (R * R * R)))
    (st : Rover) :
  isUnderCover (agentState st) && gtb (retractionT (agentState st)) 0.8
    = false ->
  (damageCount st <= 20)%nat ->
  damageCount (run (map (fun h => Hit (fst h) (snd h)) hits) st)
  = Nat.min (damageCount st + List.length hits) 20.
Proof.
  unfold run; revert st.
  induction hits as [| [v rnd] hits IH]; intros st Hunsafe Hd.
  - cbn [map fold_left List.length]; lia.
  - cbn [map fold_left List.length handle fst snd].
    destruct (hit_unsafe_again v rnd st Hunsafe) as [Hd1 Hu1].
    rewrite IH; [| exact Hu1 | rewrite Hd1; lia].
    rewrite Hd1; lia.
Qed.

Lemma damage_saturates_witness :
  let hits := repeat (Vector3.mk 3 4 0, (0.5, 0.5, 0.5)) 25 in
  isUnderCover (agentState initialRover)
    && gtb (retractionT (agentState initialRover)) 0.8 = false /\
  (damageCount initialRover <= 20)%nat /\
  damageCount (run (map (fun h => Hit (fst h) (snd h)) hits) initialRover)
  = 20%nat.
Proof.
  cbv zeta.
  assert (Hu : isUnderCover (agentState initialRover)
               && gtb (retractionT (agentState initialRover)) 0.8 = false)
    by reflexivity.
  assert (Hd : (damageCount initialRover <= 20)%nat) by (cbn; lia).
  split; [exact Hu | split; [exact Hd |]].
  rewrite (damage_saturates _ initialRover Hu Hd).
  reflexivity.
Defined.

(** ** Sand on the lens *)

Lemma Math_min_step (c d t T : R) :
  0 <= t -> 0 <= T ->
  Math_min c (Math_min c (d + t) + T) = Math_min c (d + (t + T)).
Proof. intros Ht HT; unfold Math_min; repeat split_cmp; lra. Qed.

(** The panels are out and stay out: no autopilot, no manual retraction. *)
Lemma panels_stay_out (f : Frame) (st : Rover) :
  0 <= delta f ->
  autoPilotRef st = false -> userPanelOverride st <> Some true ->
  retractionT (agentState st) < 0.5 ->
  autoPilotRef (useFrame f st) = false /\
  userPanelOverride (useFrame f st) <> Some true /\
  retractionT (agentState (useFrame f st)) < 0.5.
Proof.
  intros Hd Hauto Hov Hrt.
  destruct (useFrame_static f st) as (_ & -> & _ & _ & -> & _).
  destruct (navigate_cache f st) as [_ ->].
  rewrite prepare_override, Hauto.
  split; [reflexivity |]; split; [exact Hov |].
  destruct (useFrame_fields f st) as (_ & _ & _ & _ & -> & _).
  destruct (prepare_agent f st) as (_ & _ & _ & _ & ->).
  unfold shouldRetract; rewrite Hauto.
  destruct (userPanelOverride st) as [[|] |]; [destruct (Hov eq_refl) | |];
    unfold Math_max; split_cmp; lra.
Qed.

Lemma exposure_open (f : Frame) (st : Rover) :
  stormActive f = true -> retractionT (agentState st) < 0.5 ->
  sandExposure f (updateShake f (updateDust f (agentState st)))
  = Some (delta f * 0.3).
Proof.
  intros Hs Hrt; unfold sandExposure; rewrite Hs; cbn [andb].
  assert (Hsame : retractionT (updateShake f (updateDust f (agentState st)))
                  = retractionT (agentState st)).
  { destruct (updateShake_shape f (updateDust f (agentState st)))
      as (p & r & ->).
    destruct (updateDust_shape f (agentState st)) as (dv & ->).
    generalize (agentState st); intros a; open_agent a; reflexivity. }
  rewrite Hsame.
  replace (ltb (retractionT (agentState st)) 0.5) with true
    by (symmetry; apply ltb_true; exact Hrt).
  reflexivity.
Qed.

Lemma exposure_closed (f : Frame) (st : Rover) :
  0.5 <= retractionT (agentState st) ->
  sandExposure f (updateShake f (updateDust f (agentState st))) = None.
Proof.
  intros Hrt; unfold sandExposure.
  assert (Hsame : retractionT (updateShake f (updateDust f (agentState st)))
                  = retractionT (agentState st)).
  { destruct (updateShake_shape f (updateDust f (agentState st)))
      as (p & r & ->).
    destruct (updateDust_shape f (agentState st)) as (dv & ->).
    generalize (agentState st); intros a; open_agent a; reflexivity. }
  rewrite Hsame.
  replace (ltb (retractionT (agentState st)) 0.5) with false
    by (symmetry; apply ltb_false; exact Hrt).
  now rewrite andb_false_r.
Qed.

(** X28. Over a run of storm frames taking the time T, with the autopilot off
    and the panels out and not told to retract, every frame reports its
    exposure and the app's sand severity ends at min(1, severity + 0.3 T)
    and its permanent dust at min(0.98, dust + 0.009 T); with the autopilot
    on and the panels at 0.5 or beyond, no frame reports anything and both
    stay as they were. *)
Theorem sand_exposure_accumulates (fs : list Frame) (st : Rover)
    (sand : App.Sand) :
  Forall (fun f => stormActive f = true /\ 0 <= delta f) fs ->
  App.sandSeverity sand <= 1 -> App.permanentDust sand <= 0.98 ->
  (autoPilotRef st = false -> userPanelOverride st <> Some true ->
   retractionT (agentState st) < 0.5 ->
   snd (exposeFrames fs (st, sand)) =
   App.mkSand (Math_min 1 (App.sandSeverity sand + 0.3 * elapsed fs))
              (Math_min 0.98 (App.permanentDust sand + 0.009 * elapsed fs))) /\
  (autoPilotRef st = true -> 0.5 <= retractionT (agentState st) ->
   snd (exposeFrames fs (st, sand)) = sand) /\
  fst (exposeFrames fs (st, sand)) = runFrames fs st.
Proof.
  intros Hfs Hsev Hperm.
  assert (Hfst : forall fs st sand,
            fst (exposeFrames fs (st, sand)) = runFrames fs st).
  { clear; unfold exposeFrames, runFrames.
    induction fs as [| f fs IH]; intros st sand; [reflexivity |].
    cbn [fold_left exposeFrame]; apply IH. }
  split; [| split; [| apply Hfst]].
  - revert st sand Hsev Hperm.
    unfold exposeFrames.
    induction fs as [| f fs IH]; intros st sand Hsev Hperm Hauto Hov Hrt.
    + cbn [fold_left snd elapsed fold_right].
      destruct sand as [sev perm]; cbn [App.sandSeverity App.permanentDust] in *.
      f_equal; unfold Math_min; split_cmp; lra.
    + inversion Hfs as [| f' fs' [Hstorm Hd] Hfs']; subst.
      destruct (storm_dust_run fs Hfs') as [HT _].
      cbn [fold_left exposeFrame].
      rewrite (exposure_open f st Hstorm Hrt).
      destruct (panels_stay_out f st Hd Hauto Hov Hrt) as (Ha' & Ho' & Hr').
      rewrite (IH Hfs'); try assumption.
      * unfold App.handleSandExposure.
        cbn [App.sandSeverity App.permanentDust elapsed fold_right].
        fold (elapsed fs).
        replace 1.0 with 1 by lra.
        f_equal.
        -- replace (0.3 * (delta f + elapsed fs))
             with (delta f * 0.3 + 0.3 * elapsed fs) by lra.
           apply Math_min_step; lra.
        -- replace (0.009 * (delta f + elapsed fs))
             with (delta f * 0.3 * 0.03 + 0.009 * elapsed fs) by lra.
           apply Math_min_step; lra.
      * unfold App.handleSandExposure; cbn [App.sandSeverity].
        match goal with
        | |- Math_min ?c ?v <= _ => pose proof (Math_min_l c v); lra
        end.
      * unfold App.handleSandExposure; cbn [App.permanentDust].
        apply Math_min_l.
  - revert st sand Hsev Hperm.
    unfold exposeFrames.
    induction fs as [| f fs IH]; intros st sand Hsev Hperm Hauto Hrt;
      [reflexivity |].
    inversion Hfs as [| f' fs' [Hstorm Hd] Hfs']; subst.
    cbn [fold_left exposeFrame].
    rewrite (exposure_closed f st Hrt).
    assert (Hauto' : autoPilotRef (useFrame f st) = true)
      by (destruct (useFrame_static f st) as (_ & -> & _); exact Hauto).
    assert (Hrt' : 0.5 <= retractionT (agentState (useFrame f st))).
    { destruct (useFrame_fields f st) as (_ & _ & _ & _ & -> & _).
      destruct (prepare_agent f st) as (_ & _ & _ & _ & ->).
      unfold shouldRetract; rewrite Hauto, Hstorm; cbn [orb].
      unfold Math_min; split_cmp; lra. }
    exact (IH Hfs' (useFrame f st) sand Hsev Hperm Hauto' Hrt').
Qed.

Lemma sand_exposure_accumulates_witness :
  let fs := [stormFrame; stormFrame] in
  let sand := App.mkSand 0 0 in
  Forall (fun f => stormActive f = true /\ 0 <= delta f) fs /\
  App.sandSeverity sand <= 1 /\ App.permanentDust sand <= 0.98 /\
  snd (exposeFrames fs (initialRover, sand)) =
  App.mkSand (Math_min 1 (App.sandSeverity sand + 0.3 * elapsed fs))
             (Math_min 0.98 (App.permanentDust sand + 0.009 * elapsed fs)).
Proof.
  cbv zeta.
  assert (Hfs : Forall (fun f => stormActive f = true /\ 0 <= delta f)
                       [stormFrame; stormFrame]).
  { repeat (apply Forall_cons; [split; [reflexivity | cbn; lra] |]).
    apply Forall_nil. }
  assert (H1 : App.sandSeverity (App.mkSand 0 0) <= 1) by (cbn; lra).
  assert (H2 : App.permanentDust (App.mkSand 0 0) <= 0.98) by (cbn; lra).
  assert (Hov : userPanelOverride initialRover <> Some true)
    by (cbn; discriminate).
  assert (Hrt : retractionT (agentState initialRover) < 0.5) by (cbn; lra).
  split; [exact Hfs | split; [exact H1 | split; [exact H2 |]]].
  exact (proj1 (sand_exposure_accumulates [stormFrame; stormFrame]
                  initialRover (App.mkSand 0 0) Hfs H1 H2)
               eq_refl Hov Hrt).
Defined.

(** ** The spring at the capped time step *)

(** X29. At the capped time step (a frame of 0.05 s or longer) the damping
    cancels the old velocity: a wheel within its travel moves to the target
    plus 0.7 of its displacement from it, whatever its velocity was, and
    stays within travel; a wheel at rest on its target stays there for any
    time step. *)
Theorem suspension_capped_step (pos : R * R * R)
    (frameDelta desiredLocalY currentY velocity : R) :
  0.05 <= frameDelta -> withinTravel pos currentY ->
  let target :=
    clamp (desiredLocalY + 0.18) (neutralY pos - maxTravel)
          (neutralY pos + maxTravel) in
  suspensionStep pos (Math_min frameDelta 0.05) desiredLocalY currentY velocity
  = (target + 0.7 * (currentY - target), -6 * (currentY - target)) /\
  withinTravel pos (target + 0.7 * (currentY - target)) /\
  forall dt : R, suspensionStep pos dt desiredLocalY target 0 = (target, 0).
Proof.
  intros Hd Hy; cbv zeta.
  assert (Hdt : Math_min frameDelta 0.05 = 0.05)
    by (unfold Math_min; split_cmp; lra).
  pose proof (clamp_bounds (desiredLocalY + 0.18) (neutralY pos - maxTravel)
                (neutralY pos + maxTravel)) as Ht.
  unfold withinTravel in *; unfold maxTravel in *.
  assert (Hc : neutralY pos - 0.4
               <= clamp (desiredLocalY + 0.18) (neutralY pos - 0.4)
                        (neutralY pos + 0.4)
               <= neutralY pos + 0.4) by (apply Ht; lra).
  clear Ht; rewrite Hdt.
  unfold suspensionStep; cbv zeta; unfold maxTravel, stiffness, damping.
  set (T := clamp (desiredLocalY + 0.18) (neutralY pos - 0.4)
                  (neutralY pos + 0.4)) in *.
  clearbody T.
  split; [| split; [lra |]].
  - unfold gtb; settle_cmp; f_equal; lra.
  - intros dt; unfold gtb; settle_cmp; f_equal; lra.
Qed.

Lemma suspension_capped_step_witness :
  let pos := (-0.7, 0.2, -0.5) in
  0.05 <= 0.1 /\ withinTravel pos (neutralY pos) /\
  withinTravel pos
    (clamp (1 + 0.18) (neutralY pos - maxTravel) (neutralY pos + maxTravel)
     + 0.7 * (neutralY pos
              - clamp (1 + 0.18) (neutralY pos - maxTravel)
                      (neutralY pos + maxTravel))).
Proof.
  cbv zeta.
  assert (H1 : 0.05 <= 0.1) by lra.
  assert (H2 : withinTravel (-0.7, 0.2, -0.5) (neutralY (-0.7, 0.2, -0.5)))
    by (unfold withinTravel, maxTravel; lra).
  split; [exact H1 | split; [exact H2 |]].
  exact (proj1 (proj2 (suspension_capped_step (-0.7, 0.2, -0.5) 0.1 1
                         (neutralY (-0.7, 0.2, -0.5)) 0 H1 H2))).
Defined.
